(** * IoT dashboard: message classifier, channel manager and presence tracker

  A shallow embedding of the two React modules that carry the dashboard's
  logic:

  - [WebSocketMessages.js]: the channel manager ([connect], [onclose],
    [onerror], the keep-alive interval, the mount effect and its cleanup)
    and the message classifier with its one-slot duplicate filter
    ([socket.onmessage], [lastMessageRef]);
  - [hooks/useDevicePingStatus.js]: the presence tracker ([isHi], [isBye],
    [ask], [handleMessage], the 4000 ms timeout).

  Handlers run to completion, one event at a time.  Component state, refs
  and the runtime's timer table are fields of a state record; the clock is
  in milliseconds and a timer runs when the clock reaches its deadline.  An
  [async] function is cut at its [await]: what comes before runs when it is
  called, what comes after when the awaited request settles.

  JavaScript values are those [JSON.parse] can return; [undefined] is the
  absent case of an [option].  Strings are sequences of code units, and the
  model covers the code units below 256.  Numbers are the integers.

  The definitions come first ([JS], [JSON], [Classifier], [Channel],
  [Presence], [Samples]), then the properties. *)

From Stdlib Require Import String Ascii List ZArith NArith Arith Bool Lia.
From Stdlib Require Import DecimalString.
Import ListNotations.

Local Open Scope string_scope.
#[local] Set Warnings "-register-all".

(* ================================================================== *)
(** ** JavaScript values and the string operations the code uses *)

Module JS.

Inductive JSValue : Type :=
| JNull
| JBool (b : bool)
| JNum (z : Z)
| JStr (s : string)
| JArr (elems : list JSValue)
| JObj (members : list (string * JSValue)).

(** A value read from a variable or a property: [None] is [undefined]. *)
Definition JSRead : Type := option JSValue.

(** Abrupt and normal completion, for [try { ... } catch (e) { ... }]. *)
Inductive Exn : Type := SyntaxError | TypeError.

Inductive Completion (A : Type) : Type :=
| Normal (a : A)
| Throw (e : Exn).
Arguments Normal {A} a.
Arguments Throw {A} e.

Definition bind {A B : Type} (c : Completion A) (k : A -> Completion B)
  : Completion B :=
  match c with
  | Normal a => k a
  | Throw e => Throw e
  end.

Definition try_catch {A : Type} (c : Completion A) (handler : Exn -> A) : A :=
  match c with
  | Normal a => a
  | Throw e => handler e
  end.

(** *** Strings *)

Definition code (c : ascii) : nat := nat_of_ascii c.

(** White space and line terminators that [String.prototype.trim] strips,
    among the code units below 256: TAB, LF, VT, FF, CR, SP, NBSP. *)
Definition is_space (c : ascii) : bool :=
  let n := code c in
  (((9 <=? n) && (n <=? 13)) || (n =? 32) || (n =? 160))%nat.

Fixpoint trimStart (s : string) : string :=
  match s with
  | EmptyString => EmptyString
  | String c r => if is_space c then trimStart r else s
  end.

Fixpoint trimEnd (s : string) : string :=
  match s with
  | EmptyString => EmptyString
  | String c r =>
      match trimEnd r with
      | EmptyString => if is_space c then EmptyString else String c EmptyString
      | r' => String c r'
      end
  end.

Definition trim (s : string) : string := trimEnd (trimStart s).

Fixpoint all_space (s : string) : bool :=
  match s with
  | EmptyString => true
  | String c r => is_space c && all_space r
  end.

(** [toLowerCase] on one code unit below 256: A-Z, and the Latin-1 capitals
    U+00C0..U+00DE except the multiplication sign U+00D7. *)
Definition lower_char (c : ascii) : ascii :=
  let n := code c in
  if (((65 <=? n) && (n <=? 90))
      || ((192 <=? n) && (n <=? 222) && negb (n =? 215)))%nat
  then ascii_of_nat (n + 32)
  else c.

Fixpoint toLowerCase (s : string) : string :=
  match s with
  | EmptyString => EmptyString
  | String c r => String (lower_char c) (toLowerCase r)
  end.

(** Decimal text of an integer, as [Number.prototype.toString] prints it. *)
Definition num_to_string (z : Z) : string :=
  NilZero.string_of_int (Z.to_int z).

Fixpoint join_with (sep : string) (parts : list string) : string :=
  match parts with
  | [] => ""
  | [p] => p
  | p :: rest => p ++ sep ++ join_with sep rest
  end.

(** [String(v)] for a value that is not [undefined].  An array is joined
    with commas, [null] elements giving the empty string; a plain object
    prints as [[object Object]]. *)
Fixpoint to_string (v : JSValue) : string :=
  match v with
  | JNull => "null"
  | JBool true => "true"
  | JBool false => "false"
  | JNum z => num_to_string z
  | JStr s => s
  | JArr elems =>
      join_with ","
        ((fix each (l : list JSValue) : list string :=
            match l with
            | [] => []
            | JNull :: r => "" :: each r
            | e :: r => to_string e :: each r
            end) elems)
  | JObj _ => "[object Object]"
  end.

(** [String(p)] on a read. *)
Definition String_ (p : JSRead) : string :=
  match p with
  | None => "undefined"
  | Some v => to_string v
  end.

(** *** Truthiness, equality with a string, property reads *)

Definition truthy (p : JSRead) : bool :=
  match p with
  | None => false
  | Some JNull => false
  | Some (JBool b) => b
  | Some (JNum z) => negb (z =? 0)%Z
  | Some (JStr s) => negb (s =? "")
  | Some (JArr _) => true
  | Some (JObj _) => true
  end.

(** [p === "literal"]: no coercion, so only a string can be equal. *)
Definition strict_eq_string (p : JSRead) (lit : string) : bool :=
  match p with
  | Some (JStr s) => s =? lit
  | _ => false
  end.

Fixpoint lookup (k : string) (members : list (string * JSValue)) : JSRead :=
  match members with
  | [] => None
  | (k', v) :: r => if k' =? k then Some v else lookup k r
  end.

Definition is_digit (c : ascii) : bool :=
  let n := code c in ((48 <=? n) && (n <=? 57))%nat.

Fixpoint all_digits (s : string) : bool :=
  match s with
  | EmptyString => true
  | String c r => is_digit c && all_digits r
  end.

Fixpoint digits_value (acc : N) (s : string) : N :=
  match s with
  | EmptyString => acc
  | String c r => digits_value (10 * acc + N.of_nat (code c - 48)) r
  end.

(** A property key that is an array index: the canonical decimal text of an
    integer from 0 to 2^32 - 2. *)
Definition array_index (k : string) : option N :=
  match k with
  | EmptyString => None
  | String c r =>
      if all_digits k && implb (c =? "0")%char (r =? "")
         && (String.length k <=? 10)%nat
      then let n := digits_value 0 k in
           if (n <? 4294967295)%N then Some n else None
      else None
  end.

(** Reading a data property [v.k].  [null.k] throws; a primitive or an
    array answers only for [length] and its indices.  Properties inherited
    from the built-in prototypes are functions and are not values of this
    model; the code reads [topic] and [payload], which are not among
    them. *)
Definition get (v : JSValue) (k : string) : Completion JSRead :=
  match v with
  | JNull => Throw TypeError
  | JObj members => Normal (lookup k members)
  | JStr s =>
      if k =? "length" then Normal (Some (JNum (Z.of_nat (String.length s))))
      else match array_index k with
           | Some i =>
               Normal (option_map (fun c => JStr (String c EmptyString))
                         (String.get (N.to_nat i) s))
           | None => Normal None
           end
  | JArr elems =>
      if k =? "length" then Normal (Some (JNum (Z.of_nat (List.length elems))))
      else match array_index k with
           | Some i => Normal (nth_error elems (N.to_nat i))
           | None => Normal None
           end
  | JBool _ | JNum _ => Normal None
  end.

(** Optional chaining [v?.k] on a value that came from [JSON.parse]:
    [null?.k] is [undefined] instead of a throw. *)
Definition get_opt (v : JSValue) (k : string) : JSRead :=
  try_catch (get v k) (fun _ => None).

End JS.

(* ================================================================== *)
(** ** JSON text: [JSON.stringify] and a reader for [JSON.parse]

  The handlers below take [JSON.parse] and [JSON.stringify] from their
  environment, and the theorems about them hold for every such pair.  This
  module gives one pair to run the handlers on concrete frames: the writer
  follows [JSON.stringify] on parsed values, and the reader accepts JSON
  text whose numbers are integer literals and whose escapes stay below
  U+0100 (a literal with a fraction or an exponent is outside its
  fragment and is refused). *)

Module JSON.
Import JS.

Definition dquote : ascii := ascii_of_nat 34.

(** *** Writer *)

Definition hex_digit (n : nat) : ascii :=
  if (n <? 10)%nat then ascii_of_nat (48 + n) else ascii_of_nat (87 + n).

Definition quote_char (c : ascii) : string :=
  let n := code c in
  if (n =? 34)%nat then String "\" (String dquote "")
  else if (n =? 92)%nat then "\\"
  else if (n =? 8)%nat then "\b"
  else if (n =? 9)%nat then "\t"
  else if (n =? 10)%nat then "\n"
  else if (n =? 12)%nat then "\f"
  else if (n =? 13)%nat then "\r"
  else if (n <? 32)%nat
       then "\u00" ++ String (hex_digit (n / 16)) (String (hex_digit (n mod 16)) "")
       else String c "".

Fixpoint quote_body (s : string) : string :=
  match s with
  | EmptyString => ""
  | String c r => quote_char c ++ quote_body r
  end.

Definition quote (s : string) : string :=
  String dquote (quote_body s ++ String dquote "").

Fixpoint stringify (v : JSValue) : string :=
  match v with
  | JNull => "null"
  | JBool true => "true"
  | JBool false => "false"
  | JNum z => num_to_string z
  | JStr s => quote s
  | JArr elems =>
      "[" ++ join_with ","
               ((fix each (l : list JSValue) : list string :=
                   match l with
                   | [] => []
                   | e :: r => stringify e :: each r
                   end) elems) ++ "]"
  | JObj members =>
      "{" ++ join_with ","
               ((fix each (l : list (string * JSValue)) : list string :=
                   match l with
                   | [] => []
                   | (k, e) :: r => (quote k ++ ":" ++ stringify e) :: each r
                   end) members) ++ "}"
  end.

(** *** Object construction, in property enumeration order

    [JSON.parse] defines the members in source order; a repeated key keeps
    its place and takes the later value; array-index keys are enumerated
    first, in ascending order, then the other keys in creation order. *)

Fixpoint has_key (k : string) (m : list (string * JSValue)) : bool :=
  match m with
  | [] => false
  | (k', _) :: r => (k' =? k) || has_key k r
  end.

Fixpoint replace_member (k : string) (v : JSValue) (m : list (string * JSValue))
  : list (string * JSValue) :=
  match m with
  | [] => []
  | (k', v') :: r =>
      if k' =? k then (k', v) :: r else (k', v') :: replace_member k v r
  end.

Definition key_before (k k' : string) : bool :=
  match array_index k, array_index k' with
  | Some i, Some j => (i <? j)%N
  | Some _, None => true
  | None, _ => false
  end.

Fixpoint insert_member (k : string) (v : JSValue) (m : list (string * JSValue))
  : list (string * JSValue) :=
  match m with
  | [] => [(k, v)]
  | (k', v') :: r =>
      if key_before k k' then (k, v) :: m else (k', v') :: insert_member k v r
  end.

Definition define_property (k : string) (v : JSValue) (m : list (string * JSValue))
  : list (string * JSValue) :=
  if has_key k m then replace_member k v m else insert_member k v m.

(** *** Reader *)

Definition is_json_space (c : ascii) : bool :=
  let n := code c in ((n =? 32) || (n =? 9) || (n =? 10) || (n =? 13))%nat.

Fixpoint skip_ws (s : string) : string :=
  match s with
  | EmptyString => EmptyString
  | String c r => if is_json_space c then skip_ws r else s
  end.

Definition hex_value (c : ascii) : option nat :=
  let n := code c in
  if ((48 <=? n) && (n <=? 57))%nat then Some (n - 48)
  else if ((97 <=? n) && (n <=? 102))%nat then Some (n - 87)
  else if ((65 <=? n) && (n <=? 70))%nat then Some (n - 55)
  else None.

Definition hex4 (a b c d : ascii) : option nat :=
  match hex_value a, hex_value b, hex_value c, hex_value d with
  | Some x, Some y, Some z, Some w => Some (((x * 16 + y) * 16 + z) * 16 + w)
  | _, _, _, _ => None
  end.

Definition unescape (e : ascii) : option ascii :=
  let n := code e in
  if (n =? 34)%nat then Some dquote
  else if (n =? 92)%nat then Some "\"%char
  else if (n =? 47)%nat then Some "/"%char
  else if (n =? 98)%nat then Some (ascii_of_nat 8)
  else if (n =? 102)%nat then Some (ascii_of_nat 12)
  else if (n =? 110)%nat then Some (ascii_of_nat 10)
  else if (n =? 114)%nat then Some (ascii_of_nat 13)
  else if (n =? 116)%nat then Some (ascii_of_nat 9)
  else None.

Definition cons_lit (c : ascii) (rest : option (string * string))
  : option (string * string) :=
  match rest with
  | Some (body, r) => Some (String c body, r)
  | None => None
  end.

(** The body of a string literal, after its opening quote: the decoded
    text and what follows the closing quote. *)
Fixpoint string_lit (s : string) : option (string * string) :=
  match s with
  | EmptyString => None
  | String c r =>
      if (c =? dquote)%char then Some ("", r)
      else if (c =? "\")%char then
        match r with
        | EmptyString => None
        | String e r1 =>
            if (e =? "u")%char then
              match r1 with
              | String h1 (String h2 (String h3 (String h4 r2))) =>
                  match hex4 h1 h2 h3 h4 with
                  | Some n =>
                      if (n <? 256)%nat
                      then cons_lit (ascii_of_nat n) (string_lit r2)
                      else None
                  | None => None
                  end
              | _ => None
              end
            else match unescape e with
                 | Some c' => cons_lit c' (string_lit r1)
                 | None => None
                 end
        end
      else if (code c <? 32)%nat then None
      else cons_lit c (string_lit r)
  end.

Fixpoint take_digits (acc : Z) (s : string) : Z * string :=
  match s with
  | EmptyString => (acc, s)
  | String c r =>
      if is_digit c
      then take_digits (10 * acc + Z.of_nat (code c - 48)) r
      else (acc, s)
  end.

Definition integer_end (s : string) : bool :=
  match s with
  | EmptyString => true
  | String c _ => negb ((c =? ".")%char || (c =? "e")%char || (c =? "E")%char)
  end.

Definition unsigned_number (s : string) : option (Z * string) :=
  match s with
  | EmptyString => None
  | String c r =>
      let '(n, r') :=
        if (c =? "0")%char then (0%Z, r) else take_digits 0 s in
      if is_digit c && integer_end r' then Some (n, r') else None
  end.

Definition number (s : string) : option (JSValue * string) :=
  match s with
  | String "-" r =>
      match unsigned_number r with
      | Some (n, r') => Some (JNum (- n), r')
      | None => None
      end
  | _ =>
      match unsigned_number s with
      | Some (n, r') => Some (JNum n, r')
      | None => None
      end
  end.

Fixpoint value (fuel : nat) (s : string) : option (JSValue * string) :=
  match fuel with
  | O => None
  | S n =>
      match skip_ws s with
      | String "{" r =>
          match skip_ws r with
          | String "}" r' => Some (JObj [], r')
          | r1 => members n [] r1
          end
      | String "[" r =>
          match skip_ws r with
          | String "]" r' => Some (JArr [], r')
          | r1 => elements n [] r1
          end
      | String "t" (String "r" (String "u" (String "e" r))) =>
          Some (JBool true, r)
      | String "f" (String "a" (String "l" (String "s" (String "e" r)))) =>
          Some (JBool false, r)
      | String "n" (String "u" (String "l" (String "l" r))) =>
          Some (JNull, r)
      | String c r =>
          if (c =? dquote)%char
          then match string_lit r with
               | Some (str, r') => Some (JStr str, r')
               | None => None
               end
          else number (String c r)
      | EmptyString => None
      end
  end
with members (fuel : nat) (acc : list (string * JSValue)) (s : string)
  : option (JSValue * string) :=
  match fuel with
  | O => None
  | S n =>
      match skip_ws s with
      | String c r =>
          if (c =? dquote)%char
          then match string_lit r with
               | Some (k, r1) =>
                   match skip_ws r1 with
                   | String ":" r2 =>
                       match value n r2 with
                       | Some (v, r3) =>
                           let acc' := define_property k v acc in
                           match skip_ws r3 with
                           | String "," r4 => members n acc' r4
                           | String "}" r4 => Some (JObj acc', r4)
                           | _ => None
                           end
                       | None => None
                       end
                   | _ => None
                   end
               | None => None
               end
          else None
      | EmptyString => None
      end
  end
with elements (fuel : nat) (acc : list JSValue) (s : string)
  : option (JSValue * string) :=
  match fuel with
  | O => None
  | S n =>
      match value n s with
      | Some (v, r) =>
          match skip_ws r with
          | String "," r' => elements n (acc ++ [v]) r'
          | String "]" r' => Some (JArr (acc ++ [v]), r')
          | _ => None
          end
      | None => None
      end
  end.

(** [JSON.parse text]: a value, or [SyntaxError]. *)
Definition parse (text : string) : Completion JSValue :=
  match value (2 * String.length text + 2) text with
  | Some (v, r) =>
      match skip_ws r with
      | EmptyString => Normal v
      | _ => Throw SyntaxError
      end
  | None => Throw SyntaxError
  end.

(** Frames are written below with an apostrophe for each double quote. *)
Fixpoint text (s : string) : string :=
  match s with
  | EmptyString => EmptyString
  | String c r => String (if (c =? "'")%char then dquote else c) (text r)
  end.

End JSON.


(* ================================================================== *)
(** ** Message classifier and duplicate filter
    ([WebSocketMessages.js], [socket.onmessage]) *)

Module Classifier.
Import JS.

(** The component's [messages] state and the ref [lastMessageRef], whose
    [current] is [null] until a first message is accepted. *)
Record State : Type := mkState {
  messages : list JSValue;
  lastMessageRef : option string
}.

Definition init : State := {| messages := []; lastMessageRef := None |}.

(** What the handler writes to the console. *)
Inductive Console : Type :=
| LogDuplicate (data : JSValue)
| LogIgnored (data : JSValue)
| ErrorParsing (e : Exn) (event_data : string).

Section Handler.

Variable JSON_parse : string -> Completion JSValue.
Variable JSON_stringify : JSValue -> string.

(** [msgString !== lastMessageRef.current] *)
Definition differs (msgString : string) (last : option string) : bool :=
  match last with
  | None => true
  | Some s => negb (msgString =? s)
  end.

(** [data.topic && data.payload !== undefined]: the payload is read only
    when the topic is truthy. *)
Definition is_iot (data : JSValue) : Completion bool :=
  bind (get data "topic") (fun topic =>
  if truthy topic
  then bind (get data "payload") (fun payload =>
       Normal (match payload with None => false | Some _ => true end))
  else Normal false).

(** The body of the [try] block. *)
Definition onmessage_try (st : State) (event_data : string)
  : Completion (State * list Console) :=
  bind (JSON_parse event_data) (fun data =>
  bind (is_iot data) (fun ok =>
  if ok then
    let msgString := JSON_stringify data in
    if differs msgString (lastMessageRef st)
    then Normal ({| messages := messages st ++ [data];
                    lastMessageRef := Some msgString |}, [])
    else Normal (st, [LogDuplicate data])
  else Normal (st, [LogIgnored data]))).

(** [socket.onmessage]: the new state and the console output. *)
Definition onmessage (st : State) (event_data : string) : State * list Console :=
  try_catch (onmessage_try st event_data)
            (fun e => (st, [ErrorParsing e event_data])).

(** Frames are handled one at a time, in arrival order. *)
Definition receive (st : State) (event_data : string) : State :=
  fst (onmessage st event_data).

Definition run (st : State) (frames : list string) : State :=
  fold_left receive frames st.

(** The state after [data] is accepted. *)
Definition accept (st : State) (data : JSValue) : State :=
  {| messages := messages st ++ [data];
     lastMessageRef := Some (JSON_stringify data) |}.

(** The frame parses to [data], and [data] passes the test
    [data.topic && data.payload !== undefined]: its topic is truthy and its
    payload is any value but [undefined]. *)
Definition iot_frame (event_data : string) (data : JSValue) : Prop :=
  JSON_parse event_data = Normal data /\
  exists topic payload,
    get data "topic" = Normal topic /\ truthy topic = true /\
    get data "payload" = Normal (Some payload).

(** The frame parses to [data], and both fields are present in it, where
    present means that the read is not [undefined]. *)
Definition has_fields (event_data : string) (data : JSValue) : Prop :=
  JSON_parse event_data = Normal data /\
  (exists topic, get data "topic" = Normal (Some topic)) /\
  (exists payload, get data "payload" = Normal (Some payload)).

(** Handling the frame appends an event to the log. *)
Definition appends (st : State) (event_data : string) : Prop :=
  exists data, messages (receive st event_data) = (messages st ++ [data])%list.

End Handler.

End Classifier.

(* ================================================================== *)
(** ** Channel manager
    ([WebSocketMessages.js]: [connect], the socket handlers, the mount
    effect)

    Time is a clock in milliseconds.  The runtime's timer table is part of
    the state: [setTimeout] and [setInterval] hand out identifiers from one
    counter, which are positive and therefore truthy. *)

Module Channel.

Inductive ReadyState : Type := CONNECTING | OPEN | CLOSING | CLOSED.

Definition ready_eqb (a b : ReadyState) : bool :=
  match a, b with
  | CONNECTING, CONNECTING | OPEN, OPEN | CLOSING, CLOSING | CLOSED, CLOSED => true
  | _, _ => false
  end.

(** A [WebSocket] object with the expando property [pingInterval]. *)
Record Socket : Type := mkSocket {
  url : string;
  readyState : ReadyState;
  pingInterval : option positive
}.

(** An armed interval; its callback sends [ping] on [iv_socket] when that
    socket is open. *)
Record Interval : Type := mkInterval {
  iv_id : positive;
  iv_socket : nat;
  iv_period : N
}.

(** A pending timeout; every callback in this component is
    [() => connect()]. *)
Record Timeout : Type := mkTimeout {
  to_id : positive;
  to_deadline : N
}.

Record State : Type := mkState {
  sockets : list Socket;          (* every socket created, by creation index *)
  intervals : list Interval;      (* armed intervals *)
  timeouts : list Timeout;        (* pending timeouts, oldest first *)
  next_timer : positive;
  now : N;
  ws : option nat;                (* the React state [ws] *)
  cleanup : option (option nat);  (* while mounted: the [ws] that the
                                     effect's cleanup closed over *)
  sent : list (nat * string)      (* frames sent: socket, text *)
}.

Definition init : State :=
  {| sockets := []; intervals := []; timeouts := []; next_timer := 1%positive;
     now := 0%N; ws := None; cleanup := None; sent := [] |}.

Definition endpoint : string :=
  "wss://o3ppujthph.execute-api.eu-west-1.amazonaws.com/production".

Definition reconnect_delay : N := 3000.
Definition ping_period : N := 60000.

Definition set_sockets (l : list Socket) (st : State) : State :=
  {| sockets := l; intervals := intervals st; timeouts := timeouts st;
     next_timer := next_timer st; now := now st; ws := ws st;
     cleanup := cleanup st; sent := sent st |}.

Fixpoint update_ready (s : nat) (r : ReadyState) (l : list Socket) : list Socket :=
  match l, s with
  | [], _ => []
  | x :: rest, O =>
      {| url := url x; readyState := r; pingInterval := pingInterval x |} :: rest
  | x :: rest, S s' => x :: update_ready s' r rest
  end.

Definition set_ready (s : nat) (r : ReadyState) (st : State) : State :=
  set_sockets (update_ready s r (sockets st)) st.

Definition clearInterval (id : positive) (st : State) : State :=
  {| sockets := sockets st;
     intervals := filter (fun iv => negb (iv_id iv =? id)%positive) (intervals st);
     timeouts := timeouts st; next_timer := next_timer st; now := now st;
     ws := ws st; cleanup := cleanup st; sent := sent st |}.

(** [setTimeout(() => connect(), delay)] *)
Definition setTimeout_connect (delay : N) (st : State) : State :=
  {| sockets := sockets st; intervals := intervals st;
     timeouts := timeouts st ++ [{| to_id := next_timer st;
                                    to_deadline := (now st + delay)%N |}];
     next_timer := Pos.succ (next_timer st); now := now st; ws := ws st;
     cleanup := cleanup st; sent := sent st |}.

(** [connect()]: a new socket, its handlers, its keep-alive interval, and
    [setWs(socket)].  The interval is armed here, before the socket opens. *)
Definition connect (st : State) : State :=
  let s := List.length (sockets st) in
  let id := next_timer st in
  {| sockets := sockets st ++ [{| url := endpoint; readyState := CONNECTING;
                                  pingInterval := Some id |}];
     intervals := intervals st ++ [{| iv_id := id; iv_socket := s;
                                      iv_period := ping_period |}];
     timeouts := timeouts st;
     next_timer := Pos.succ id; now := now st;
     ws := Some s;
     cleanup := cleanup st; sent := sent st |}.

(** [socket.onopen]: a console line only. *)
Definition onopen (s : nat) (st : State) : State := st.

(** [socket.onclose] *)
Definition onclose (s : nat) (st : State) : State :=
  let st1 :=
    match nth_error (sockets st) s with
    | Some sock =>
        match pingInterval sock with
        | Some id => clearInterval id st
        | None => st
        end
    | None => st
    end in
  setTimeout_connect reconnect_delay st1.

(** [socket.close()]: a socket that is connecting or open starts closing;
    the close event follows later. *)
Definition socket_close (s : nat) (st : State) : State :=
  match nth_error (sockets st) s with
  | Some sock =>
      match readyState sock with
      | CONNECTING | OPEN => set_ready s CLOSING st
      | CLOSING | CLOSED => st
      end
  | None => st
  end.

(** [socket.onerror]: a console line, then [socket.close()]. *)
Definition onerror (s : nat) (st : State) : State := socket_close s st.

(** The callback of the keep-alive interval of socket [s]. *)
Definition ping (s : nat) (st : State) : State :=
  match nth_error (sockets st) s with
  | Some sock =>
      if ready_eqb (readyState sock) OPEN
      then {| sockets := sockets st; intervals := intervals st;
              timeouts := timeouts st; next_timer := next_timer st;
              now := now st; ws := ws st; cleanup := cleanup st;
              sent := sent st ++ [(s, "ping")] |}
      else st
  | None => st
  end.

(** Mounting the component.  Its state [ws] starts as [null]
    ([useState(null)]).  The effect runs after the first render:
    [connect()], and a cleanup that closes over the [ws] of that render.
    The effect's dependency [connect] never changes, so the effect runs once
    and this cleanup is the one kept. *)
Definition mount (st : State) : State :=
  let first_render_ws : option nat := None in
  let captured := first_render_ws in
  let st1 := connect st in
  {| sockets := sockets st1; intervals := intervals st1; timeouts := timeouts st1;
     next_timer := next_timer st1; now := now st1; ws := ws st1;
     cleanup := Some captured; sent := sent st1 |}.

(** Unmounting runs the cleanup: [if (ws) ws.close()] on the captured [ws]. *)
Definition unmount (st : State) : State :=
  match cleanup st with
  | None => st
  | Some captured =>
      let st1 :=
        {| sockets := sockets st; intervals := intervals st;
           timeouts := timeouts st; next_timer := next_timer st; now := now st;
           ws := ws st; cleanup := None; sent := sent st |} in
      match captured with
      | Some s => socket_close s st1
      | None => st1
      end
  end.

(** The clock moves by [dt]; the timeouts that come due run [connect()],
    oldest first. *)
Definition elapse (dt : N) (st : State) : State :=
  let t := (now st + dt)%N in
  let due := filter (fun x => (to_deadline x <=? t)%N) (timeouts st) in
  let st1 :=
    {| sockets := sockets st; intervals := intervals st;
       timeouts := filter (fun x => negb (to_deadline x <=? t)%N) (timeouts st);
       next_timer := next_timer st; now := t; ws := ws st;
       cleanup := cleanup st; sent := sent st |} in
  fold_left (fun acc _ => connect acc) due st1.

(** What can happen to the component.  The platform delivers [open] to a
    connecting socket and [close] once to a socket, which is closed from
    then on; an interval ticks while it is armed. *)
Inductive Event : Type :=
| Mount
| Unmount
| NetOpen (s : nat)
| NetClose (s : nat)
| NetError (s : nat)
| IntervalTick (id : positive)
| Elapse (dt : N).

Definition ready_of (s : nat) (st : State) : option ReadyState :=
  option_map readyState (nth_error (sockets st) s).

Definition step (st : State) (ev : Event) : State :=
  match ev with
  | Mount => mount st
  | Unmount => unmount st
  | NetOpen s =>
      match ready_of s st with
      | Some CONNECTING => onopen s (set_ready s OPEN st)
      | _ => st
      end
  | NetClose s =>
      match ready_of s st with
      | Some CLOSED | None => st
      | Some _ => onclose s (set_ready s CLOSED st)
      end
  | NetError s =>
      match ready_of s st with
      | Some _ => onerror s st
      | None => st
      end
  | IntervalTick id =>
      match find (fun iv => (iv_id iv =? id)%positive) (intervals st) with
      | Some iv => ping (iv_socket iv) st
      | None => st
      end
  | Elapse dt => elapse dt st
  end.

Definition run (st : State) (evs : list Event) : State := fold_left step evs st.

(** One round of the reconnect loop: the current socket closes, the delay
    passes, the socket that [connect] made opens. *)
Definition reconnect_cycle (st : State) : State :=
  match ws st with
  | None => st
  | Some s =>
      let st1 := run st [NetClose s; Elapse reconnect_delay] in
      match ws st1 with
      | Some s' => step st1 (NetOpen s')
      | None => st1
      end
  end.

Fixpoint cycles (n : nat) (st : State) : State :=
  match n with
  | O => st
  | S k => cycles k (reconnect_cycle st)
  end.

(** The state between two rounds: the sockets in [closed], then one open
    socket whose keep-alive interval [id] is the only armed timer. *)
Definition connected (closed : list Socket) (id next : positive) (t : N)
           (c : option (option nat)) (out : list (nat * string)) : State :=
  {| sockets := closed ++ [{| url := endpoint; readyState := OPEN;
                              pingInterval := Some id |}];
     intervals := [{| iv_id := id; iv_socket := List.length closed;
                      iv_period := ping_period |}];
     timeouts := [];
     next_timer := next; now := t;
     ws := Some (List.length closed);
     cleanup := c; sent := out |}.

End Channel.

(* ================================================================== *)
(** ** Presence tracker ([hooks/useDevicePingStatus.js]) *)

Module Presence.
Import JS.

Inductive Status : Type := checking | online | offline.

(** The hook's arguments that [ask] closes over. *)
Record Hook : Type := mkHook {
  apiUrl : string;
  deviceId : string
}.

(** A request handed to [fetch]: a POST whose JSON body is
    [{ deviceId, path, value }]. *)
Record Request : Type := mkRequest {
  req_url : string;
  req_deviceId : string;
  req_path : string;
  req_value : string
}.

(** The hook's state together with the part of the runtime it acts on.
    [timers] holds the pending timeouts; the callback of each is
    [() => setStatus("offline")].  [awaiting] counts the calls of [ask]
    that are suspended at [await fetch(...)]. *)
Record State : Type := mkState {
  status : Status;
  timerRef : option positive;
  timers : list (positive * N);
  next_timer : positive;
  now : N;
  awaiting : nat;
  requests : list Request
}.

Definition init : State :=
  {| status := checking; timerRef := None; timers := [];
     next_timer := 1%positive; now := 0%N; awaiting := 0; requests := [] |}.

Definition timeout_ms : N := 4000.

(** *** Helpers *)

Definition isHi (p : JSRead) : bool :=
  toLowerCase (trim (String_ p)) =? "hi!".

Definition isBye (p : JSRead) : bool :=
  let v := toLowerCase (trim (String_ p)) in
  (v =? "byebye") || (v =? "offline").

Definition setStatus (s : Status) (st : State) : State :=
  {| status := s; timerRef := timerRef st; timers := timers st;
     next_timer := next_timer st; now := now st; awaiting := awaiting st;
     requests := requests st |}.

Definition clearTimeout (id : positive) (st : State) : State :=
  {| status := status st; timerRef := timerRef st;
     timers := filter (fun t => negb (fst t =? id)%positive) (timers st);
     next_timer := next_timer st; now := now st; awaiting := awaiting st;
     requests := requests st |}.

(** [if (timerRef.current) clearTimeout(timerRef.current)]; the ref keeps
    the identifier afterwards. *)
Definition clear_current (st : State) : State :=
  match timerRef st with
  | Some id => clearTimeout id st
  | None => st
  end.

(** *** [ask]

    The function is [async]: it runs up to [await fetch(...)], and resumes
    when the request settles.  Other events are handled in between. *)

Definition ask_start (h : Hook) (st : State) : State :=
  let st1 := clear_current (setStatus checking st) in
  {| status := status st1; timerRef := timerRef st1; timers := timers st1;
     next_timer := next_timer st1; now := now st1;
     awaiting := S (awaiting st1);
     requests := requests st1 ++ [{| req_url := apiUrl h;
                                      req_deviceId := deviceId h;
                                      req_path := "askInfo";
                                      req_value := "hi" |}] |}.

(** The rest of [ask], after the [try] block: whether the request resolved
    or was rejected (the [catch] writes a console line),
    [timerRef.current = setTimeout(() => setStatus("offline"), 4000)].
    Nothing resumes when no call is suspended. *)
Definition ask_resume (st : State) : State :=
  match awaiting st with
  | O => st
  | S n =>
      let id := next_timer st in
      {| status := status st; timerRef := Some id;
         timers := timers st ++ [(id, (now st + timeout_ms)%N)];
         next_timer := Pos.succ id; now := now st; awaiting := n;
         requests := requests st |}
  end.

(** *** [handleMessage] *)

Section Handler.

Variable JSON_parse : string -> Completion JSValue.

Definition handleMessage_try (st : State) (event_data : string)
  : Completion State :=
  bind (JSON_parse event_data) (fun data =>
  let topic := get_opt data "topic" in
  let payload := get_opt data "payload" in
  (* 1) answer to the initial ping *)
  if strict_eq_string topic "mod_1x1/d_000/answerInfo" && isHi payload
  then Normal (clear_current (setStatus online st))
  else
    (* 2) signals on the will topic *)
    let after_will :=
      if strict_eq_string topic "mod_1x1/d_000/will" then
        if isHi payload then Some (clear_current (setStatus online st))
        else if isBye payload then Some (clear_current (setStatus offline st))
        else None
      else None in
    match after_will with
    | Some st' => Normal st'
    | None =>
        (* a later last-will on .../status *)
        if strict_eq_string topic "mod_1x1/d_000/status" && isBye payload
        then Normal (clear_current (setStatus offline st))
        else Normal st
    end).

Definition handleMessage (st : State) (event_data : string) : State :=
  try_catch (handleMessage_try st event_data) (fun _ => st).

(** *** Timers and events *)

(** The clock moves by [dt]; each timeout that comes due runs its callback
    and is gone. *)
Definition elapse (dt : N) (st : State) : State :=
  let t := (now st + dt)%N in
  let due := filter (fun x => (snd x <=? t)%N) (timers st) in
  let st1 :=
    {| status := status st; timerRef := timerRef st;
       timers := filter (fun x => negb (snd x <=? t)%N) (timers st);
       next_timer := next_timer st; now := t; awaiting := awaiting st;
       requests := requests st |} in
  fold_left (fun acc _ => setStatus offline acc) due st1.

Inductive Event : Type :=
| Ask                          (* [ask()] is called: the button, or the open socket *)
| FetchSettled                 (* a pending request resolves or is rejected *)
| Message (event_data : string)
| Elapse (dt : N).

Definition step (h : Hook) (st : State) (ev : Event) : State :=
  match ev with
  | Ask => ask_start h st
  | FetchSettled => ask_resume st
  | Message d => handleMessage st d
  | Elapse dt => elapse dt st
  end.

Definition run (h : Hook) (st : State) (evs : list Event) : State :=
  fold_left (step h) evs st.

End Handler.

(** *** Requests that settle at once

    When every request settles before another event is handled, the
    discipline holds: no request is in flight between events, at most one
    timeout is pending, [timerRef] names it, and the status is [checking]
    while it is pending. *)

Inductive prompt : list Event -> Prop :=
| prompt_nil : prompt []
| prompt_ask evs : prompt evs -> prompt (Ask :: FetchSettled :: evs)
| prompt_message f evs : prompt evs -> prompt (Message f :: evs)
| prompt_elapse dt evs : prompt evs -> prompt (Elapse dt :: evs).

Definition disciplined (st : State) : Prop :=
  awaiting st = 0 /\
  (timers st = [] \/
   exists id d, timers st = [(id, d)] /\ timerRef st = Some id /\
                status st = checking).

(** *** The topics as the naming convention builds them *)

Definition topic_of (model device sub : string) : string :=
  model ++ "/" ++ device ++ "/" ++ sub.

(** The normal form of a payload: converted to a string, trimmed,
    case-folded. *)
Definition normalize (p : JSRead) : string := toLowerCase (trim (String_ p)).

End Presence.

(* ================================================================== *)
(** ** Concrete inputs

    Frames as they arrive on the socket, with the values they parse to, and
    the two hooks the runs below use. *)

Module Samples.
Import JS Presence.

Definition frame_hi : string :=
  JSON.text "{'topic':'mod_1x1/d_000/will','payload':'hi!'}".
Definition data_hi : JSValue :=
  JObj [("topic", JStr "mod_1x1/d_000/will"); ("payload", JStr "hi!")].

Definition frame_zero : string :=
  JSON.text "{'topic':'mod_1x1/d_000/k1','payload':0}".
Definition data_zero : JSValue :=
  JObj [("topic", JStr "mod_1x1/d_000/k1"); ("payload", JNum 0)].

Definition frame_empty_topic : string :=
  JSON.text "{'topic':'','payload':'x'}".
Definition data_empty_topic : JSValue :=
  JObj [("topic", JStr ""); ("payload", JStr "x")].

Definition frame_no_topic : string := JSON.text "{'payload':'hi!'}".
Definition frame_no_payload : string := JSON.text "{'topic':'mod_1x1/d_000/will'}".
Definition frame_not_json : string := "pong".
Definition frame_null : string := "null".

Definition hook_d000 : Hook :=
  {| apiUrl := "https://kl7d93xve4.execute-api.eu-west-1.amazonaws.com/dev/";
     deviceId := "d_000" |}.

Definition hook_d001 : Hook :=
  {| apiUrl := "https://kl7d93xve4.execute-api.eu-west-1.amazonaws.com/dev/";
     deviceId := "d_001" |}.

Definition event_on (topic payload : string) : string :=
  JSON.text ("{'topic':'" ++ topic ++ "','payload':'" ++ payload ++ "'}").

Definition answer_hi : string := event_on "mod_1x1/d_000/answerInfo" "hi!".
Definition will_hi : string := event_on "mod_1x1/d_000/will" "hi!".

End Samples.

(* ================================================================== *)
(** ** The plain viewer ([WebSocketViewer], the second component)

    It keeps every frame that parses, with no test of its shape and no
    duplicate filter. *)

Module Viewer.
Import JS.

Inductive Console : Type :=
| LogReceived (data : JSValue)
| ErrorParsing (e : Exn).

Section Handler.

Variable JSON_parse : string -> Completion JSValue.

(** [ws.onmessage]: the new [messages] and the console output. *)
Definition onmessage (messages : list JSValue) (event_data : string)
  : list JSValue * list Console :=
  try_catch
    (bind (JSON_parse event_data) (fun data =>
     Normal ((messages ++ [data])%list, [LogReceived data])))
    (fun e => (messages, [ErrorParsing e])).

Definition receive (messages : list JSValue) (event_data : string)
  : list JSValue :=
  fst (onmessage messages event_data).

Definition run (messages : list JSValue) (frames : list string)
  : list JSValue :=
  fold_left receive frames messages.

End Handler.

End Viewer.

(* ================================================================== *)
(** ** What the message list shows ([WebSocketMessages.js], the render) *)

Module Render.
Import JS.



(** The serialized forms of a log, oldest first. *)
Fixpoint adjacent_distinct (forms : list string) : Prop :=
  match forms with
  | a :: (b :: _) as rest => a <> b /\ adjacent_distinct rest
  | _ => True
  end.

(** The slot of the duplicate filter holds the serialized form of the
    newest entry of the log, and nothing while the log is empty. *)
Definition slot_is_newest (JSON_stringify : JSValue -> string)
           (st : Classifier.State) : Prop :=
  match Classifier.messages st with
  | [] => Classifier.lastMessageRef st = None
  | m :: l => Classifier.lastMessageRef st = Some (JSON_stringify (last l m))
  end.

(** [small] is [big] with some entries left out. *)
Inductive subsequence {A : Type} : list A -> list A -> Prop :=
| subsequence_nil : subsequence [] []
| subsequence_skip x small big :
    subsequence small big -> subsequence small (x :: big)
| subsequence_keep x small big :
    subsequence small big -> subsequence (x :: small) (x :: big).

End Render.

(* ================================================================== *)
(** ** Reading the channel manager's state *)

Module ChannelView.
Import Channel.

(** A socket that has not delivered its close event. *)
Definition live (sock : Socket) : bool :=
  negb (ready_eqb (readyState sock) CLOSED).

Definition count_live (l : list Socket) : nat :=
  List.length (filter live l).

Fixpoint count_mounts (evs : list Event) : nat :=
  match evs with
  | [] => 0
  | Mount :: r => S (count_mounts r)
  | _ :: r => count_mounts r
  end.

(** The keep-alive intervals of the live sockets of [l], whose first socket
    has index [base]. *)
Fixpoint keepalives (base : nat) (l : list Socket) : list Interval :=
  match l with
  | [] => []
  | sock :: r =>
      match pingInterval sock with
      | Some id =>
          if live sock
          then {| iv_id := id; iv_socket := base; iv_period := ping_period |}
               :: keepalives (S base) r
          else keepalives (S base) r
      | None => keepalives (S base) r
      end
  end.

(** The armed intervals are the keep-alive intervals of the live sockets;
    every socket has an interval identifier, all different and all handed
    out already. *)
Definition keepalive_exact (st : State) : Prop :=
  intervals st = keepalives 0 (sockets st)
  /\ Forall (fun sock => exists id, pingInterval sock = Some id
                                    /\ (id < next_timer st)%positive)
            (sockets st)
  /\ NoDup (map pingInterval (sockets st)).

End ChannelView.

(* ================================================================== *)
(** ** Reading the presence tracker's runs *)

Module PresenceView.
Import JS Presence.

Fixpoint count_asks (evs : list Event) : nat :=
  match evs with
  | [] => 0
  | Ask :: r => S (count_asks r)
  | _ :: r => count_asks r
  end.

(** The request [ask] sends for a hook. *)
Definition liveness_request (h : Hook) : Request :=
  {| req_url := apiUrl h; req_deviceId := deviceId h;
     req_path := "askInfo"; req_value := "hi" |}.

Definition is_settle (ev : Event) : bool :=
  match ev with FetchSettled => true | _ => false end.

Definition is_message (ev : Event) : bool :=
  match ev with Message _ => true | _ => false end.

End PresenceView.

(* ================================================================== *)
(** ** The relay timeline ([App_borrar.js]: [updateIntervals],
    [buildTimelineData])

    Times are epoch milliseconds, read from [Date.now()] by the caller of
    these definitions and passed in as [now]. *)

Module Timeline.
Local Open Scope list_scope.

(** [{ relay, start, end }]; [end] is [null] while the interval is open. *)
Record RelayInterval : Type := mkInterval {
  relay : string;
  start : Z;
  end_ : option Z
}.

(** [it.relay === relay && it.end === null] *)
Definition is_open_for (r : string) (it : RelayInterval) : bool :=
  (relay it =? r)%string
  && match end_ it with None => true | Some _ => false end.

(** The position of the object [Array.prototype.find] returns.  The arrays
    of this component hold no object twice, so the test [it === open] in the
    [map] below holds at this position and nowhere else. *)
Fixpoint find_index {A : Type} (p : A -> bool) (l : list A) : option nat :=
  match l with
  | [] => None
  | x :: r => if p x then Some 0 else option_map S (find_index p r)
  end.

(** [curr.map(it => it === open ? { ...it, end: now } : it)], with [open] at
    position [i]. *)
Fixpoint close_at (i : nat) (now : Z) (l : list RelayInterval)
  : list RelayInterval :=
  match l, i with
  | [], _ => []
  | it :: r, O => {| relay := relay it; start := start it; end_ := Some now |} :: r
  | it :: r, S j => it :: close_at j now r
  end.

Definition updateIntervals (curr : list RelayInterval) (r : string)
           (turnedOn : bool) (now : Z) : list RelayInterval :=
  let open := find_index (is_open_for r) curr in
  if turnedOn then
    match open with
    | Some _ => curr
    | None => {| relay := r; start := now; end_ := None |} :: curr
    end
  else
    match open with
    | None => curr
    | Some i => close_at i now curr
    end.

(** The number of open intervals of a relay. *)
Definition open_count (r : string) (l : list RelayInterval) : nat :=
  List.length (filter (is_open_for r) l).

(** The timeline after a series of reports [(relay, turnedOn, now)], from
    the empty timeline. *)
Definition replay (reports : list (string * bool * Z)) : list RelayInterval :=
  fold_left (fun curr '(r, on, now) => updateIntervals curr r on now) reports [].

(** *** Rows for the chart *)

(** A row [{ time, k1, k2, k3, k4 }]. *)
Record Row : Type := mkRow {
  time : Z;
  cells : list (string * Z)
}.

Definition chart_relays : list string := ["k1"; "k2"; "k3"; "k4"]%string.

(** [times.push(iv.start); if (iv.end) times.push(iv.end)]: an end that is
    [null] or [0] is falsy. *)
Definition interval_times (iv : RelayInterval) : list Z :=
  start iv :: match end_ iv with
              | Some e => if (e =? 0)%Z then [] else [e]
              | None => []
              end.

Definition sample_times (intervals : list RelayInterval) : list Z :=
  flat_map interval_times intervals.

(** [times.sort((a, b) => a - b)]: the numbers in ascending order. *)
Fixpoint insert_number (x : Z) (l : list Z) : list Z :=
  match l with
  | [] => [x]
  | y :: r => if (x <=? y)%Z then x :: l else y :: insert_number x r
  end.

Fixpoint sort_numbers (l : list Z) : list Z :=
  match l with
  | [] => []
  | x :: r => insert_number x (sort_numbers r)
  end.

(** [iv.relay === r && iv.start <= t && (iv.end === null || iv.end >= t)] *)
Definition covers (r : string) (t : Z) (iv : RelayInterval) : bool :=
  (relay iv =? r)%string && (start iv <=? t)%Z
  && match end_ iv with
     | None => true
     | Some e => (t <=? e)%Z
     end.

Definition row_at (intervals : list RelayInterval) (t : Z) : Row :=
  {| time := t;
     cells := map (fun r => (r, if existsb (covers r t) intervals
                                then 1%Z else 0%Z)) chart_relays |}.

Definition buildTimelineData (intervals : list RelayInterval) (now : Z)
  : list Row :=
  let times := sample_times intervals in
  match times with
  | [] => []
  | _ :: _ => map (row_at intervals) (sort_numbers times ++ [now])
  end.

(** What identifies an interval in the history: its relay and its start. *)
Definition interval_key (it : RelayInterval) : string * Z := (relay it, start it).

End Timeline.

(* ================================================================== *)
(** ** The relay panel ([App_borrar.js], [IoTDashboard]): the subscription
    callbacks and the heartbeat watchdog *)

Module Panel.
Import JS Timeline.
Local Open Scope list_scope.

(** *** Text tests *)

Fixpoint starts_with (sub s : string) : bool :=
  match sub, s with
  | EmptyString, _ => true
  | String c sub', String d s' => (c =? d)%char && starts_with sub' s'
  | String _ _, EmptyString => false
  end.

(** [s.includes(sub)] *)
Fixpoint includes (s sub : string) : bool :=
  starts_with sub s
  || match s with
     | EmptyString => false
     | String _ r => includes r sub
     end.

(** [/on|1|true/i.test(p)]: one of the three texts occurs somewhere in [p],
    letter case ignored. *)
Definition on_test (p : string) : bool :=
  let q := toLowerCase p in
  includes q "on" || includes q "1" || includes q "true".

(** [p.toLowerCase().includes("offline")] *)
Definition lwt_test (p : string) : bool :=
  includes (toLowerCase p) "offline".

(** *** Objects used as maps: [{ ...prev, [key]: value }]

    The key keeps its place when it is there already; otherwise it is added
    where the enumeration order puts it. *)

Fixpoint has_key {V : Type} (k : string) (m : list (string * V)) : bool :=
  match m with
  | [] => false
  | (k', _) :: r => (k' =? k)%string || has_key k r
  end.

Fixpoint replace_key {V : Type} (k : string) (v : V) (m : list (string * V))
  : list (string * V) :=
  match m with
  | [] => []
  | (k', v') :: r =>
      if (k' =? k)%string then (k', v) :: r else (k', v') :: replace_key k v r
  end.

Fixpoint insert_key {V : Type} (k : string) (v : V) (m : list (string * V))
  : list (string * V) :=
  match m with
  | [] => [(k, v)]
  | (k', v') :: r =>
      if JSON.key_before k k' then (k, v) :: m else (k', v') :: insert_key k v r
  end.

Definition set_key {V : Type} (k : string) (v : V) (m : list (string * V))
  : list (string * V) :=
  if has_key k m then replace_key k v m else insert_key k v m.

(** [m[k]]; [None] is [undefined]. *)
Fixpoint get_key {V : Type} (k : string) (m : list (string * V)) : option V :=
  match m with
  | [] => None
  | (k', v) :: r => if (k' =? k)%string then Some v else get_key k r
  end.

(** [!!m[k]] for a map of booleans. *)
Definition flag (k : string) (m : list (string * bool)) : bool :=
  match get_key k m with
  | Some b => b
  | None => false
  end.

(** *** State *)

(** [online: boolean | "unknown"] *)
Inductive Online : Type := Known (b : bool) | Unknown.

Record RelayState : Type := mkRelayState {
  online : Online;
  lastHeartbeat : option Z;
  rx : list (string * bool);
  status : list (string * bool);
  names : list (string * string)
}.

Record ActionLogEntry : Type := mkEntry {
  ts : Z;
  entry_device : string;
  entry_relay : string;
  action : string;
  note : option string
}.

(** The three pieces of component state the callbacks write. *)
Record Panel : Type := mkPanel {
  state : RelayState;
  intervals : list RelayInterval;
  log : list ActionLogEntry
}.

Definition initial : Panel :=
  {| state := {| online := Unknown; lastHeartbeat := None; rx := [];
                 status := []; names := [] |};
     intervals := []; log := [] |}.

Definition set_online (o : Online) (s : RelayState) : RelayState :=
  {| online := o; lastHeartbeat := lastHeartbeat s; rx := rx s;
     status := status s; names := names s |}.

(** *** The callbacks *)

Section Callbacks.

(** [Number(p)] as the runtime computes it: an integer, or [None] for
    [NaN]. *)
Variable Number_ : string -> option Z.

(** The select's device, whose identifier goes into the log. *)
Variable device : string.

(** Heartbeat: [const now = Number(p) || Date.now()], then
    [{ ...prev, online: true, lastHeartbeat: now }]. *)
Definition on_heartbeat (p : string) (date_now : Z) (pn : Panel) : Panel :=
  let now := match Number_ p with
             | Some n => if (n =? 0)%Z then date_now else n
             | None => date_now
             end in
  {| state := {| online := Known true; lastHeartbeat := Some now;
                 rx := rx (state pn); status := status (state pn);
                 names := names (state pn) |};
     intervals := intervals pn; log := log pn |}.

(** Last will: [if (p.toLowerCase().includes("offline")) ... online: false]. *)
Definition on_lwt (p : string) (pn : Panel) : Panel :=
  if lwt_test p
  then {| state := set_online (Known false) (state pn);
          intervals := intervals pn; log := log pn |}
  else pn.

(** A relay's status topic.  The two updaters read the clock on their own:
    [t_log] for the log entry, [t_iv] for the timeline. *)
Definition on_status (key p : string) (t_log t_iv : Z) (pn : Panel) : Panel :=
  let on := on_test p in
  {| state := {| online := online (state pn);
                 lastHeartbeat := lastHeartbeat (state pn);
                 rx := rx (state pn);
                 status := set_key key on (status (state pn));
                 names := names (state pn) |};
     intervals := updateIntervals (intervals pn) key on t_iv;
     log := {| ts := t_log; entry_device := device; entry_relay := key;
               action := "status"; note := None |} :: log pn |}.

(** A relay's feedback topic. *)
Definition on_feedback (key p : string) (t_log : Z) (pn : Panel) : Panel :=
  let on := on_test p in
  {| state := {| online := online (state pn);
                 lastHeartbeat := lastHeartbeat (state pn);
                 rx := set_key key on (rx (state pn));
                 status := status (state pn);
                 names := names (state pn) |};
     intervals := intervals pn;
     log := {| ts := t_log; entry_device := device; entry_relay := key;
               action := "feedback"; note := None |} :: log pn |}.

(** The watchdog's updater, run every 5000 ms:
    [if (!prev.lastHeartbeat) return prev;
     const tooOld = Date.now() - prev.lastHeartbeat > ms(35);
     if (tooOld && prev.online !== false) return { ...prev, online: false };
     return prev]. *)
Definition watchdog_state (date_now : Z) (prev : RelayState) : RelayState :=
  match lastHeartbeat prev with
  | None => prev
  | Some hb =>
      if (hb =? 0)%Z then prev
      else
        let tooOld := (35 * 1000 <? date_now - hb)%Z in
        let not_false := match online prev with
                         | Known false => false
                         | _ => true
                         end in
        if tooOld && not_false then set_online (Known false) prev else prev
  end.

Definition watchdog (date_now : Z) (pn : Panel) : Panel :=
  {| state := watchdog_state date_now (state pn);
     intervals := intervals pn; log := log pn |}.

Definition watchdog_period : Z := 5000.

Inductive Event : Type :=
| Heartbeat (p : string) (date_now : Z)
| LastWill (p : string)
| Status (key p : string) (t_log t_iv : Z)
| Feedback (key p : string) (t_log : Z)
| WatchdogTick (date_now : Z).

Definition step (pn : Panel) (ev : Event) : Panel :=
  match ev with
  | Heartbeat p t => on_heartbeat p t pn
  | LastWill p => on_lwt p pn
  | Status k p t1 t2 => on_status k p t1 t2 pn
  | Feedback k p t => on_feedback k p t pn
  | WatchdogTick t => watchdog t pn
  end.

Definition run (pn : Panel) (evs : list Event) : Panel := fold_left step evs pn.

(** The watchdog's ticks number [1] to [n] after [t0], one period apart. *)
Fixpoint ticks (t0 : Z) (n : nat) (s : RelayState) : RelayState :=
  match n with
  | O => s
  | S k => watchdog_state (t0 + watchdog_period * Z.of_nat n)
                          (ticks t0 k s)
  end.

End Callbacks.

Definition is_heartbeat (ev : Event) : bool :=
  match ev with Heartbeat _ _ => true | _ => false end.

(** The switch of each relay agrees with the timeline. *)
Definition agrees (pn : Panel) : Prop :=
  forall key,
    open_count key (intervals pn) <= 1
    /\ flag key (status (state pn)) = (open_count key (intervals pn) =? 1)%nat.

End Panel.

(* ================================================================== *)
(** ** The development MQTT client ([App_borrar.js]: [MockMqttClient],
    [getUserDevices]) *)

Module Mqtt.
Import JS.
Local Open Scope list_scope.

(** *** Topics *)

(** [topic.endsWith(suffix)] *)
Fixpoint endsWith (s suffix : string) : bool :=
  (s =? suffix)%string
  || match s with
     | EmptyString => false
     | String _ r => endsWith r suffix
     end.

(** [topic.replace(/<suffix>$/, replacement)] for a suffix of plain
    characters: the match, if any, is the end of the topic. *)
Fixpoint replace_suffix (s suffix replacement : string) : string :=
  if (s =? suffix)%string then replacement
  else match s with
       | EmptyString => EmptyString
       | String c r => String c (replace_suffix r suffix replacement)
       end.

(** The relay entries of [getUserDevices]: [[1,2,3,4].map(i => ...)]. *)
Record RelayConfig : Type := mkRelay {
  key : string;
  statusTopic : string;
  feedbackTopic : string;
  cmdTopic : string
}.

Definition relay_config (i : Z) : RelayConfig :=
  let n := num_to_string i in
  {| key := ("k" ++ n)%string;
     statusTopic := ("mod_1x1/d_000/k" ++ n ++ "/status")%string;
     feedbackTopic := ("mod_1x1/d_000/k" ++ n ++ "/feedback")%string;
     cmdTopic := ("mod_1x1/d_000/k" ++ n ++ "/cmd")%string |}.

Definition device_relays : list RelayConfig := map relay_config [1; 2; 3; 4]%Z.

Definition heartbeatTopic : string := "mod_1x1/d_000/hb".
Definition lwtTopic : string := "mod_1x1/d_000/lwt".

(** *** What a publication echoes, 300 ms later *)

Definition program_list : string :=
  JSON.stringify
    (JArr [JObj [("id", JStr "p1"); ("code", JStr "rl:07_00_30m");
                 ("desc", JStr "Riego lunes 7:00-7:30")]])%string.

(** The body of the timeout in [publish]: four tests in a row, each with
    its emissions. *)
Definition echo (topic payload : string) : list (string * string) :=
  (if endsWith topic "/cmd"
   then let base := replace_suffix topic "/cmd" "" in
        [((base ++ "/feedback")%string, payload);
         ((base ++ "/status")%string, payload)]
   else [])
  ++ (if endsWith topic "/programs/get"
      then [(replace_suffix topic "get" "list", program_list)]
      else [])
  ++ (if endsWith topic "/programs/set"
      then [(replace_suffix topic "set" "ack", payload)]
      else [])
  ++ (if endsWith topic "/programs/del"
      then [(replace_suffix topic "del" "ack", payload)]
      else []).

(** *** The client

    Callbacks are closures; [H] names them.  [subs] is the [Map] from topic
    to callback, in insertion order. *)

Section Client.

Variable H : Type.

Record World : Type := mkWorld {
  subs : list (string * H);
  interval : option positive;            (* [this.interval] *)
  armed : list positive;                 (* intervals armed in the runtime *)
  pending : list (N * string * string);  (* echo timeouts: deadline, topic, payload *)
  next_timer : positive;
  now : N;                               (* [Date.now()] *)
  calls : list (H * string * string)     (* callbacks run: callback, topic, payload *)
}.

Definition start : World :=
  {| subs := []; interval := None; armed := []; pending := [];
     next_timer := 1%positive; now := 0%N; calls := [] |}.

(** [Map.prototype.set] *)
Fixpoint map_set (k : string) (v : H) (m : list (string * H)) : list (string * H) :=
  match m with
  | [] => [(k, v)]
  | (k', v') :: r =>
      if (k' =? k)%string then (k', v) :: r else (k', v') :: map_set k v r
  end.

(** [Map.prototype.delete] *)
Definition map_delete (k : string) (m : list (string * H)) : list (string * H) :=
  filter (fun e => negb (fst e =? k)%string) m.

(** [emit]: [this.subs.forEach((cb, t) => { if (t === topic) cb(topic, payload) })] *)
Definition emit (topic payload : string) (w : World) : World :=
  {| subs := subs w; interval := interval w; armed := armed w;
     pending := pending w; next_timer := next_timer w; now := now w;
     calls := calls w
              ++ flat_map (fun e => if (fst e =? topic)%string
                                    then [(snd e, topic, payload)] else [])
                          (subs w) |}.

Definition connect (w : World) : World :=
  {| subs := subs w; interval := Some (next_timer w);
     armed := armed w ++ [next_timer w];
     pending := pending w; next_timer := Pos.succ (next_timer w);
     now := now w; calls := calls w |}.

(** [if (this.interval) window.clearInterval(this.interval); this.subs.clear()] *)
Definition disconnect (w : World) : World :=
  {| subs := []; interval := interval w;
     armed := match interval w with
              | Some id => filter (fun x => negb (x =? id)%positive) (armed w)
              | None => armed w
              end;
     pending := pending w; next_timer := next_timer w; now := now w;
     calls := calls w |}.

(** [publish]: [setTimeout(() => { ... }, 300)] *)
Definition publish (topic payload : string) (w : World) : World :=
  {| subs := subs w; interval := interval w; armed := armed w;
     pending := pending w ++ [((now w + 300)%N, topic, payload)];
     next_timer := Pos.succ (next_timer w); now := now w; calls := calls w |}.

Definition subscribe (topic : string) (cb : H) (w : World) : World :=
  {| subs := map_set topic cb (subs w); interval := interval w;
     armed := armed w; pending := pending w; next_timer := next_timer w;
     now := now w; calls := calls w |}.

Definition unsubscribe (topic : string) (w : World) : World :=
  {| subs := map_delete topic (subs w); interval := interval w;
     armed := armed w; pending := pending w; next_timer := next_timer w;
     now := now w; calls := calls w |}.

Definition emit_all (out : list (string * string)) (w : World) : World :=
  fold_left (fun acc e => emit (fst e) (snd e) acc) out w.

(** The clock moves by [dt]; the echo timeouts that come due run, oldest
    first, against the subscriptions of that moment. *)
Definition elapse (dt : N) (w : World) : World :=
  let t := (now w + dt)%N in
  let due := filter (fun x => (fst (fst x) <=? t)%N) (pending w) in
  let w1 :=
    {| subs := subs w; interval := interval w; armed := armed w;
       pending := filter (fun x => negb (fst (fst x) <=? t)%N) (pending w);
       next_timer := next_timer w; now := t; calls := calls w |} in
  fold_left (fun acc x => emit_all (echo (snd (fst x)) (snd x)) acc) due w1.

(** A tick of a heartbeat interval: [this.emit(t, String(Date.now()))]. *)
Definition heartbeat_tick (id : positive) (w : World) : World :=
  if existsb (fun x => (x =? id)%positive) (armed w)
  then emit heartbeatTopic (num_to_string (Z.of_N (now w))) w
  else w.

Inductive Op : Type :=
| Connect
| Disconnect
| Publish (topic payload : string)
| Subscribe (topic : string) (cb : H)
| Unsubscribe (topic : string)
| Elapse (dt : N)
| HeartbeatTick (id : positive).

Definition step (w : World) (op : Op) : World :=
  match op with
  | Connect => connect w
  | Disconnect => disconnect w
  | Publish t p => publish t p w
  | Subscribe t cb => subscribe t cb w
  | Unsubscribe t => unsubscribe t w
  | Elapse dt => elapse dt w
  | HeartbeatTick id => heartbeat_tick id w
  end.

Definition run (w : World) (ops : list Op) : World := fold_left step ops w.

(** The callbacks a message on [topic] reaches, in the order of the map. *)
Definition matching (topic payload : string) (m : list (string * H))
  : list (H * string * string) :=
  flat_map (fun e => if (fst e =? topic)%string
                     then [(snd e, topic, payload)] else []) m.

End Client.

(** The callbacks the panel registers, and the subscriptions its effect
    makes once connected: heartbeat, last will, then status and feedback of
    each relay. *)
Inductive Callback : Type :=
| OnHeartbeat
| OnLastWill
| OnStatus (key : string)
| OnFeedback (key : string).

Definition panel_subscriptions : list (Op Callback) :=
  Subscribe Callback heartbeatTopic OnHeartbeat
  :: Subscribe Callback lwtTopic OnLastWill
  :: flat_map (fun r => [Subscribe Callback (statusTopic r) (OnStatus (key r));
                         Subscribe Callback (feedbackTopic r) (OnFeedback (key r))])
              device_relays.

(** Running a callback on the panel: the callback reads the clock at [t]. *)
Definition deliver (t : Z) (call : Callback * string * string) : Panel.Event :=
  let payload := snd call in
  match fst (fst call) with
  | OnHeartbeat => Panel.Heartbeat payload t
  | OnLastWill => Panel.LastWill payload
  | OnStatus k => Panel.Status k payload t t
  | OnFeedback k => Panel.Feedback k payload t
  end.

(** The development setup: the client connected and the panel's
    subscriptions made. *)
Definition subscribed_panel : World Callback :=
  run Callback (start Callback) (Connect Callback :: panel_subscriptions).

End Mqtt.

(* ================================================================== *)
(** ** The inactivity timer and a class-name helper ([App_borrar.js]) *)

Module Idle.
Local Open Scope list_scope.

(** [const ms = (s) => s * 1000] *)
Definition ms (s : N) : N := (s * 1000)%N.

Definition idle_delay : N := ms (15 * 60).

(** The effect's local [timer], the runtime's pending timeouts, the clock,
    whether the four window listeners are attached, and how often the
    inactivity callback (disconnect, deselect, toast) has run. *)
Record State : Type := mkState {
  timer : option positive;
  pending : list (positive * N);
  next_timer : positive;
  now : N;
  listening : bool;
  expired : nat
}.

Definition init : State :=
  {| timer := None; pending := []; next_timer := 1%positive; now := 0%N;
     listening := false; expired := 0 |}.

(** [bump]: [if (timer) window.clearTimeout(timer);
    timer = window.setTimeout(..., ms(15*60))]. *)
Definition bump (st : State) : State :=
  let cleared :=
    match timer st with
    | Some id => filter (fun t => negb (fst t =? id)%positive) (pending st)
    | None => pending st
    end in
  {| timer := Some (next_timer st);
     pending := cleared ++ [(next_timer st, (now st + idle_delay)%N)];
     next_timer := Pos.succ (next_timer st); now := now st;
     listening := listening st; expired := expired st |}.

(** The effect: attach the listeners, then [bump()]. *)
Definition effect (st : State) : State :=
  bump {| timer := None; pending := pending st; next_timer := next_timer st;
          now := now st; listening := true; expired := expired st |}.

(** The cleanup: [if (timer) window.clearTimeout(timer)], and the listeners
    are removed. *)
Definition cleanup (st : State) : State :=
  {| timer := timer st;
     pending := match timer st with
                | Some id => filter (fun t => negb (fst t =? id)%positive) (pending st)
                | None => pending st
                end;
     next_timer := next_timer st; now := now st;
     listening := false; expired := expired st |}.

(** A click, key, mouse move or touch. *)
Definition activity (st : State) : State :=
  if listening st then bump st else st.

Definition elapse (dt : N) (st : State) : State :=
  let t := (now st + dt)%N in
  let due := filter (fun x => (snd x <=? t)%N) (pending st) in
  {| timer := timer st;
     pending := filter (fun x => negb (snd x <=? t)%N) (pending st);
     next_timer := next_timer st; now := t; listening := listening st;
     expired := expired st + List.length due |}.

Inductive Event : Type :=
| Activity
| Elapse (dt : N).

Definition step (st : State) (ev : Event) : State :=
  match ev with
  | Activity => activity st
  | Elapse dt => elapse dt st
  end.

Definition run (st : State) (evs : list Event) : State := fold_left step evs st.

(** At most one timeout is pending, and [timer] names it. *)
Definition one_pending (st : State) : Prop :=
  pending st = []
  \/ exists id d, pending st = [(id, d)] /\ timer st = Some id.

End Idle.

Module ClassNames.
Import JS.
Local Open Scope list_scope.

(** An argument of [clsx]: [string | false | undefined]. *)
Inductive Arg : Type :=
| Text (s : string)
| False_
| Undefined_.

(** [Boolean(x)] *)
Definition to_boolean (x : Arg) : bool :=
  match x with
  | Text s => negb (s =? "")%string
  | False_ | Undefined_ => false
  end.

Definition text_of (x : Arg) : string :=
  match x with
  | Text s => s
  | False_ => "false"
  | Undefined_ => ""
  end.

(** [xs.filter(Boolean).join(" ")] *)
Definition clsx (xs : list Arg) : string :=
  join_with " " (map text_of (filter to_boolean xs)).

(** Two class lists put together. *)
Definition glue (a b : string) : string :=
  if (a =? "")%string then b
  else if (b =? "")%string then a
  else (a ++ " " ++ b)%string.

End ClassNames.

(* ================================================================== *)
(** ** The presence hook's effect ([useDevicePingStatus.js], lines 38-94)

    The effect attaches [handleMessage] to the socket it is given, sends
    the liveness request at once when the socket is open and on the
    socket's next [open] event otherwise, and returns a cleanup that
    detaches both listeners and clears the current timeout.  React runs the
    cleanup of the previous run before the effect runs again, and on
    unmount. *)

Module Tracker.
Import JS Presence.

(** The [ws] argument when it is not null: which socket, and whether its
    [readyState] is [WebSocket.OPEN] when the effect runs. *)
Record SocketRef : Type := mkSocketRef {
  sock : nat;
  is_open : bool
}.

(** [message_listener]: the socket [handleMessage] is attached to;
    [open_listener]: the socket [triggerAsk] waits on ([{ once: true }]). *)
Record State : Type := mkState {
  core : Presence.State;
  message_listener : option nat;
  open_listener : option nat
}.

Definition init : State :=
  {| core := Presence.init; message_listener := None; open_listener := None |}.

Definition with_core (c : Presence.State) (st : State) : State :=
  {| core := c; message_listener := message_listener st;
     open_listener := open_listener st |}.

Section Effect.

Variable JSON_parse : string -> Completion JSValue.
Variable h : Hook.

(** The body of the effect. *)
Definition effect (ws : option SocketRef) (st : State) : State :=
  match ws with
  | None => st
  | Some r =>
      if is_open r then
        {| core := ask_start h (core st);
           message_listener := Some (sock r);
           open_listener := open_listener st |}
      else
        {| core := core st;
           message_listener := Some (sock r);
           open_listener := Some (sock r) |}
  end.

(** The function the effect returns. *)
Definition cleanup (st : State) : State :=
  {| core := clear_current (core st);
     message_listener := None;
     open_listener := None |}.

(** A cleanup exists when the last run of the effect had a socket. *)
Definition teardown (st : State) : State :=
  match message_listener st with
  | Some _ => cleanup st
  | None => st
  end.

Inductive Event : Type :=
| Render (ws : option SocketRef)     (* the effect runs (again) *)
| Unmount
| SocketOpen (s : nat)
| SocketMessage (s : nat) (event_data : string)
| Refresh                            (* the returned [refresh] is called *)
| FetchSettled
| Elapse (dt : N).

Definition step (st : State) (ev : Event) : State :=
  match ev with
  | Render ws => effect ws (teardown st)
  | Unmount => teardown st
  | SocketOpen s =>
      match open_listener st with
      | Some s' =>
          if Nat.eqb s s' then
            {| core := ask_start h (core st);
               message_listener := message_listener st;
               open_listener := None |}
          else st
      | None => st
      end
  | SocketMessage s d =>
      match message_listener st with
      | Some s' =>
          if Nat.eqb s s' then with_core (handleMessage JSON_parse (core st) d) st
          else st
      | None => st
      end
  | Refresh => with_core (ask_start h (core st)) st
  | FetchSettled => with_core (ask_resume (core st)) st
  | Elapse dt => with_core (elapse dt (core st)) st
  end.

Definition run (st : State) (evs : list Event) : State := fold_left step evs st.


End Effect.


End Tracker.

(* ================================================================== *)
(** ** Request bodies ([useDevicePingStatus.js] [ask], [App.js]
    [sendCommand])

    Both functions POST [JSON.stringify({ deviceId, path, value })]. *)

Module Wire.
Import JS Presence.

(** The object literal [{ deviceId, path, value }]. *)
Definition body_object (r : Request) : JSValue :=
  JObj [("deviceId", JStr (req_deviceId r));
        ("path", JStr (req_path r));
        ("value", JStr (req_value r))].

Definition request_body (r : Request) : string :=
  JSON.stringify (body_object r).

(** [sendCommand(deviceId, value)] of [App.js]: the request it hands to
    [fetch]. *)
Definition sendCommand (deviceId value : string) : Request :=
  {| req_url := "https://kl7d93xve4.execute-api.eu-west-1.amazonaws.com/dev/";
     req_deviceId := deviceId;
     req_path := "k1/set";
     req_value := value |}.

End Wire.

(* ================================================================== *)
(** * Properties *)

(** ** The classifier *)

Module ClassifierProps.
Import JS Classifier Samples.

Lemma app_one_neq {A : Type} (l : list A) (x : A) : l <> (l ++ [x])%list.
Proof.
  intro H. apply (f_equal (@List.length A)) in H.
  rewrite length_app in H. simpl in H. lia.
Qed.

Lemma differs_true (s : string) (last : option string) :
  differs s last = true <-> last <> Some s.
Proof.
  destruct last as [t|]; simpl.
  - rewrite negb_true_iff. split.
    + intros H E. injection E as ->. rewrite String.eqb_refl in H. discriminate.
    + intros H. apply String.eqb_neq. congruence.
  - split; [discriminate | reflexivity].
Qed.

Lemma differs_false (s : string) (last : option string) :
  differs s last = false <-> last = Some s.
Proof.
  destruct last as [t|]; simpl.
  - rewrite negb_false_iff, String.eqb_eq. split; congruence.
  - split; discriminate.
Qed.

Section Props.

Variable JSON_parse : string -> Completion JSValue.
Variable JSON_stringify : JSValue -> string.

Local Abbreviation onmessage := (Classifier.onmessage JSON_parse JSON_stringify).
Local Abbreviation receive := (Classifier.receive JSON_parse JSON_stringify).
Local Abbreviation run := (Classifier.run JSON_parse JSON_stringify).
Local Abbreviation iot_frame := (Classifier.iot_frame JSON_parse).
Local Abbreviation appends := (Classifier.appends JSON_parse JSON_stringify).
Local Abbreviation accept := (Classifier.accept JSON_stringify).

Lemma iot_frame_functional (f : string) (d d' : JSValue) :
  iot_frame f d -> iot_frame f d' -> d = d'.
Proof. intros [H _] [H' _]. congruence. Qed.

Lemma iot_frame_intro (f : string) (d : JSValue) :
  JSON_parse f = Normal d -> is_iot d = Normal true -> iot_frame f d.
Proof.
  unfold Classifier.iot_frame, is_iot. intros Hp Hi. split; [exact Hp|].
  destruct (get d "topic") as [topic|e]; simpl in Hi; [|discriminate].
  destruct (truthy topic) eqn:Ht; [|discriminate].
  destruct (get d "payload") as [[payload|]|e]; simpl in Hi; try discriminate.
  exists topic, payload. auto.
Qed.

Lemma iot_frame_elim (f : string) (d : JSValue) :
  iot_frame f d -> JSON_parse f = Normal d /\ is_iot d = Normal true.
Proof.
  unfold Classifier.iot_frame, is_iot.
  intros [Hp (topic & payload & -> & Ht & Hpl)]. simpl.
  rewrite Ht, Hpl. auto.
Qed.

(** The two ways a frame is handled: accepted with no console output, or
    dropped with one console line and the state as it was. *)
Lemma onmessage_cases (st : State) (f : string) :
  (exists data, iot_frame f data /\ lastMessageRef st <> Some (JSON_stringify data) /\
                onmessage st f = (accept st data, []))
  \/ (exists line, onmessage st f = (st, [line]) /\
        forall data, iot_frame f data -> lastMessageRef st = Some (JSON_stringify data)).
Proof.
  unfold Classifier.onmessage, onmessage_try, Classifier.iot_frame, is_iot.
  destruct (JSON_parse f) as [data|e] eqn:Hp; simpl.
  2:{ right. eexists. split; [reflexivity|]. intros d [H _]. discriminate. }
  destruct (get data "topic") as [topic|e] eqn:Ht; simpl.
  2:{ right. eexists. split; [reflexivity|].
      intros d [H (t & p & Ht' & _)]. injection H as <-. congruence. }
  destruct (truthy topic) eqn:Htr; simpl.
  2:{ right. eexists. split; [reflexivity|].
      intros d [H (t & p & Ht' & Htr' & _)]. injection H as <-. congruence. }
  destruct (get data "payload") as [[payload|]|e] eqn:Hpl; simpl.
  - destruct (differs (JSON_stringify data) (lastMessageRef st)) eqn:Hd.
    + left. exists data. repeat split; eauto.
      now apply differs_true.
    + right. eexists. split; [reflexivity|].
      intros d [H _]. injection H as <-. now apply differs_false.
  - right. eexists. split; [reflexivity|].
    intros d [H (t & p & _ & _ & Hp')]. injection H as <-. congruence.
  - right. eexists. split; [reflexivity|].
    intros d [H (t & p & _ & _ & Hp')]. injection H as <-. congruence.
Qed.

Lemma receive_accept (st : State) (f : string) (data : JSValue) :
  iot_frame f data -> lastMessageRef st <> Some (JSON_stringify data) ->
  receive st f = accept st data.
Proof.
  intros Hf Hd. unfold Classifier.receive.
  destruct (onmessage_cases st f) as [(d & Hd' & _ & ->) | (line & -> & Hall)]; simpl.
  - now rewrite (iot_frame_functional _ _ _ Hf Hd').
  - specialize (Hall _ Hf). contradiction.
Qed.

Lemma receive_duplicate (st : State) (f : string) (data : JSValue) :
  iot_frame f data -> lastMessageRef st = Some (JSON_stringify data) ->
  receive st f = st.
Proof.
  intros Hf Hd. unfold Classifier.receive.
  destruct (onmessage_cases st f) as [(d & Hd' & Hne & ->) | (line & -> & Hall)]; simpl.
  - rewrite (iot_frame_functional _ _ _ Hf Hd') in Hd. contradiction.
  - reflexivity.
Qed.

Lemma receive_rejected (st : State) (f : string) :
  (forall data, ~ iot_frame f data) -> receive st f = st.
Proof.
  intros Hf. unfold Classifier.receive.
  destruct (onmessage_cases st f) as [(d & Hd' & _ & _) | (line & -> & _)]; simpl.
  - now apply Hf in Hd'.
  - reflexivity.
Qed.

(** C1. One-slot duplicate filter.  Whether an accepted-shape frame is
    appended depends on the slot alone: it is appended exactly when its
    serialized form differs from the last accepted one.  So of two identical
    frames back to back the second is never appended, and a third identical
    frame that comes after a different accepted frame is appended again. *)
Theorem dedup_one_slot (st : State) (f g : string) (df dg : JSValue) :
  iot_frame f df -> iot_frame g dg ->
  JSON_stringify dg <> JSON_stringify df ->
  (forall st0, messages (receive st0 f) =
               if differs (JSON_stringify df) (lastMessageRef st0)
               then (messages st0 ++ [df])%list else messages st0)
  /\ messages (run st [f; f]) = messages (run st [f])
  /\ messages (run st [f; g; f]) = (messages (run st [f]) ++ [dg; df])%list
  /\ (lastMessageRef st <> Some (JSON_stringify df) ->
      messages (run st [f; f]) = (messages st ++ [df])%list /\
      messages (run st [f; g; f]) = (messages st ++ [df; dg; df])%list).
Proof.
  intros Hf Hg Hne.
  assert (Hslot : forall st0, lastMessageRef (receive st0 f) = Some (JSON_stringify df)).
  { intros st0.
    destruct (differs (JSON_stringify df) (lastMessageRef st0)) eqn:Hd.
    - apply differs_true in Hd. now rewrite (receive_accept _ _ _ Hf Hd).
    - apply differs_false in Hd. now rewrite (receive_duplicate _ _ _ Hf Hd). }
  assert (Hff : receive (receive st f) f = receive st f).
  { apply (receive_duplicate _ _ _ Hf). apply Hslot. }
  assert (Hfg : receive (receive st f) g = accept (receive st f) dg).
  { apply (receive_accept _ _ _ Hg). rewrite Hslot. congruence. }
  assert (Hfgf : receive (receive (receive st f) g) f
                 = accept (accept (receive st f) dg) df).
  { rewrite Hfg. apply (receive_accept _ _ _ Hf). simpl. congruence. }
  split; [|split; [|split]].
  - intros st0.
    destruct (differs (JSON_stringify df) (lastMessageRef st0)) eqn:Hd.
    + apply differs_true in Hd. now rewrite (receive_accept _ _ _ Hf Hd).
    + apply differs_false in Hd. now rewrite (receive_duplicate _ _ _ Hf Hd).
  - unfold Classifier.run. simpl. now rewrite Hff.
  - unfold Classifier.run. simpl. rewrite Hfgf. simpl.
    now rewrite <- app_assoc.
  - intros Hfresh. unfold Classifier.run. simpl. rewrite Hff, Hfgf.
    rewrite (receive_accept _ _ _ Hf Hfresh). simpl.
    split; [reflexivity|]. now rewrite <- !app_assoc.
Qed.

(** C2, amended.  A frame appends an event exactly when it parses, its
    [topic] is truthy, its [payload] is not [undefined] (whatever its
    value), and its serialized form differs from the last accepted one; the
    slot then holds that form.  Every other frame leaves the state as it was
    and writes one console line; the handler returns in every case. *)
Theorem classifier_accepts_iff (st : State) (f : string) :
  (appends st f <->
   exists data, iot_frame f data /\ lastMessageRef st <> Some (JSON_stringify data))
  /\ (forall data, iot_frame f data ->
        lastMessageRef st <> Some (JSON_stringify data) ->
        onmessage st f = (accept st data, []))
  /\ (~ appends st f ->
      exists line, onmessage st f = (st, [line])).
Proof.
  unfold Classifier.appends, Classifier.receive.
  destruct (onmessage_cases st f)
    as [(d & Hd & Hne & E) | (line & E & Hall)]; rewrite E; simpl.
  - split; [|split].
    + split; intros _; eauto.
    + intros data Hf _.
      now rewrite (iot_frame_functional _ _ _ Hf Hd).
    + intros H. exfalso. apply H. eauto.
  - split; [|split].
    + split.
      * intros [data H]. now apply app_one_neq in H.
      * intros (data & Hf & Hne). now apply Hall in Hf.
    + intros data Hf Hne. now apply Hall in Hf.
    + intros _. eauto.
Qed.

(** C10.  A frame either leaves the whole state as it was, or is accepted:
    appended to the log and stored in the slot.  So after an accepted frame,
    any run of frames that are rejected or that repeat it changes nothing,
    and the same frame after that run is still dropped as a duplicate. *)
Theorem slot_changes_only_on_accept (st : State) (f : string) (df : JSValue)
        (noise : list string) :
  iot_frame f df ->
  Forall (fun n => forall dn, iot_frame n dn ->
                              JSON_stringify dn = JSON_stringify df) noise ->
  (forall st0 x, receive st0 x = st0 \/
                 exists data, iot_frame x data /\
                              receive st0 x = accept st0 data)
  /\ run (receive st f) noise = receive st f
  /\ run st (f :: noise ++ [f]) = run st [f].
Proof.
  intros Hf Hnoise.
  assert (Hslot : lastMessageRef (receive st f) = Some (JSON_stringify df)).
  { destruct (differs (JSON_stringify df) (lastMessageRef st)) eqn:Hd.
    - apply differs_true in Hd. now rewrite (receive_accept _ _ _ Hf Hd).
    - apply differs_false in Hd. now rewrite (receive_duplicate _ _ _ Hf Hd). }
  assert (Hrun : run (receive st f) noise = receive st f).
  { unfold Classifier.run.
    induction Hnoise as [|n rest Hn _ IH]; simpl; [reflexivity|].
    assert (E : receive (receive st f) n = receive st f).
    { unfold Classifier.receive at 1.
      destruct (onmessage_cases (receive st f) n)
        as [(d & Hd & Hne & _) | (line & -> & _)]; simpl; [|reflexivity].
      exfalso. apply Hne. rewrite Hslot. f_equal. symmetry. now apply Hn. }
    now rewrite E. }
  split; [|split].
  - intros st0 x. unfold Classifier.receive.
    destruct (onmessage_cases st0 x)
      as [(d & Hd & _ & ->) | (line & -> & _)]; simpl; eauto.
  - exact Hrun.
  - unfold Classifier.run in *. simpl. rewrite fold_left_app. simpl.
    rewrite Hrun. now apply (receive_duplicate _ _ _ Hf).
Qed.

End Props.

(** *** Concrete frames, read and written by the reference pair *)

Ltac frame_ok :=
  apply iot_frame_intro; vm_compute; reflexivity.

Ltac frame_rejected :=
  let H := fresh "H" in
  let Hp := fresh "Hp" in
  let Hi := fresh "Hi" in
  intros ? H; apply iot_frame_elim in H; destruct H as [Hp Hi];
  vm_compute in Hp;
  first [ discriminate Hp
        | injection Hp as <-; vm_compute in Hi; discriminate Hi ].

Lemma iot_hi : Classifier.iot_frame JSON.parse frame_hi data_hi.
Proof. frame_ok. Defined.

Lemma iot_zero : Classifier.iot_frame JSON.parse frame_zero data_zero.
Proof. frame_ok. Defined.

Lemma forms_differ : JSON.stringify data_zero <> JSON.stringify data_hi.
Proof. apply String.eqb_neq. vm_compute. reflexivity. Defined.

(** The reference pair on the sample frames: the reader gives the expected
    values, the writer gives back the frames (which carry no white space),
    and white space or a repeated key does not change the serialized
    form. *)
Example reference_pair_samples :
  JSON.parse frame_hi = Normal data_hi
  /\ JSON.stringify data_hi = frame_hi
  /\ JSON.parse frame_zero = Normal data_zero
  /\ JSON.stringify data_zero = frame_zero
  /\ JSON.parse (JSON.text " { 'topic' : 'x' , 'topic' : 'mod_1x1/d_000/will', 'payload' : 'hi!' } ")
     = Normal data_hi
  /\ JSON.parse (JSON.text "{'b':[1,-2,true,null],'1':{'k':'a\nb'},'0':false}")
     = Normal (JObj [("0", JBool false);
                     ("1", JObj [("k", JStr (String "a" (String (ascii_of_nat 10) "b")))]);
                     ("b", JArr [JNum 1; JNum (-2); JBool true; JNull])]).
Proof. vm_compute. repeat split. Qed.

(** The frames of the malformed-frame scenario: a text that is not JSON, an
    object with no [topic], an object with no [payload] and the value
    [null] are dropped with one console line each; [payload: 0] is falsy
    but present, and is accepted. *)
Example malformed_frames :
  Classifier.onmessage JSON.parse JSON.stringify init frame_not_json
    = (init, [ErrorParsing SyntaxError frame_not_json])
  /\ Classifier.onmessage JSON.parse JSON.stringify init frame_no_topic
    = (init, [LogIgnored (JObj [("payload", JStr "hi!")])])
  /\ Classifier.onmessage JSON.parse JSON.stringify init frame_no_payload
    = (init, [LogIgnored (JObj [("topic", JStr "mod_1x1/d_000/will")])])
  /\ Classifier.onmessage JSON.parse JSON.stringify init frame_null
    = (init, [ErrorParsing TypeError frame_null])
  /\ Classifier.onmessage JSON.parse JSON.stringify init frame_zero
    = ({| messages := [data_zero];
          lastMessageRef := Some (JSON.stringify data_zero) |}, []).
Proof. vm_compute. repeat split. Qed.

(** Witness of C1: the on/zero frames from the initial state. *)
Lemma dedup_one_slot_witness :
  messages (Classifier.run JSON.parse JSON.stringify init [frame_hi; frame_hi])
    = [data_hi]
  /\ messages (Classifier.run JSON.parse JSON.stringify init
                 [frame_hi; frame_zero; frame_hi])
    = [data_hi; data_zero; data_hi].
Proof.
  apply (dedup_one_slot JSON.parse JSON.stringify init frame_hi frame_zero
           data_hi data_zero iot_hi iot_zero forms_differ).
  simpl. discriminate.
Defined.

(** C2 as stated fails: a frame that parses and has both fields is still
    not appended when its topic is the empty string, and neither is the
    second of two identical well-formed frames. *)
Lemma fields_present_not_sufficient :
  (Classifier.has_fields JSON.parse frame_empty_topic data_empty_topic
   /\ ~ Classifier.appends JSON.parse JSON.stringify init frame_empty_topic)
  /\ (Classifier.has_fields JSON.parse frame_hi data_hi
      /\ ~ Classifier.appends JSON.parse JSON.stringify
            (Classifier.receive JSON.parse JSON.stringify init frame_hi) frame_hi).
Proof.
  split; split.
  - split; [vm_compute; reflexivity|]. split; eexists; vm_compute; reflexivity.
  - intros [data H]. vm_compute in H. discriminate H.
  - split; [vm_compute; reflexivity|]. split; eexists; vm_compute; reflexivity.
  - intros [data H]. vm_compute in H. discriminate H.
Qed.

(** Witness of C10: between two copies of a frame come a text that is not
    JSON, two objects that lack a field, [null], and a copy. *)
Lemma slot_changes_only_on_accept_witness :
  Classifier.run JSON.parse JSON.stringify init
    (frame_hi :: [frame_not_json; frame_no_topic; frame_no_payload;
                  frame_null; frame_hi; frame_empty_topic] ++ [frame_hi])
  = Classifier.run JSON.parse JSON.stringify init [frame_hi].
Proof.
  apply (slot_changes_only_on_accept JSON.parse JSON.stringify init frame_hi data_hi
           [frame_not_json; frame_no_topic; frame_no_payload;
            frame_null; frame_hi; frame_empty_topic] iot_hi).
  repeat constructor; try frame_rejected.
  intros dn H. now rewrite (iot_frame_functional _ _ _ _ H iot_hi).
Defined.

End ClassifierProps.

(** ** Payload classification *)

Module PayloadProps.
Import JS Presence.

Lemma lower_char_space (c : ascii) : is_space (lower_char c) = is_space c.
Proof.
  destruct c as [[] [] [] [] [] [] [] []]; vm_compute; reflexivity.
Qed.

Lemma trimStart_split (s : string) :
  exists pre, s = pre ++ trimStart s /\ all_space pre = true.
Proof.
  induction s as [|c r IH]; simpl.
  - exists "". auto.
  - destruct (is_space c) eqn:Hc.
    + destruct IH as (pre & E & Hpre). exists (String c pre). simpl.
      rewrite Hc, Hpre. split; [now rewrite <- E | reflexivity].
    + exists "". auto.
Qed.

Lemma trimEnd_split (s : string) :
  exists post, s = trimEnd s ++ post /\ all_space post = true.
Proof.
  induction s as [|c r IH]; simpl.
  - exists "". auto.
  - destruct IH as (post & E & Hpost).
    destruct (trimEnd r) as [|c' r'] eqn:Hr.
    + simpl in E. subst r. destruct (is_space c) eqn:Hc.
      * exists (String c post). simpl. now rewrite Hc, Hpost.
      * exists post. auto.
    + exists post. split; [|exact Hpost]. rewrite E at 1. reflexivity.
Qed.

Lemma trimStart_app (pre s : string) :
  all_space pre = true -> trimStart (pre ++ s) = trimStart s.
Proof.
  induction pre as [|c r IH]; simpl; [reflexivity|].
  intros H. apply andb_true_iff in H as [Hc Hr]. rewrite Hc. auto.
Qed.

Lemma trimEnd_all_space (post : string) :
  all_space post = true -> trimEnd post = "".
Proof.
  induction post as [|c r IH]; simpl; [reflexivity|].
  intros H. apply andb_true_iff in H as [Hc Hr]. now rewrite (IH Hr), Hc.
Qed.

Lemma trimEnd_app (s post : string) :
  all_space post = true -> trimEnd (s ++ post) = trimEnd s.
Proof.
  intros H. induction s as [|c r IH]; simpl.
  - now apply trimEnd_all_space.
  - now rewrite IH.
Qed.

Lemma trimStart_app_nonempty (s post : string) :
  trimStart s <> "" -> trimStart (s ++ post) = trimStart s ++ post.
Proof.
  induction s as [|c r IH]; simpl; [congruence|].
  destruct (is_space c); auto.
Qed.

Lemma trimStart_empty_all_space (s : string) :
  trimStart s = "" -> all_space s = true.
Proof.
  induction s as [|c r IH]; simpl; [reflexivity|].
  destruct (is_space c); [auto | discriminate].
Qed.

Lemma toLowerCase_trimStart (s : string) :
  toLowerCase (trimStart s) = trimStart (toLowerCase s).
Proof.
  induction s as [|c r IH]; simpl; [reflexivity|].
  rewrite lower_char_space. destruct (is_space c); [exact IH | reflexivity].
Qed.

Lemma toLowerCase_trimEnd (s : string) :
  toLowerCase (trimEnd s) = trimEnd (toLowerCase s).
Proof.
  induction s as [|c r IH]; simpl; [reflexivity|].
  rewrite <- IH, lower_char_space.
  destruct (trimEnd r) as [|c' r']; simpl; [|reflexivity].
  destruct (is_space c); reflexivity.
Qed.

Lemma toLowerCase_trim (s : string) :
  toLowerCase (trim s) = trim (toLowerCase s).
Proof. unfold trim. now rewrite toLowerCase_trimEnd, toLowerCase_trimStart. Qed.

Lemma trim_app (pre core post : string) :
  all_space pre = true -> all_space post = true ->
  trim (pre ++ core ++ post) = trim core.
Proof.
  intros Hpre Hpost. unfold trim. rewrite (trimStart_app _ _ Hpre).
  destruct (trimStart core) as [|c r] eqn:Hc.
  - apply trimStart_empty_all_space in Hc. simpl.
    apply trimEnd_all_space.
    assert (H : all_space (core ++ post) = true).
    { clear -Hc Hpost. induction core as [|x y IH]; simpl in *; [exact Hpost|].
      apply andb_true_iff in Hc as [-> Hy]. simpl. auto. }
    clear -H. induction (core ++ post) as [|x y IH]; simpl in *; [reflexivity|].
    apply andb_true_iff in H as [Hx Hy]. rewrite Hx. auto.
  - rewrite trimStart_app_nonempty by (rewrite Hc; discriminate).
    rewrite Hc. now apply trimEnd_app.
Qed.

(** A string normalizes to a token (itself free of outer white space)
    exactly when it is white space, then the token in some letter case, then
    white space: the whole content is compared, not a part of it. *)
Lemma normalize_string_shape (s token : string) :
  trim token = token ->
  (normalize (Some (JStr s)) = token <->
   exists pre core post,
     s = pre ++ core ++ post /\ all_space pre = true /\ all_space post = true /\
     toLowerCase core = token).
Proof.
  intros Htok. unfold normalize. simpl. split.
  - intros H. unfold trim in H.
    destruct (trimStart_split s) as (pre & E1 & Hpre).
    destruct (trimEnd_split (trimStart s)) as (post & E2 & Hpost).
    exists pre, (trimEnd (trimStart s)), post.
    repeat split; auto. now rewrite <- E2.
  - intros (pre & core & post & -> & Hpre & Hpost & Hcore).
    rewrite (trim_app _ _ _ Hpre Hpost), toLowerCase_trim, Hcore. exact Htok.
Qed.

(** C8.  A payload is affirmative exactly when its normal form equals
    [hi!], negative exactly when it equals [byebye] or [offline], and neither
    otherwise.  For a string payload the normal form equals a token only when
    the string is that token, in any letter case, with white space around
    it.  The listed payloads fall in their classes; a longer text that
    contains a token does not. *)
Theorem payload_classes :
  (forall p, isHi p = true <-> normalize p = "hi!")
  /\ (forall p, isBye p = true <->
                normalize p = "byebye" \/ normalize p = "offline")
  /\ (forall p, normalize p <> "hi!" -> normalize p <> "byebye" ->
                normalize p <> "offline" -> isHi p = false /\ isBye p = false)
  /\ (forall p, isHi p = true -> isBye p = false)
  /\ (forall s token, In token ["hi!"; "byebye"; "offline"] ->
        (normalize (Some (JStr s)) = token <->
         exists pre core post,
           s = pre ++ core ++ post /\ all_space pre = true /\
           all_space post = true /\ toLowerCase core = token))
  /\ (isHi (Some (JStr "HI!")) = true /\ isHi (Some (JStr " hi! ")) = true /\
      isHi (Some (JStr "hi!")) = true)
  /\ (isBye (Some (JStr "ByeBye")) = true /\ isBye (Some (JStr "byebye ")) = true /\
      isBye (Some (JStr "OFFLINE")) = true)
  /\ (isHi (Some (JStr "hi!!")) = false /\ isHi (Some (JStr "say hi!")) = false /\
      isHi (Some (JStr "hi")) = false /\ isBye (Some (JStr "byebye!")) = false /\
      isBye (Some (JStr "is offline")) = false /\ isBye (Some (JStr "bye bye")) = false).
Proof.
  assert (Hhi : forall p, isHi p = true <-> normalize p = "hi!").
  { intros p. unfold isHi, normalize. apply String.eqb_eq. }
  assert (Hbye : forall p, isBye p = true <->
                           normalize p = "byebye" \/ normalize p = "offline").
  { intros p. unfold isBye, normalize. cbv zeta.
    rewrite orb_true_iff, !String.eqb_eq. reflexivity. }
  split; [exact Hhi|]. split; [exact Hbye|]. split; [|split; [|split]].
  - intros p H1 H2 H3. split; apply not_true_is_false; intros H.
    + now apply Hhi in H.
    + apply Hbye in H as [H|H]; contradiction.
  - intros p H. apply Hhi in H. apply not_true_is_false. intros H'.
    apply Hbye in H' as [H'|H']; rewrite H in H'; discriminate.
  - intros s token Hin. apply normalize_string_shape.
    simpl in Hin. destruct Hin as [<-|[<-|[<-|[]]]]; reflexivity.
  - vm_compute. repeat split.
Qed.

(** The conversion to a string comes first, so a payload that is not a
    string is classified by its text: in particular a one-element array
    prints as its element. *)
Example payload_conversion :
  isHi (Some (JArr [JStr "Hi!"])) = true
  /\ isHi None = false /\ isBye None = false
  /\ isHi (Some (JNum 0)) = false /\ isBye (Some (JBool false)) = false
  /\ isBye (Some (JObj [("state", JStr "offline")])) = false.
Proof. vm_compute. repeat split. Qed.

End PayloadProps.

(** ** The presence tracker *)

Module PresenceProps.
Import JS Presence Samples.

Lemma fold_offline_status (due : list (positive * N)) (st : State) :
  status (fold_left (fun acc _ => setStatus offline acc) due st)
  = match due with [] => status st | _ :: _ => offline end.
Proof.
  destruct due as [|x r]; [reflexivity|]. simpl.
  generalize (setStatus offline st) (eq_refl : status (setStatus offline st) = offline).
  induction r as [|y r IH]; intros s Hs; simpl; [exact Hs|].
  now apply IH.
Qed.

Lemma fold_offline_rest (due : list (positive * N)) (st : State) :
  let st' := fold_left (fun acc _ => setStatus offline acc) due st in
  timerRef st' = timerRef st /\ timers st' = timers st /\
  next_timer st' = next_timer st /\ now st' = now st /\
  awaiting st' = awaiting st /\ requests st' = requests st.
Proof.
  revert st. induction due as [|x r IH]; intros st; simpl; [tauto|].
  destruct (IH (setStatus offline st)) as (H1 & H2 & H3 & H4 & H5 & H6).
  simpl in *. tauto.
Qed.

(** A timeout that comes due sets the status to [offline] and is gone: it
    is not pending afterwards, so it cannot act a second time. *)
Lemma timeout_expires (st : State) (dt : N) (id : positive) (d : N) :
  In (id, d) (timers st) -> (d <= now st + dt)%N ->
  status (elapse dt st) = offline /\
  (forall t, In t (timers (elapse dt st)) ->
             In t (timers st) /\ (now st + dt < snd t)%N) /\
  ~ In (id, d) (timers (elapse dt st)).
Proof.
  intros Hin Hd. unfold elapse.
  set (t := (now st + dt)%N).
  set (due := filter (fun x => (snd x <=? t)%N) (timers st)).
  assert (Hdue : In (id, d) due).
  { apply filter_In. split; [exact Hin|]. simpl. now apply N.leb_le. }
  match goal with |- context [fold_left _ due ?s1] =>
    destruct (fold_offline_rest due s1) as (_ & E & _) end.
  simpl in E.
  assert (Hrest : forall x,
             In x (timers (fold_left (fun acc _ => setStatus offline acc) due
               {| status := status st; timerRef := timerRef st;
                  timers := filter (fun x => negb (snd x <=? t)%N) (timers st);
                  next_timer := next_timer st; now := t; awaiting := awaiting st;
                  requests := requests st |})) ->
             In x (timers st) /\ (t < snd x)%N).
  { intros x Hx. rewrite E in Hx. apply filter_In in Hx as [Hx1 Hx2].
    apply negb_true_iff, N.leb_gt in Hx2. auto. }
  split; [|split].
  - rewrite fold_offline_status. destruct due; [contradiction|reflexivity].
  - exact Hrest.
  - intros Hx. apply Hrest in Hx as [_ Hx]. simpl in Hx. lia.
Qed.

Lemma filter_none {A : Type} (p : A -> bool) (l : list A) :
  (forall x, In x l -> p x = false) -> filter p l = [].
Proof.
  induction l as [|x r IH]; intros H; simpl; [reflexivity|].
  rewrite (H x (or_introl eq_refl)). apply IH. intros y Hy. apply H. now right.
Qed.

Lemma filter_all {A : Type} (p : A -> bool) (l : list A) :
  (forall x, In x l -> p x = true) -> filter p l = l.
Proof.
  induction l as [|x r IH]; intros H; simpl; [reflexivity|].
  rewrite (H x (or_introl eq_refl)). f_equal. apply IH.
  intros y Hy. apply H. now right.
Qed.

(** With nothing due, time passing changes the clock only. *)
Lemma elapse_idle (st : State) (dt : N) :
  (forall t, In t (timers st) -> (now st + dt < snd t)%N) ->
  status (elapse dt st) = status st /\ timers (elapse dt st) = timers st /\
  timerRef (elapse dt st) = timerRef st /\ awaiting (elapse dt st) = awaiting st.
Proof.
  intros H. unfold elapse.
  rewrite filter_none, filter_all; simpl; auto.
  - intros x Hx. apply negb_true_iff, N.leb_gt. auto.
  - intros x Hx. apply N.leb_gt. auto.
Qed.

Section Props.

Variable JSON_parse : string -> Completion JSValue.

Local Abbreviation handleMessage := (Presence.handleMessage JSON_parse).
Local Abbreviation step := (Presence.step JSON_parse).
Local Abbreviation run := (Presence.run JSON_parse).

(** A message leaves the state as it was, or sets the status and cancels
    the timeout that [timerRef] names. *)
Lemma handleMessage_cases (st : State) (f : string) :
  handleMessage st f = st
  \/ handleMessage st f = clear_current (setStatus online st)
  \/ handleMessage st f = clear_current (setStatus offline st).
Proof.
  unfold Presence.handleMessage, handleMessage_try.
  destruct (JSON_parse f) as [data|e]; simpl; [|auto].
  generalize (get_opt data "topic") (get_opt data "payload"). intros topic payload.
  destruct (strict_eq_string topic "mod_1x1/d_000/answerInfo" && isHi payload);
    simpl; [auto|].
  destruct (strict_eq_string topic "mod_1x1/d_000/will");
    destruct (isHi payload); simpl; auto;
    destruct (isBye payload); simpl; auto;
    destruct (strict_eq_string topic "mod_1x1/d_000/status"); simpl; auto.
Qed.

(** An affirmative answer on the answer topic sets [online] and cancels the
    timeout that [timerRef] names. *)
Lemma answer_sets_online (st : State) (f : string) (data : JSValue) :
  JSON_parse f = Normal data ->
  get_opt data "topic" = Some (JStr "mod_1x1/d_000/answerInfo") ->
  isHi (get_opt data "payload") = true ->
  handleMessage st f = clear_current (setStatus online st).
Proof.
  intros Hp Ht Hhi. unfold Presence.handleMessage, handleMessage_try.
  rewrite Hp. simpl. rewrite Ht, Hhi. reflexivity.
Qed.

Lemma clear_current_disciplined (s : Status) (st : State) :
  disciplined st ->
  timers (clear_current (setStatus s st)) = [] /\
  awaiting (clear_current (setStatus s st)) = 0 /\
  status (clear_current (setStatus s st)) = s.
Proof.
  intros [Ha [Ht | (id & d & Ht & Hr & _)]]; unfold clear_current; simpl.
  - destruct (timerRef st); simpl; rewrite ?Ht; auto.
  - rewrite Hr. simpl. rewrite Ht. simpl. rewrite Pos.eqb_refl. auto.
Qed.

Lemma disciplined_step_message (st : State) (f : string) :
  disciplined st -> disciplined (handleMessage st f).
Proof.
  intros H.
  destruct (handleMessage_cases st f) as [-> | [-> | ->]]; [exact H| |];
    destruct (clear_current_disciplined online st H) as (A1 & A2 & _);
    destruct (clear_current_disciplined offline st H) as (B1 & B2 & _);
    split; auto.
Qed.

Lemma disciplined_step_elapse (st : State) (dt : N) :
  disciplined st -> disciplined (elapse dt st).
Proof.
  intros [Ha Ht]. unfold elapse.
  match goal with |- disciplined (fold_left _ ?due ?s1) =>
    destruct (fold_offline_rest due s1) as (E1 & E2 & _ & _ & E5 & _);
    pose proof (fold_offline_status due s1) as E0 end.
  simpl in *. split; [congruence|]. rewrite E2, E1, E0.
  destruct Ht as [Ht | (id & d & Ht & Hr & Hs)]; rewrite Ht; simpl; [auto|].
  destruct (d <=? now st + dt)%N; simpl; [auto|].
  right. exists id, d. auto.
Qed.

Lemma disciplined_step_ask (h : Hook) (st : State) :
  disciplined st -> disciplined (ask_resume (ask_start h st)).
Proof.
  intros H. destruct (clear_current_disciplined checking st H) as (Ht & Ha & Hs).
  unfold ask_resume, ask_start. cbv zeta. simpl. rewrite Ht, Ha, Hs. simpl.
  split; [reflexivity|]. right. do 2 eexists. repeat split.
Qed.

Lemma prompt_keeps_discipline (h : Hook) (evs : list Event) :
  prompt evs -> forall st, disciplined st -> disciplined (run h st evs).
Proof.
  unfold Presence.run.
  induction 1 as [|evs _ IH|f evs _ IH|dt evs _ IH]; intros st Hst; simpl.
  - exact Hst.
  - apply IH. now apply disciplined_step_ask.
  - apply IH. now apply disciplined_step_message.
  - apply IH. now apply disciplined_step_elapse.
Qed.

(** So with prompt requests at most one timeout is ever pending, and a
    timeout only ever expires in the [checking] state. *)
Lemma prompt_one_timeout (h : Hook) (evs : list Event) :
  prompt evs ->
  let st := run h init evs in
  (List.length (timers st) <= 1)%nat /\
  (timers st <> [] -> status st = checking).
Proof.
  intros Hp st.
  assert (H : disciplined st).
  { apply prompt_keeps_discipline; [exact Hp|]. split; [reflexivity|now left]. }
  destruct H as [_ [Ht | (id & d & Ht & _ & Hs)]]; rewrite Ht; simpl.
  - split; [lia | congruence].
  - split; [lia | auto].
Qed.

(** With prompt requests an affirmative answer wins: the status is
    [online], nothing is pending, and no later moment changes that. *)
Lemma answer_cancels_timeout (st : State) (f : string) (data : JSValue) :
  disciplined st ->
  JSON_parse f = Normal data ->
  get_opt data "topic" = Some (JStr "mod_1x1/d_000/answerInfo") ->
  isHi (get_opt data "payload") = true ->
  status (handleMessage st f) = online /\
  timers (handleMessage st f) = [] /\
  forall dt, status (elapse dt (handleMessage st f)) = online.
Proof.
  intros Hd Hp Ht Hhi. rewrite (answer_sets_online _ _ _ Hp Ht Hhi).
  destruct (clear_current_disciplined online st Hd) as (E1 & _ & E2).
  repeat split; auto. intros dt.
  destruct (elapse_idle (clear_current (setStatus online st)) dt) as (E & _).
  - rewrite E1. intros t [].
  - now rewrite E.
Qed.

(** An event whose topic is none of the three fixed topics changes
    nothing. *)
Lemma other_topics_ignored (st : State) (f : string) (data : JSValue) :
  JSON_parse f = Normal data ->
  strict_eq_string (get_opt data "topic") "mod_1x1/d_000/answerInfo" = false ->
  strict_eq_string (get_opt data "topic") "mod_1x1/d_000/will" = false ->
  strict_eq_string (get_opt data "topic") "mod_1x1/d_000/status" = false ->
  handleMessage st f = st.
Proof.
  intros Hp H1 H2 H3. unfold Presence.handleMessage, handleMessage_try.
  rewrite Hp. simpl. now rewrite H1, H2, H3.
Qed.

End Props.

(** *** Concrete runs, read by the reference reader *)

(** The fixed topics are those the naming convention gives for device
    [d_000] of model [mod_1x1]. *)
Example fixed_topics :
  topic_of "mod_1x1" "d_000" "answerInfo" = "mod_1x1/d_000/answerInfo"
  /\ topic_of "mod_1x1" "d_000" "will" = "mod_1x1/d_000/will"
  /\ topic_of "mod_1x1" "d_000" "status" = "mod_1x1/d_000/status".
Proof. repeat split. Qed.

(** The scenarios of the specification, with requests that settle at once:
    no answer for 4000 ms gives [offline], one millisecond earlier the
    status is still [checking]; an answer at 3999 ms gives [online] for
    good; a recheck at 1000 ms moves the deadline to 5000 ms. *)
Example prompt_scenarios :
  status (Presence.run JSON.parse hook_d000 init
            [Ask; FetchSettled; Elapse 3999]) = checking
  /\ status (Presence.run JSON.parse hook_d000 init
               [Ask; FetchSettled; Elapse 3999; Elapse 1]) = offline
  /\ status (Presence.run JSON.parse hook_d000 init
               [Ask; FetchSettled; Elapse 3999; Message answer_hi;
                Elapse 1; Elapse 100000]) = online
  /\ status (Presence.run JSON.parse hook_d000 init
               [Ask; FetchSettled; Elapse 1000; Ask; FetchSettled;
                Elapse 3000; Elapse 999]) = checking
  /\ status (Presence.run JSON.parse hook_d000 init
               [Ask; FetchSettled; Elapse 1000; Ask; FetchSettled;
                Elapse 3000; Elapse 1000]) = offline.
Proof. vm_compute. repeat split. Qed.

(** C3, at the failing input.  A second check starts at 1000 ms while the
    request of the first is still in flight; the requests settle at 1200 ms
    and 1300 ms.  Each resumed call arms a timeout and none cancels the
    other: two timeouts are pending.  The answer at 2000 ms sets [online]
    and cancels the one [timerRef] names; the other expires at 5200 ms and
    sets [offline]. *)
Theorem overlapping_checks_two_timeouts :
  let two_checks := [Ask; Elapse 1000; Ask; Elapse 200; FetchSettled;
                     Elapse 100; FetchSettled] in
  let st := Presence.run JSON.parse hook_d000 init two_checks in
  let answered := Presence.run JSON.parse hook_d000 st
                    [Elapse 700; Message answer_hi] in
  timers st = [(1%positive, 5200%N); (2%positive, 5300%N)]
  /\ timerRef st = Some 2%positive
  /\ status answered = online
  /\ timers answered = [(1%positive, 5200%N)]
  /\ status (Presence.run JSON.parse hook_d000 answered [Elapse 3199]) = online
  /\ status (Presence.run JSON.parse hook_d000 answered [Elapse 3200]) = offline.
Proof. vm_compute. repeat split. Qed.

(** C4, at the failing input.  The device announces itself on the will
    topic while the request is in flight, so the status is [online] when the
    resumed call arms the timeout; 4000 ms later the timeout expires in the
    [online] state and sets [offline]. *)
Theorem timeout_expires_when_online :
  let st := Presence.run JSON.parse hook_d000 init
              [Ask; Message will_hi; FetchSettled] in
  status st = online
  /\ timers st = [(1%positive, 4000%N)]
  /\ status (Presence.run JSON.parse hook_d000 st [Elapse 3999]) = online
  /\ status (Presence.run JSON.parse hook_d000 st [Elapse 4000]) = offline.
Proof. vm_compute. repeat split. Qed.

(** C5, at the failing input.  The check starts at 0 ms, the affirmative
    answer arrives at 100 ms, before the request settles at 300 ms.  The
    answer sets [online] and finds no timeout to cancel; the timeout armed at
    300 ms expires at 4300 ms and sets [offline]. *)
Theorem early_answer_then_timeout :
  let answered := Presence.run JSON.parse hook_d000 init
                    [Ask; Elapse 100; Message answer_hi] in
  let st := Presence.run JSON.parse hook_d000 answered
              [Elapse 200; FetchSettled] in
  status answered = online
  /\ timers answered = []
  /\ status st = online
  /\ timers st = [(1%positive, 4300%N)]
  /\ status (Presence.run JSON.parse hook_d000 st [Elapse 4000]) = offline.
Proof. vm_compute. repeat split. Qed.

(** C9, at the failing input.  The tracker of device [d_001] sends its
    request with that identifier and the fixed instruction, but an
    affirmative answer on its own answer topic leaves it [checking], and one
    on the answer topic of [d_000] sets it [online]. *)
Theorem topics_fixed_to_one_device :
  requests (Presence.run JSON.parse hook_d001 init [Ask])
    = [{| req_url := apiUrl hook_d001; req_deviceId := "d_001";
          req_path := "askInfo"; req_value := "hi" |}]
  /\ status (Presence.run JSON.parse hook_d001 init
               [Ask; FetchSettled;
                Message (event_on (topic_of "mod_1x1" "d_001" "answerInfo") "hi!")])
     = checking
  /\ status (Presence.run JSON.parse hook_d001 init
               [Ask; FetchSettled;
                Message (event_on (topic_of "mod_1x1" "d_000" "answerInfo") "hi!")])
     = online
  /\ status (Presence.run JSON.parse hook_d001 init
               [Ask; FetchSettled;
                Message (event_on (topic_of "mod_1x1" "d_001" "will") "byebye")])
     = checking
  /\ status (Presence.run JSON.parse hook_d001 init
               [Ask; FetchSettled;
                Message (event_on (topic_of "mod_1x1" "d_000" "will") "byebye")])
     = offline.
Proof. vm_compute. repeat split. Qed.

End PresenceProps.

(** ** The channel manager *)

Module ChannelProps.
Import Channel.
Local Open Scope list_scope.

Lemma nth_error_last {A : Type} (l : list A) (x : A) :
  nth_error (l ++ [x]) (List.length l) = Some x.
Proof.
  rewrite nth_error_app2 by lia. now rewrite Nat.sub_diag.
Qed.

Lemma update_ready_last (l : list Socket) (x : Socket) (r : ReadyState) :
  update_ready (List.length l) r (l ++ [x])
  = l ++ [{| url := url x; readyState := r; pingInterval := pingInterval x |}].
Proof. induction l as [|y l IH]; simpl; [reflexivity | now rewrite IH]. Qed.

Lemma update_ready_length (s : nat) (r : ReadyState) (l : list Socket) :
  List.length (update_ready s r l) = List.length l.
Proof.
  revert s. induction l as [|y l IH]; intros [|s]; simpl; auto.
Qed.

Lemma update_ready_nth (s : nat) (r : ReadyState) (l : list Socket) (x : Socket) :
  nth_error l s = Some x ->
  nth_error (update_ready s r l) s
  = Some {| url := url x; readyState := r; pingInterval := pingInterval x |}.
Proof.
  revert s. induction l as [|y l IH]; intros [|s]; simpl; try discriminate.
  - now intros [= ->].
  - apply IH.
Qed.

(** What [onclose] does to the timers, whatever the socket: the socket's
    keep-alive interval is no longer armed, and one timeout is added, due
    3000 ms from now. *)
Lemma onclose_effect (st : State) (s : nat) (sock : Socket) :
  nth_error (sockets st) s = Some sock ->
  let st' := onclose s st in
  (forall id, pingInterval sock = Some id ->
              forall iv, In iv (intervals st') -> iv_id iv <> id)
  /\ (forall iv, In iv (intervals st') -> In iv (intervals st))
  /\ timeouts st' = timeouts st ++ [{| to_id := next_timer st;
                                       to_deadline := (now st + 3000)%N |}]
  /\ sockets st' = sockets st /\ now st' = now st /\ ws st' = ws st.
Proof.
  intros Hs. unfold onclose. rewrite Hs.
  destruct (pingInterval sock) as [id|]; simpl.
  - repeat split; auto.
    + intros id' [= <-] iv Hiv. apply filter_In in Hiv as [_ Hiv].
      apply negb_true_iff, Pos.eqb_neq in Hiv. exact Hiv.
    + intros iv Hiv. now apply filter_In in Hiv as [Hiv _].
  - repeat split; auto. intros id; discriminate.
Qed.

Lemma close_event (st : State) (s : nat) (sock : Socket) :
  nth_error (sockets st) s = Some sock -> readyState sock <> CLOSED ->
  step st (NetClose s) = onclose s (set_ready s CLOSED st).
Proof.
  intros Hs Hr. simpl. unfold ready_of. rewrite Hs. simpl.
  destruct (readyState sock); congruence.
Qed.

(** The three steps of a round from a connected state. *)
Lemma round_close (closed : list Socket) (id next : positive)
      (t : N) (c : option (option nat)) (out : list (nat * string)) :
  step (connected closed id next t c out) (NetClose (List.length closed))
  = {| sockets := closed ++ [{| url := endpoint; readyState := CLOSED;
                                pingInterval := Some id |}];
       intervals := [];
       timeouts := [{| to_id := next; to_deadline := (t + 3000)%N |}];
       next_timer := Pos.succ next; now := t;
       ws := Some (List.length closed); cleanup := c; sent := out |}.
Proof.
  erewrite close_event;
    [| unfold connected; cbn [sockets]; apply nth_error_last
     | cbn [readyState]; discriminate].
  unfold connected, set_ready, set_sockets.
  cbn [sockets intervals timeouts next_timer now ws cleanup sent].
  rewrite update_ready_last. cbn [url pingInterval].
  unfold onclose. cbn [sockets]. rewrite nth_error_last. cbn [pingInterval].
  unfold clearInterval, setTimeout_connect, reconnect_delay.
  cbn [sockets intervals timeouts next_timer now ws cleanup sent filter iv_id].
  rewrite Pos.eqb_refl. reflexivity.
Qed.

Lemma round_reconnect (l : list Socket) (next : positive)
      (t : N) (w : option nat) (c : option (option nat))
      (out : list (nat * string)) :
  step {| sockets := l; intervals := [];
          timeouts := [{| to_id := next; to_deadline := (t + 3000)%N |}];
          next_timer := Pos.succ next; now := t; ws := w; cleanup := c;
          sent := out |} (Elapse reconnect_delay)
  = {| sockets := l ++ [{| url := endpoint; readyState := CONNECTING;
                           pingInterval := Some (Pos.succ next) |}];
       intervals := [{| iv_id := Pos.succ next; iv_socket := List.length l;
                        iv_period := ping_period |}];
       timeouts := [];
       next_timer := Pos.succ (Pos.succ next); now := (t + 3000)%N;
       ws := Some (List.length l); cleanup := c; sent := out |}.
Proof.
  cbn [step]. unfold elapse, reconnect_delay.
  cbn [sockets intervals timeouts next_timer now ws cleanup sent filter
       to_deadline].
  rewrite N.leb_refl. reflexivity.
Qed.

Lemma round_open (l : list Socket) (id next : positive)
      (t : N) (c : option (option nat)) (out : list (nat * string)) :
  step {| sockets := l ++ [{| url := endpoint; readyState := CONNECTING;
                              pingInterval := Some id |}];
          intervals := [{| iv_id := id; iv_socket := List.length l;
                           iv_period := ping_period |}];
          timeouts := []; next_timer := next; now := t;
          ws := Some (List.length l); cleanup := c; sent := out |}
       (NetOpen (List.length l))
  = connected l id next t c out.
Proof.
  cbn [step]. unfold ready_of. cbn [sockets]. rewrite nth_error_last.
  cbn [option_map readyState].
  unfold onopen, set_ready, set_sockets, connected.
  cbn [sockets intervals timeouts next_timer now ws cleanup sent].
  rewrite update_ready_last. reflexivity.
Qed.

(** One round from a connected state is a connected state again, one
    socket later and 3000 ms later. *)
Lemma reconnect_cycle_connected (closed : list Socket) (id next : positive)
      (t : N) (c : option (option nat)) (out : list (nat * string)) :
  reconnect_cycle (connected closed id next t c out)
  = connected (closed ++ [{| url := endpoint; readyState := CLOSED;
                             pingInterval := Some id |}])
              (Pos.succ next) (Pos.succ (Pos.succ next)) (t + 3000)%N c out.
Proof.
  unfold reconnect_cycle. unfold connected at 1. cbn [ws].
  fold (connected closed id next t c out).
  unfold run. cbn [fold_left].
  rewrite round_close, round_reconnect. cbn [ws].
  apply round_open.
Qed.

(** After any number of rounds the manager is connected again: there is one
    socket more per round, the last one is open with its keep-alive interval
    armed, nothing else is armed or pending, and each round took 3000 ms. *)
Lemma cycles_connected (n : nat) :
  forall closed id next t c out,
  exists closed' id' next',
    cycles n (connected closed id next t c out)
    = connected closed' id' next' (t + 3000 * N.of_nat n)%N c out
    /\ List.length closed' = List.length closed + n
    /\ (Forall (fun k => readyState k = CLOSED) closed ->
        Forall (fun k => readyState k = CLOSED) closed').
Proof.
  induction n as [|n IH]; intros closed id next t c out.
  - exists closed, id, next. cbn [cycles]. rewrite N.mul_0_r, N.add_0_r.
    repeat split; auto.
  - cbn [cycles]. rewrite reconnect_cycle_connected.
    destruct (IH (closed ++ [{| url := endpoint; readyState := CLOSED;
                                pingInterval := Some id |}])
                 (Pos.succ next) (Pos.succ (Pos.succ next)) (t + 3000)%N c out)
      as (closed' & id' & next' & E & Hlen & Hall).
    exists closed', id', next'. rewrite E. split; [|split].
    + f_equal. lia.
    + rewrite Hlen, length_app. simpl. lia.
    + intros H. apply Hall. apply Forall_app. split; [exact H|].
      constructor; [reflexivity | constructor].
Qed.

(** The close event of a socket that is not closed yet. *)
Lemma close_event_effect (st : State) (s : nat) (sock : Socket) :
  nth_error (sockets st) s = Some sock -> readyState sock <> CLOSED ->
  let st' := step st (NetClose s) in
  (forall id, pingInterval sock = Some id ->
              forall iv, In iv (intervals st') -> iv_id iv <> id)
  /\ timeouts st' = timeouts st ++ [{| to_id := next_timer st;
                                       to_deadline := (now st + 3000)%N |}]
  /\ List.length (sockets st') = List.length (sockets st)
  /\ ready_of s st' = Some CLOSED.
Proof.
  intros Hs Hr st'. subst st'. rewrite (close_event _ _ _ Hs Hr).
  pose proof (update_ready_nth s CLOSED _ _ Hs) as Hs'.
  destruct (onclose_effect (set_ready s CLOSED st) s _ Hs')
    as (H1 & _ & H2 & H3 & _).
  split; [exact H1|]. split; [exact H2|].
  unfold ready_of. rewrite H3. cbn [set_ready set_sockets sockets] in *.
  rewrite update_ready_length, Hs'. auto.
Qed.

Lemma mounted_connected :
  run init [Mount; NetOpen 0] = connected [] 1 2 0 (Some None) [].
Proof. reflexivity. Qed.

(** C7.  The close event of a socket, whether the socket was closed by the
    peer or by [onerror], disarms that socket's keep-alive interval and adds
    exactly one timeout, due 3000 ms later, that calls [connect]; a socket
    delivers its close event once.  This goes on for any number of rounds:
    after [n] rounds [n] more sockets were made, the clock stands at
    [3000 * n] ms, the last socket is open with its keep-alive interval
    armed, and nothing else is armed or pending. *)
Theorem reconnect_policy (st : State) (s : nat) (sock : Socket) :
  nth_error (sockets st) s = Some sock -> readyState sock <> CLOSED ->
  let one := [{| to_id := next_timer st;
                 to_deadline := (now st + reconnect_delay)%N |}] in
  let st' := step st (NetClose s) in
  reconnect_delay = 3000%N
  /\ (forall id, pingInterval sock = Some id ->
                forall iv, In iv (intervals st') -> iv_id iv <> id)
  /\ timeouts st' = timeouts st ++ one
  /\ List.length (sockets st') = List.length (sockets st)
  /\ step st' (NetClose s) = st'
  /\ timeouts (run st [NetError s; NetClose s]) = timeouts st ++ one
  /\ (forall n,
        let st_n := cycles n (run init [Mount; NetOpen 0]) in
        List.length (sockets st_n) = n + 1
        /\ ws st_n = Some n
        /\ ready_of n st_n = Some OPEN
        /\ (exists id, intervals st_n = [{| iv_id := id; iv_socket := n;
                                            iv_period := ping_period |}])
        /\ ping_period = 60000%N
        /\ timeouts st_n = []
        /\ now st_n = (3000 * N.of_nat n)%N).
Proof.
  intros Hs Hr one st'.
  destruct (close_event_effect st s sock Hs Hr) as (H1 & H2 & H3 & H4).
  split; [reflexivity|]. split; [exact H1|]. split; [exact H2|].
  split; [exact H3|]. split; [|split].
  - subst st'. cbn [step] in *. now rewrite H4.
  - unfold run. cbn [fold_left].
    assert (E : exists sock',
               nth_error (sockets (step st (NetError s))) s = Some sock'
               /\ readyState sock' <> CLOSED
               /\ timeouts (step st (NetError s)) = timeouts st
               /\ next_timer (step st (NetError s)) = next_timer st
               /\ now (step st (NetError s)) = now st).
    { cbn [step]. unfold ready_of, onerror, socket_close. rewrite Hs.
      cbn [option_map].
      destruct (readyState sock) eqn:Hrs;
        try (exists sock; rewrite Hrs; repeat split; auto; discriminate);
        eexists; (split; [apply (update_ready_nth _ _ _ _ Hs)|]);
        repeat split; discriminate. }
    destruct E as (sock' & Hs' & Hr' & Et & En & Ew).
    destruct (close_event_effect _ s sock' Hs' Hr') as (_ & H2' & _).
    rewrite H2', Et, En, Ew. reflexivity.
  - intros n st_n. subst st_n. rewrite mounted_connected.
    destruct (cycles_connected n [] 1%positive 2%positive 0%N (Some None) [])
      as (closed' & id' & next' & E & Hlen & _).
    rewrite E. unfold connected, ready_of.
    cbn [sockets intervals timeouts now ws]. simpl in Hlen. subst n.
    rewrite length_app, nth_error_last. cbn [List.length option_map readyState].
    repeat split; eauto.
Qed.

(** Witness of C7: the first socket, open, right after mounting. *)
Lemma reconnect_policy_witness :
  timeouts (step (run init [Mount; NetOpen 0]) (NetClose 0))
    = [{| to_id := 2; to_deadline := 3000 |}]
  /\ intervals (step (run init [Mount; NetOpen 0]) (NetClose 0)) = []
  /\ List.length (sockets (cycles 5 (run init [Mount; NetOpen 0]))) = 6
  /\ now (cycles 5 (run init [Mount; NetOpen 0])) = 15000%N.
Proof.
  destruct (reconnect_policy (run init [Mount; NetOpen 0]) 0
              {| url := endpoint; readyState := OPEN; pingInterval := Some 1%positive |}
              eq_refl ltac:(discriminate))
    as (_ & _ & H2 & _ & _ & _ & Hn).
  split; [exact H2|]. split; [reflexivity|].
  destruct (Hn 5) as (H5 & _ & _ & _ & _ & _ & H6).
  split; [exact H5 | exact H6].
Defined.

(** C6, at the failing input.  The component mounts, its socket opens, and
    the component unmounts.  The cleanup closed over the [ws] of the first
    render, which is [null], so it closes nothing: the socket stays open and
    its keep-alive interval stays armed and goes on sending.  When the socket
    closes later, [onclose] schedules a reconnect as always, and 3000 ms
    later a new socket is made for a component that is gone. *)
Theorem teardown_leaves_channel_running :
  let st := run init [Mount; NetOpen 0; Unmount] in
  cleanup st = None
  /\ ready_of 0 st = Some OPEN
  /\ intervals st = [{| iv_id := 1; iv_socket := 0; iv_period := ping_period |}]
  /\ sent (run st [Elapse 60000; IntervalTick 1]) = [(0, "ping"%string)]
  /\ timeouts (run st [NetClose 0])
     = [{| to_id := 2; to_deadline := 3000 |}]
  /\ List.length (sockets (run st [NetClose 0; Elapse 3000])) = 2
  /\ ready_of 1 (run st [NetClose 0; Elapse 3000]) = Some CONNECTING
  /\ intervals (run st [NetClose 0; Elapse 3000])
     = [{| iv_id := 3; iv_socket := 1; iv_period := ping_period |}].
Proof. vm_compute. repeat split. Qed.

Lemma fold_connect_cleanup {A : Type} (l : list A) (st : State) :
  cleanup (fold_left (fun acc _ => connect acc) l st) = cleanup st.
Proof.
  revert st. induction l as [|x l IH]; intros st; cbn [fold_left];
    [reflexivity|]. now rewrite IH.
Qed.

(** The cleanup closes nothing, whatever happens between mount and
    unmount. *)
Lemma cleanup_closes_nothing (st : State) (evs : list Event) :
  Forall (fun ev => ev <> Mount /\ ev <> Unmount) evs ->
  let st1 := run (mount st) evs in
  sockets (unmount st1) = sockets st1
  /\ intervals (unmount st1) = intervals st1
  /\ timeouts (unmount st1) = timeouts st1.
Proof.
  intros Hevs st1.
  assert (Hc : cleanup st1 = Some None).
  { subst st1. assert (H0 : cleanup (mount st) = Some None) by reflexivity.
    revert H0. generalize (mount st). unfold run.
    induction Hevs as [|ev evs [Hm Hu] _ IH]; intros s0 H0; cbn [fold_left];
      [exact H0|].
    apply IH. clear IH.
    destruct ev; cbn [step]; try congruence.
    - destruct (ready_of s s0) as [[]|]; auto.
    - destruct (ready_of s s0) as [[]|]; auto;
        unfold onclose, set_ready, set_sockets; cbn [sockets];
        destruct (nth_error _ s) as [k|]; try destruct (pingInterval k); auto.
    - destruct (ready_of s s0) as [r|]; auto.
      unfold onerror, socket_close.
      destruct (nth_error _ s) as [k|]; auto. destruct (readyState k); auto.
    - destruct (find _ _) as [iv|]; auto. unfold ping.
      destruct (nth_error _ _) as [k|]; auto.
      destruct (ready_eqb _ _); auto.
    - unfold elapse. now rewrite fold_connect_cleanup. }
  unfold unmount. rewrite Hc. auto.
Qed.

End ChannelProps.

(** ** The message log as a whole *)

Module LogProps.
Import JS Classifier Render.
Local Open Scope list_scope.

Lemma last_snoc {A : Type} (l : list A) (x d : A) : last (l ++ [x]) d = x.
Proof.
  induction l as [|a l IH]; [reflexivity|].
  simpl. destruct (l ++ [x]) eqn:E; [now destruct l | exact IH].
Qed.

Lemma last_default {A : Type} (l : list A) (m d d' : A) :
  last (m :: l) d = last (m :: l) d'.
Proof.
  revert m. induction l as [|a l IH]; intros m; [reflexivity|].
  change (last (a :: l) d = last (a :: l) d'). apply IH.
Qed.

Lemma last_cons {A : Type} (l : list A) (m d : A) :
  last (m :: l) d = last l m.
Proof.
  destruct l as [|a l]; [reflexivity|].
  change (last (a :: l) d = last (a :: l) m). apply last_default.
Qed.

Lemma last_map_cons {A B : Type} (f : A -> B) (l : list A) (m : A) (d : B) :
  last (map f (m :: l)) d = f (last l m).
Proof.
  rewrite <- (last_cons l m m).
  revert m. induction l as [|a l IH]; intros m; [reflexivity|].
  change (last (map f (a :: l)) d = f (last (a :: l) m)).
  rewrite IH. f_equal. rewrite (last_cons l a a). symmetry. apply last_cons.
Qed.

Lemma adjacent_distinct_snoc (l : list string) (x : string) :
  adjacent_distinct l ->
  (forall d, l <> [] -> last l d <> x) ->
  adjacent_distinct (l ++ [x]).
Proof.
  induction l as [|a l IH]; intros Hl Hx; [exact I|].
  destruct l as [|b l].
  - simpl. split; [|exact I]. apply (Hx a). discriminate.
  - destruct Hl as [Hab Hl]. split; [exact Hab|].
    apply IH; [exact Hl|]. intros d _. apply (Hx d). discriminate.
Qed.

Lemma subsequence_refl {A : Type} (l : list A) : subsequence l l.
Proof.
  induction l as [|x l IH]; [apply subsequence_nil | now apply subsequence_keep].
Qed.

Lemma subsequence_snoc_keep {A : Type} (small big : list A) (x : A) :
  subsequence small big -> subsequence (small ++ [x]) (big ++ [x]).
Proof.
  induction 1 as [|y small big _ IH|y small big _ IH]; simpl.
  - apply subsequence_keep, subsequence_nil.
  - now apply subsequence_skip.
  - now apply subsequence_keep.
Qed.

Lemma subsequence_snoc_skip {A : Type} (small big : list A) (x : A) :
  subsequence small big -> subsequence small (big ++ [x]).
Proof.
  induction 1 as [|y small big _ IH|y small big _ IH]; simpl.
  - apply subsequence_skip, subsequence_nil.
  - now apply subsequence_skip.
  - now apply subsequence_keep.
Qed.

Section Props.

Variable JSON_parse : string -> Completion JSValue.
Variable JSON_stringify : JSValue -> string.

Local Abbreviation receive := (Classifier.receive JSON_parse JSON_stringify).
Local Abbreviation run := (Classifier.run JSON_parse JSON_stringify).
Local Abbreviation iot_frame := (Classifier.iot_frame JSON_parse).
Local Abbreviation accept := (Classifier.accept JSON_stringify).
Local Abbreviation slot_is_newest := (Render.slot_is_newest JSON_stringify).

Lemma receive_cases (st : State) (f : string) :
  receive st f = st
  \/ exists data, iot_frame f data /\
                  lastMessageRef st <> Some (JSON_stringify data) /\
                  receive st f = accept st data.
Proof.
  unfold Classifier.receive.
  destruct (ClassifierProps.onmessage_cases JSON_parse JSON_stringify st f)
    as [(d & Hd & Hne & E) | (line & E & _)]; rewrite E; simpl; eauto.
Qed.

(** A property of a state that every accepted frame keeps holds after any
    run of frames. *)
Lemma run_invariant (P : State -> Prop) :
  (forall st f data, P st -> iot_frame f data ->
                     lastMessageRef st <> Some (JSON_stringify data) ->
                     P (accept st data)) ->
  forall frames st, P st -> P (run st frames).
Proof.
  intros Hstep. unfold Classifier.run.
  induction frames as [|f frames IH]; intros st Hst; simpl; [exact Hst|].
  apply IH. destruct (receive_cases st f) as [-> | (d & Hd & Hne & ->)]; eauto.
Qed.

(** X1.  However the frames arrive, no two neighbours in the log have the
    same serialized form, and the slot of the duplicate filter holds the
    form of the newest entry (it is empty while the log is empty). *)
Theorem log_never_repeats_neighbour (frames : list string) :
  let st := run init frames in
  adjacent_distinct (map JSON_stringify (messages st))
  /\ slot_is_newest st.
Proof.
  apply (run_invariant
           (fun st => adjacent_distinct (map JSON_stringify (messages st))
                      /\ slot_is_newest st)).
  - intros st f data [Hadj Hslot] _ Hne. unfold Classifier.accept. simpl.
    split.
    + rewrite map_app. simpl. apply adjacent_distinct_snoc; [exact Hadj|].
      intros d Hnil E. apply Hne. unfold Render.slot_is_newest in Hslot.
      destruct (messages st) as [|m l]; [now elim Hnil|].
      rewrite Hslot. f_equal. rewrite <- E. symmetry. apply last_map_cons.
    + unfold Render.slot_is_newest. simpl.
      destruct (messages st) as [|m l]; simpl; [reflexivity|].
      f_equal. f_equal. symmetry. apply last_snoc.
  - split; [exact I | reflexivity].
Qed.


(** X3.  Handling frames only ever appends: what was logged stays, in its
    place, and a run of frames adds at most one entry per frame. *)
Theorem log_is_append_only (st : State) (frames : list string) :
  exists added,
    messages (run st frames) = messages st ++ added
    /\ List.length added <= List.length frames.
Proof.
  unfold Classifier.run. revert st.
  induction frames as [|f frames IH]; intros st; simpl.
  - exists []. now rewrite app_nil_r.
  - destruct (IH (receive st f)) as (added & E & Hlen). rewrite E.
    destruct (receive_cases st f) as [-> | (d & _ & _ & ->)].
    + exists added. split; [reflexivity | lia].
    + exists (d :: added). unfold Classifier.accept. simpl.
      rewrite <- app_assoc. split; [reflexivity | simpl; lia].
Qed.

(** X4.  On the same frames, the log of the filtering component is the log
    of the plain viewer with entries left out; the viewer keeps one entry
    for every frame that parses, whatever it parses to. *)
Theorem filtered_log_within_viewer_log (frames : list string) :
  subsequence (messages (run init frames)) (Viewer.run JSON_parse [] frames)
  /\ List.length (Viewer.run JSON_parse [] frames)
     = List.length (filter (fun f => match JSON_parse f with
                                     | Normal _ => true
                                     | Throw _ => false
                                     end) frames).
Proof.
  assert (H : forall st v,
             subsequence (messages st) v ->
             subsequence (messages (run st frames)) (Viewer.run JSON_parse v frames)
             /\ List.length (Viewer.run JSON_parse v frames)
                = List.length v
                  + List.length (filter (fun f => match JSON_parse f with
                                                  | Normal _ => true
                                                  | Throw _ => false
                                                  end) frames)).
  { unfold Classifier.run, Viewer.run.
    induction frames as [|f frames IH]; intros st v Hsub; simpl.
    - split; [exact Hsub | lia].
    - unfold Viewer.receive at 2 4. unfold Viewer.onmessage.
      destruct (receive_cases st f) as [-> | (d & [Hp _] & _ & ->)].
      + destruct (JSON_parse f) as [data|e]; simpl.
        * destruct (IH st (v ++ [data])) as [H1 H2].
          { now apply subsequence_snoc_skip. }
          split; [exact H1|]. rewrite H2, length_app. simpl. lia.
        * destruct (IH st v Hsub) as [H1 H2]. auto.
      + rewrite Hp. simpl.
        destruct (IH (accept st d) (v ++ [d])) as [H1 H2].
        { unfold Classifier.accept. simpl. now apply subsequence_snoc_keep. }
        split; [exact H1|]. rewrite H2, length_app. simpl. lia. }
  destruct (H init []) as [H1 H2]; [constructor|]. split; [exact H1|exact H2].
Qed.

End Props.

End LogProps.

(** ** The channel manager over any run of events *)

Module ChannelRunProps.
Import Channel ChannelView.
Local Open Scope list_scope.

Lemma filter_split_length {A : Type} (p : A -> bool) (l : list A) :
  List.length (filter p l) + List.length (filter (fun x => negb (p x)) l)
  = List.length l.
Proof.
  induction l as [|x l IH]; simpl; [reflexivity|].
  destruct (p x); simpl; lia.
Qed.

Lemma count_live_app (l1 l2 : list Socket) :
  count_live (l1 ++ l2) = count_live l1 + count_live l2.
Proof. unfold count_live. now rewrite filter_app, length_app. Qed.

(** Changing the state of one socket changes the count of live sockets by
    that socket alone. *)
Lemma count_live_update (s : nat) (r : ReadyState) (l : list Socket) (sock : Socket) :
  nth_error l s = Some sock ->
  count_live (update_ready s r l) + (if live sock then 1 else 0)
  = count_live l + (if ready_eqb r CLOSED then 0 else 1).
Proof.
  revert s. induction l as [|x l IH]; intros [|s] H; simpl in H; try discriminate.
  - injection H as ->. destruct sock as [u rs pi].
    unfold count_live, live. simpl. destruct r, rs; simpl; lia.
  - specialize (IH s H). unfold count_live in *. simpl.
    destruct (live x); simpl; lia.
Qed.

Lemma fold_connect_effect {A : Type} (due : list A) (st : State) :
  let st' := fold_left (fun acc _ => connect acc) due st in
  count_live (sockets st') = count_live (sockets st) + List.length due
  /\ timeouts st' = timeouts st /\ sent st' = sent st.
Proof.
  revert st. induction due as [|x due IH]; intros st; simpl; [auto|].
  destruct (IH (connect st)) as (H1 & H2 & H3). rewrite H1, H2, H3.
  unfold connect. simpl. rewrite count_live_app. unfold count_live. simpl.
  repeat split; lia.
Qed.

Lemma socket_close_effect (s : nat) (st : State) :
  count_live (sockets (socket_close s st)) = count_live (sockets st)
  /\ timeouts (socket_close s st) = timeouts st
  /\ sent (socket_close s st) = sent st
  /\ intervals (socket_close s st) = intervals st
  /\ next_timer (socket_close s st) = next_timer st.
Proof.
  unfold socket_close. destruct (nth_error (sockets st) s) as [sock|] eqn:Hs; [|auto].
  destruct (readyState sock) eqn:Hr; auto;
    unfold set_ready, set_sockets; simpl; repeat split;
    pose proof (count_live_update s CLOSING _ _ Hs) as H;
    unfold live in H; rewrite Hr in H; simpl in H; lia.
Qed.

(** One event changes the number of live sockets plus pending reconnects
    only when it is a mount. *)
Lemma step_balance (st : State) (ev : Event) :
  count_live (sockets (step st ev)) + List.length (timeouts (step st ev))
  = count_live (sockets st) + List.length (timeouts st)
    + count_mounts [ev].
Proof.
  destruct ev as [| |s|s|s|id|dt]; simpl.
  - unfold mount, connect. simpl. rewrite count_live_app.
    unfold count_live. simpl. lia.
  - unfold unmount. destruct (cleanup st) as [[s|]|]; simpl; try lia.
    match goal with |- context [socket_close s ?x] =>
      destruct (socket_close_effect s x) as (H1 & H2 & _) end.
    rewrite H1, H2. simpl. lia.
  - unfold ready_of. destruct (nth_error (sockets st) s) as [sock|] eqn:Hs;
      simpl; [|lia].
    destruct (readyState sock) eqn:Hr; try lia.
    unfold onopen, set_ready, set_sockets. simpl.
    pose proof (count_live_update s OPEN _ _ Hs) as H.
    unfold live in H. rewrite Hr in H. simpl in H. lia.
  - unfold ready_of. destruct (nth_error (sockets st) s) as [sock|] eqn:Hs;
      simpl; [|lia].
    pose proof (count_live_update s CLOSED _ _ Hs) as H.
    pose proof (ChannelProps.update_ready_nth s CLOSED _ _ Hs) as Hs'.
    destruct (readyState sock) eqn:Hr; try lia;
      unfold live in H; rewrite Hr in H; simpl in H;
      unfold onclose, set_ready, set_sockets; simpl; rewrite Hs'; simpl;
      destruct (pingInterval sock); simpl; rewrite length_app; simpl; lia.
  - unfold ready_of. destruct (nth_error (sockets st) s) as [sock|]; simpl; [|lia].
    unfold onerror. destruct (socket_close_effect s st) as (H1 & H2 & _).
    rewrite H1, H2. lia.
  - destruct (find _ (intervals st)) as [iv|]; [|lia].
    unfold ping. destruct (nth_error (sockets st) (iv_socket iv)) as [sock|]; [|lia].
    destruct (ready_eqb (readyState sock) OPEN); simpl; lia.
  - unfold elapse.
    match goal with |- context [fold_left _ ?due ?s1] =>
      destruct (fold_connect_effect due s1) as (H1 & H2 & _) end.
    rewrite H1, H2. simpl.
    pose proof (filter_split_length
                  (fun x => (to_deadline x <=? now st + dt)%N) (timeouts st)).
    lia.
Qed.

(** X5.  After any run of events from the start, the live sockets and the
    pending reconnects together number exactly the mounts so far: each
    mounted instance always has one connection that is alive or about to be
    retried, never two and never none, and unmounting does not end it. *)
Theorem one_connection_per_mount (evs : list Event) :
  count_live (sockets (run init evs)) + List.length (timeouts (run init evs))
  = count_mounts evs.
Proof.
  assert (H : forall st,
             count_live (sockets (run st evs)) + List.length (timeouts (run st evs))
             = count_live (sockets st) + List.length (timeouts st)
               + count_mounts evs).
  { unfold run. induction evs as [|ev evs IH]; intros st; simpl; [lia|].
    rewrite IH, step_balance. simpl. destruct ev; lia. }
  rewrite H. reflexivity.
Qed.

(** *** The keep-alive intervals *)

Lemma keepalives_app (b : nat) (l1 l2 : list Socket) :
  keepalives b (l1 ++ l2)
  = keepalives b l1 ++ keepalives (b + List.length l1) l2.
Proof.
  revert b. induction l1 as [|x l1 IH]; intros b; simpl.
  - now rewrite Nat.add_0_r.
  - rewrite IH. replace (S b + List.length l1) with (b + S (List.length l1)) by lia.
    destruct (pingInterval x); [destruct (live x)|]; reflexivity.
Qed.

Lemma keepalives_ids (b : nat) (l : list Socket) (iv : Interval) :
  In iv (keepalives b l) -> In (Some (iv_id iv)) (map pingInterval l).
Proof.
  revert b. induction l as [|x l IH]; intros b H; simpl in *; [contradiction|].
  destruct (pingInterval x) as [id|] eqn:Hx; [destruct (live x)|].
  - destruct H as [<- | H]; [now left | right; eauto].
  - right; eauto.
  - right; eauto.
Qed.

Lemma update_ready_ids (s : nat) (r : ReadyState) (l : list Socket) :
  map pingInterval (update_ready s r l) = map pingInterval l.
Proof.
  revert s. induction l as [|x l IH]; intros [|s]; simpl; auto.
  now rewrite IH.
Qed.

(** A change among the live states leaves the keep-alive intervals as they
    are. *)
Lemma keepalives_update_live (b s : nat) (r : ReadyState) (l : list Socket)
      (sock : Socket) :
  nth_error l s = Some sock -> live sock = true -> r <> CLOSED ->
  keepalives b (update_ready s r l) = keepalives b l.
Proof.
  revert b s. induction l as [|x l IH]; intros b [|s] H Hl Hr; simpl in H;
    try discriminate.
  - injection H as ->. simpl. rewrite Hl.
    replace (live {| url := url sock; readyState := r;
                     pingInterval := pingInterval sock |}) with true
      by (unfold live; simpl; destruct r; simpl; congruence).
    reflexivity.
  - simpl. now rewrite (IH (S b) s H Hl Hr).
Qed.

(** Closing a socket takes its interval away, and no other. *)
Lemma keepalives_close (b s : nat) (l : list Socket) (sock : Socket)
      (id : positive) :
  NoDup (map pingInterval l) ->
  nth_error l s = Some sock -> pingInterval sock = Some id ->
  filter (fun iv => negb (iv_id iv =? id)%positive) (keepalives b l)
  = keepalives b (update_ready s CLOSED l).
Proof.
  revert b s. induction l as [|x l IH]; intros b [|s] Hnd H Hid; simpl in H;
    try discriminate.
  - injection H as ->. simpl in Hnd. inversion Hnd as [|? ? Hnotin _]; subst.
    cbn [keepalives update_ready pingInterval]. rewrite Hid.
    change (live {| url := url sock; readyState := CLOSED;
                    pingInterval := Some id |}) with false. cbv iota.
    assert (Hrest : filter (fun iv => negb (iv_id iv =? id)%positive)
                           (keepalives (S b) l) = keepalives (S b) l).
    { apply PresenceProps.filter_all. intros iv Hiv.
      apply negb_true_iff, Pos.eqb_neq. intros E.
      apply keepalives_ids in Hiv. rewrite E, <- Hid in Hiv. contradiction. }
    destruct (live sock); simpl; [rewrite Pos.eqb_refl; simpl|]; exact Hrest.
  - simpl. inversion Hnd as [|? ? Hnotin Hnd']; subst.
    rewrite <- (IH (S b) s Hnd' H Hid).
    destruct (pingInterval x) as [idx|] eqn:Hx; [|reflexivity].
    destruct (live x); [|reflexivity]. simpl.
    assert (Hne : (idx =? id)%positive = false).
    { apply Pos.eqb_neq. intros ->. apply Hnotin.
      rewrite <- Hid. apply in_map. eapply nth_error_In; eauto. }
    now rewrite Hne.
Qed.

Lemma ids_below_update (n : positive) (s : nat) (r : ReadyState)
      (l : list Socket) :
  Forall (fun sock => exists id, pingInterval sock = Some id /\ (id < n)%positive) l ->
  Forall (fun sock => exists id, pingInterval sock = Some id /\ (id < n)%positive)
         (update_ready s r l).
Proof.
  intros H. revert s. induction H as [|x l Hx Hl IH]; intros [|s]; simpl;
    constructor; solve [exact Hx | exact Hl | apply IH].
Qed.

Lemma keepalive_exact_frame (st st' : State) :
  sockets st' = sockets st -> intervals st' = intervals st ->
  (next_timer st <= next_timer st')%positive ->
  keepalive_exact st -> keepalive_exact st'.
Proof.
  intros Hs Hi Hn (H1 & H2 & H3). unfold keepalive_exact.
  rewrite Hs, Hi. repeat split; auto.
  eapply Forall_impl; [|exact H2]. intros sock (id & E & Hlt).
  exists id. split; [exact E | lia].
Qed.

Lemma keepalive_exact_connect (st : State) :
  keepalive_exact st -> keepalive_exact (connect st).
Proof.
  intros (H1 & H2 & H3). unfold keepalive_exact, connect. simpl.
  split; [|split].
  - rewrite keepalives_app, H1. simpl. reflexivity.
  - apply Forall_app. split.
    + eapply Forall_impl; [|exact H2]. intros sock (id & E & Hlt).
      exists id. split; [exact E | lia].
    + constructor; [|constructor]. exists (next_timer st). simpl. split; [reflexivity|lia].
  - rewrite map_app. simpl.
    apply NoDup_app; [exact H3 | repeat constructor; auto | ].
    intros x Hx [<- | []].
    apply in_map_iff in Hx as (sock & E & Hin).
    rewrite Forall_forall in H2. destruct (H2 sock Hin) as (id & E' & Hlt).
    rewrite E' in E. injection E as ->. lia.
Qed.

Lemma keepalive_exact_update (st : State) (s : nat) (r : ReadyState)
      (sock : Socket) :
  nth_error (sockets st) s = Some sock -> live sock = true -> r <> CLOSED ->
  keepalive_exact st -> keepalive_exact (set_ready s r st).
Proof.
  intros Hs Hl Hr (H1 & H2 & H3). unfold keepalive_exact, set_ready, set_sockets.
  simpl. split; [|split].
  - now rewrite (keepalives_update_live 0 s r _ sock Hs Hl Hr).
  - now apply ids_below_update.
  - now rewrite update_ready_ids.
Qed.

Lemma keepalive_exact_socket_close (st : State) (s : nat) :
  keepalive_exact st -> keepalive_exact (socket_close s st).
Proof.
  intros H. unfold socket_close.
  destruct (nth_error (sockets st) s) as [sock|] eqn:Hs; [|exact H].
  destruct (readyState sock) eqn:Hr; try exact H;
    apply (keepalive_exact_update st s CLOSING sock Hs); auto;
    try discriminate; unfold live; now rewrite Hr.
Qed.

Lemma keepalive_exact_step (st : State) (ev : Event) :
  keepalive_exact st -> keepalive_exact (step st ev).
Proof.
  intros H. destruct ev as [| |s|s|s|id|dt]; simpl.
  - apply (keepalive_exact_frame (connect st));
      [reflexivity | reflexivity | simpl; lia |].
    now apply keepalive_exact_connect.
  - unfold unmount. destruct (cleanup st) as [[s|]|]; [| |exact H].
    + apply keepalive_exact_socket_close.
      revert H. apply keepalive_exact_frame; simpl; solve [reflexivity | lia].
    + revert H. apply keepalive_exact_frame; simpl; solve [reflexivity | lia].
  - unfold ready_of. destruct (nth_error (sockets st) s) as [sock|] eqn:Hs;
      simpl; [|exact H].
    destruct (readyState sock) eqn:Hr; try exact H.
    unfold onopen. apply (keepalive_exact_update st s OPEN sock Hs); auto;
      try discriminate. unfold live. now rewrite Hr.
  - unfold ready_of. destruct (nth_error (sockets st) s) as [sock|] eqn:Hs;
      simpl; [|exact H].
    assert (Hgoal : readyState sock <> CLOSED ->
                    keepalive_exact (onclose s (set_ready s CLOSED st))).
    { intros _. destruct H as (H1 & H2 & H3).
      pose proof (ChannelProps.update_ready_nth s CLOSED _ _ Hs) as Hs'.
      rewrite Forall_forall in H2.
      destruct (H2 sock (nth_error_In _ _ Hs)) as (id & Hid & Hlt).
      unfold onclose, set_ready, set_sockets. simpl. rewrite Hs'. simpl.
      rewrite Hid. unfold keepalive_exact, setTimeout_connect, clearInterval.
      simpl. split; [|split].
      - rewrite H1. now apply (keepalives_close 0 s _ sock id).
      - apply ids_below_update. apply Forall_forall. intros x Hx.
        destruct (H2 x Hx) as (idx & Ex & Hltx). exists idx. split; [exact Ex | lia].
      - now rewrite update_ready_ids. }
    destruct (readyState sock) eqn:Hr; try exact H; apply Hgoal; discriminate.
  - unfold ready_of. destruct (nth_error (sockets st) s) as [sock|]; simpl;
      [|exact H].
    now apply keepalive_exact_socket_close.
  - destruct (find _ (intervals st)) as [iv|]; [|exact H].
    unfold ping. destruct (nth_error (sockets st) (iv_socket iv)) as [sock|];
      [|exact H].
    destruct (ready_eqb (readyState sock) OPEN); [|exact H].
    revert H. apply keepalive_exact_frame; simpl; solve [reflexivity | lia].
  - unfold elapse.
    match goal with |- keepalive_exact (fold_left _ ?due ?s1) =>
      assert (H1 : keepalive_exact s1)
        by (revert H; apply keepalive_exact_frame; simpl;
            solve [reflexivity | lia]);
      revert H1; generalize s1; generalize due end.
    intros due. induction due as [|x due IH]; intros s1 H1; simpl; [exact H1|].
    apply IH. now apply keepalive_exact_connect.
Qed.

(** X6.  After any run of events from the start, the armed intervals are
    exactly the keep-alive intervals of the sockets that have not closed,
    one each, in creation order: a closed socket never keeps its interval,
    and a socket that is connecting, open or closing never lacks it. *)
Theorem keepalive_only_for_live_sockets (evs : list Event) :
  intervals (run init evs) = keepalives 0 (sockets (run init evs))
  /\ List.length (intervals (run init evs))
     = count_live (sockets (run init evs)).
Proof.
  assert (H : keepalive_exact (run init evs)).
  { assert (G : forall st, keepalive_exact st -> keepalive_exact (run st evs)).
    { unfold run. induction evs as [|ev evs IH]; intros st Hst; simpl;
        [exact Hst|]. apply IH. now apply keepalive_exact_step. }
    apply G. repeat split; constructor. }
  destruct H as (H1 & H2 & _). split; [exact H1|]. rewrite H1.
  clear H1. generalize 0.
  induction H2 as [|x l (id & Hid & _) _ IH]; intros b; [reflexivity|].
  simpl. rewrite Hid. unfold count_live in *. simpl.
  destruct (live x); simpl; now rewrite IH.
Qed.

(** X7.  Whatever the state and the event, the manager sends nothing, or it
    sends the one text [ping], and then on a socket that is open at that
    moment and from the tick of an armed interval. *)
Theorem only_ping_and_only_when_open (st : State) (ev : Event) :
  sent (step st ev) = sent st
  \/ exists id iv,
       ev = IntervalTick id
       /\ In iv (intervals st) /\ iv_id iv = id
       /\ ready_of (iv_socket iv) st = Some OPEN
       /\ sent (step st ev) = sent st ++ [(iv_socket iv, "ping"%string)].
Proof.
  destruct ev as [| |s|s|s|id|dt]; simpl.
  - left. reflexivity.
  - left. unfold unmount. destruct (cleanup st) as [[s|]|]; auto.
    match goal with |- context [socket_close s ?x] =>
      destruct (socket_close_effect s x) as (_ & _ & H & _) end. exact H.
  - left. unfold ready_of. destruct (nth_error (sockets st) s) as [sock|]; auto.
    simpl. destruct (readyState sock); auto.
  - left. unfold ready_of. destruct (nth_error (sockets st) s) as [sock|] eqn:Hs;
      auto. simpl.
    pose proof (ChannelProps.update_ready_nth s CLOSED _ _ Hs) as Hs'.
    destruct (readyState sock); auto;
      unfold onclose, set_ready, set_sockets; simpl; rewrite Hs'; simpl;
      destruct (pingInterval sock); reflexivity.
  - left. unfold ready_of. destruct (nth_error (sockets st) s) as [sock|]; auto.
    simpl. unfold onerror.
    now destruct (socket_close_effect s st) as (_ & _ & H & _).
  - destruct (find _ (intervals st)) as [iv|] eqn:Hf; [|now left].
    apply find_some in Hf as [Hin Hid]. apply Pos.eqb_eq in Hid.
    unfold ping. destruct (nth_error (sockets st) (iv_socket iv)) as [sock|] eqn:Hs;
      [|now left].
    destruct (ready_eqb (readyState sock) OPEN) eqn:Hr; [|now left].
    right. exists id, iv. repeat split; auto.
    unfold ready_of. rewrite Hs. simpl. destruct (readyState sock); try discriminate.
    reflexivity.
  - left. unfold elapse.
    match goal with |- context [fold_left _ ?due ?s1] =>
      destruct (fold_connect_effect due s1) as (_ & _ & H) end.
    exact H.
Qed.

End ChannelRunProps.

(** ** The presence tracker over any run of events *)

Module PresenceRunProps.
Import JS Presence PresenceView.
Local Open Scope list_scope.

Lemma clear_current_frame (st : State) :
  status (clear_current st) = status st
  /\ timerRef (clear_current st) = timerRef st
  /\ next_timer (clear_current st) = next_timer st
  /\ now (clear_current st) = now st
  /\ awaiting (clear_current st) = awaiting st
  /\ requests (clear_current st) = requests st
  /\ (forall t, In t (timers (clear_current st)) -> In t (timers st)).
Proof.
  unfold clear_current. destruct (timerRef st) as [id|] eqn:E; simpl;
    (do 6 (split; [first [reflexivity | exact E]|])); intros t Ht; [|exact Ht].
  now apply filter_In in Ht as [Ht _].
Qed.

Section Props.

Variable JSON_parse : string -> Completion JSValue.

Local Abbreviation handleMessage := (Presence.handleMessage JSON_parse).
Local Abbreviation step := (Presence.step JSON_parse).
Local Abbreviation run := (Presence.run JSON_parse).

Lemma handleMessage_frame (st : State) (f : string) :
  let st' := handleMessage st f in
  (status st' = checking -> st' = st)
  /\ (forall t, In t (timers st') -> In t (timers st))
  /\ timerRef st' = timerRef st /\ next_timer st' = next_timer st
  /\ now st' = now st /\ awaiting st' = awaiting st
  /\ requests st' = requests st.
Proof.
  intros st'. subst st'.
  destruct (PresenceProps.handleMessage_cases JSON_parse st f) as [-> | [-> | ->]];
    try (repeat split; auto; fail);
    match goal with |- context [clear_current ?x] =>
      destruct (clear_current_frame x) as (E1 & E2 & E3 & E4 & E5 & E6 & E7) end;
    rewrite E1, E2, E3, E4, E5, E6; simpl; repeat split; auto; discriminate.
Qed.

Lemma step_requests (h : Hook) (st : State) (ev : Event) :
  requests (step h st ev)
  = requests st ++ repeat (liveness_request h) (count_asks [ev]).
Proof.
  destruct ev as [| |f|dt]; simpl.
  - destruct (clear_current_frame (setStatus checking st)) as (_ & _ & _ & _ & _ & E & _).
    now rewrite E.
  - rewrite app_nil_r. unfold ask_resume. now destruct (awaiting st).
  - rewrite app_nil_r.
    destruct (PresenceProps.handleMessage_cases JSON_parse st f) as [-> | [-> | ->]];
      [reflexivity| |];
      match goal with |- requests (clear_current ?x) = _ =>
        destruct (clear_current_frame x) as (_ & _ & _ & _ & _ & E & _) end;
      now rewrite E.
  - rewrite app_nil_r. unfold elapse.
    match goal with |- requests (fold_left _ ?due ?s1) = _ =>
      destruct (PresenceProps.fold_offline_rest due s1) as (_ & _ & _ & _ & _ & E) end.
    now rewrite E.
Qed.

(** X8.  Over any run of events the tracker sends exactly one request per
    call of [ask] and none otherwise: no message, timeout or settled request
    sends one.  Every request goes to the hook's URL with the hook's device
    identifier, the path [askInfo] and the value [hi]. *)
Theorem one_request_per_check (h : Hook) (st : State) (evs : list Event) :
  requests (run h st evs)
  = requests st ++ repeat (liveness_request h) (count_asks evs).
Proof.
  unfold Presence.run. revert st.
  induction evs as [|ev evs IH]; intros st; simpl.
  - now rewrite app_nil_r.
  - rewrite IH, step_requests, <- app_assoc. f_equal.
    destruct ev; simpl; auto.
Qed.

(** X9.  A message leaves the tracker as it was, or settles the check: it
    sets [online] for an affirmative payload on the answer or the will
    topic, or [offline] for a negative payload on the will or the status
    topic.  It never sets [checking], never arms a timeout, and never sends
    a request or touches the clock; an answer never reports [offline] and the
    status topic never reports [online]. *)
Theorem messages_only_settle (st : State) (f : string) :
  let st' := handleMessage st f in
  (st' = st
   \/ (exists data,
         JSON_parse f = Normal data
         /\ st' = clear_current (setStatus online st)
         /\ isHi (get_opt data "payload") = true
         /\ (strict_eq_string (get_opt data "topic") "mod_1x1/d_000/answerInfo" = true
             \/ strict_eq_string (get_opt data "topic") "mod_1x1/d_000/will" = true))
   \/ (exists data,
         JSON_parse f = Normal data
         /\ st' = clear_current (setStatus offline st)
         /\ isBye (get_opt data "payload") = true
         /\ (strict_eq_string (get_opt data "topic") "mod_1x1/d_000/will" = true
             \/ strict_eq_string (get_opt data "topic") "mod_1x1/d_000/status" = true)))
  /\ (status st' = checking -> st' = st)
  /\ (forall t, In t (timers st') -> In t (timers st))
  /\ timerRef st' = timerRef st /\ next_timer st' = next_timer st
  /\ now st' = now st /\ awaiting st' = awaiting st
  /\ requests st' = requests st.
Proof.
  intros st'.
  assert (Hcases :
    st' = st
    \/ (exists data,
         JSON_parse f = Normal data
         /\ st' = clear_current (setStatus online st)
         /\ isHi (get_opt data "payload") = true
         /\ (strict_eq_string (get_opt data "topic") "mod_1x1/d_000/answerInfo" = true
             \/ strict_eq_string (get_opt data "topic") "mod_1x1/d_000/will" = true))
    \/ (exists data,
         JSON_parse f = Normal data
         /\ st' = clear_current (setStatus offline st)
         /\ isBye (get_opt data "payload") = true
         /\ (strict_eq_string (get_opt data "topic") "mod_1x1/d_000/will" = true
             \/ strict_eq_string (get_opt data "topic") "mod_1x1/d_000/status" = true))).
  { subst st'. unfold Presence.handleMessage, handleMessage_try.
    destruct (JSON_parse f) as [data|e] eqn:Hp; simpl; [|now left].
    destruct (strict_eq_string (get_opt data "topic") "mod_1x1/d_000/answerInfo") eqn:Ha;
    destruct (isHi (get_opt data "payload")) eqn:Hhi; simpl;
    try (right; left; exists data; repeat split; auto; fail);
    destruct (strict_eq_string (get_opt data "topic") "mod_1x1/d_000/will") eqn:Hw;
      simpl;
    try (right; left; exists data; repeat split; auto; fail);
    destruct (isBye (get_opt data "payload")) eqn:Hbye; simpl;
    try (right; right; exists data; repeat split; auto; fail);
    destruct (strict_eq_string (get_opt data "topic") "mod_1x1/d_000/status") eqn:Hs;
      simpl;
    try (right; right; exists data; repeat split; auto; fail);
    now left. }
  split; [exact Hcases|]. apply handleMessage_frame.
Qed.

(** While no request has settled nothing is armed. *)
Lemma unsettled_nothing_armed (h : Hook) (evs : list Event) :
  forallb (fun ev => negb (is_settle ev)) evs = true ->
  forall st, timers st = [] -> timerRef st = None ->
  timers (run h st evs) = [] /\ timerRef (run h st evs) = None
  /\ (forallb (fun ev => negb (is_message ev)) evs = true ->
      status st = checking -> status (run h st evs) = checking).
Proof.
  unfold Presence.run.
  induction evs as [|ev evs IH]; intros Hall st Ht Hr; simpl; [auto|].
  simpl in Hall. apply andb_true_iff in Hall as [Hev Hall].
  assert (Hstep : timers (step h st ev) = [] /\ timerRef (step h st ev) = None
                  /\ (is_message ev = false -> status st = checking ->
                      status (step h st ev) = checking)).
  { destruct ev as [| |f|dt]; simpl in *; try discriminate.
    - unfold clear_current. simpl. rewrite Hr. simpl. auto.
    - pose proof (handleMessage_frame st f) as HF. cbv zeta in HF.
      destruct HF as (_ & H1 & H2 & _).
      split; [|split; [congruence | discriminate]].
      destruct (timers (handleMessage st f)) as [|t l]; [reflexivity|].
      exfalso. specialize (H1 t (or_introl eq_refl)). rewrite Ht in H1.
      exact H1.
    - unfold elapse. rewrite Ht. simpl. auto. }
  destruct Hstep as (Ht' & Hr' & Hs').
  destruct (IH Hall _ Ht' Hr') as (G1 & G2 & G3).
  split; [exact G1|]. split; [exact G2|].
  intros Hmsg Hchk. simpl in Hmsg. apply andb_true_iff in Hmsg as [Hm Hmsg].
  apply G3; [exact Hmsg|]. apply Hs'; [|exact Hchk].
  now apply negb_true_iff in Hm.
Qed.

(** X10.  A timeout is armed only when a request settles.  So in a run from
    the start in which no request settles, nothing is ever pending, time
    passing changes nothing, and without a message the tracker stays
    [checking] however long it waits: a request that hangs is never reported
    as [offline]. *)
Theorem hung_request_never_times_out (h : Hook) (evs : list Event) :
  forallb (fun ev => negb (is_settle ev)) evs = true ->
  let st := run h init evs in
  timers st = []
  /\ (forall dt, status (elapse dt st) = status st)
  /\ (forallb (fun ev => negb (is_message ev)) evs = true -> status st = checking).
Proof.
  intros Hall st.
  destruct (unsettled_nothing_armed h evs Hall init eq_refl eq_refl)
    as (Ht & _ & Hs). fold st in Ht, Hs.
  split; [exact Ht|]. split.
  - intros dt. apply PresenceProps.elapse_idle. subst st. rewrite Ht. intros t [].
  - intros Hm. now apply Hs.
Qed.

End Props.

(** Witness of X10: a check, ten minutes, a recheck, an hour. *)
Lemma hung_request_never_times_out_witness :
  status (Presence.run JSON.parse Samples.hook_d000 init
            [Ask; Elapse 600000; Ask; Elapse 3600000]) = checking.
Proof.
  apply (hung_request_never_times_out JSON.parse Samples.hook_d000
           [Ask; Elapse 600000; Ask; Elapse 3600000] eq_refl).
  reflexivity.
Defined.

End PresenceRunProps.

(** ** The relay timeline *)

From Stdlib Require Import Sorted Permutation.

Module TimelineProps.
Import Timeline.
Local Open Scope list_scope.

Lemma find_index_none {A : Type} (p : A -> bool) (l : list A) :
  find_index p l = None <-> filter p l = [].
Proof.
  induction l as [|x l IH]; simpl; [tauto|].
  destruct (p x); [split; discriminate|].
  destruct (find_index p l) as [i|]; simpl.
  - split; [discriminate|]. intros H. apply IH in H. discriminate.
  - split; [intros _; now apply IH | reflexivity].
Qed.

Lemma open_count_zero (r : string) (l : list RelayInterval) :
  find_index (is_open_for r) l = None <-> open_count r l = 0.
Proof.
  unfold open_count. rewrite find_index_none.
  destruct (filter (is_open_for r) l); simpl; split; congruence.
Qed.

(** Closing the first open interval of [r] lowers the count for [r] by one
    and leaves every other relay's count as it was. *)
Lemma close_at_count (r r' : string) (now : Z) (l : list RelayInterval) (i : nat) :
  find_index (is_open_for r) l = Some i ->
  open_count r' (close_at i now l) + (if (r =? r')%string then 1 else 0)
  = open_count r' l.
Proof.
  unfold open_count. revert i. induction l as [|x l IH]; intros i H; simpl in H;
    [discriminate|].
  destruct (is_open_for r x) eqn:Hx.
  - injection H as <-. simpl. unfold is_open_for in *. simpl.
    apply andb_true_iff in Hx as [Hr He]. apply String.eqb_eq in Hr. subst r.
    rewrite andb_false_r. destruct (end_ x); [discriminate|].
    destruct (relay x =? r')%string; simpl; lia.
  - destruct (find_index (is_open_for r) l) as [j|]; [|discriminate].
    injection H as <-. simpl. specialize (IH j eq_refl).
    destruct (is_open_for r' x); simpl; lia.
Qed.

Lemma update_count (curr : list RelayInterval) (r r' : string) (on : bool) (now : Z) :
  open_count r' (updateIntervals curr r on now)
  = if (r =? r')%string
    then if on then Nat.max 1 (open_count r curr) else Nat.pred (open_count r curr)
    else open_count r' curr.
Proof.
  unfold updateIntervals.
  destruct (find_index (is_open_for r) curr) as [i|] eqn:Hf.
  - assert (Hpos : open_count r curr <> 0).
    { intros E. apply open_count_zero in E. congruence. }
    destruct on.
    + destruct (String.eqb_spec r r') as [<-|]; [lia | reflexivity].
    + pose proof (close_at_count r r' now curr i Hf) as H.
      destruct (String.eqb_spec r r') as [<-|]; lia.
  - apply open_count_zero in Hf. destruct on.
    + unfold open_count in *. simpl. unfold is_open_for at 1. simpl.
      rewrite andb_true_r.
      destruct (String.eqb_spec r r') as [<-|]; simpl; [now rewrite Hf | reflexivity].
    + destruct (String.eqb_spec r r') as [<-|]; [lia | reflexivity].
Qed.

(** X11.  Whatever reports arrive, in whatever order and with whatever
    clock, the timeline built from the empty one never has two open
    intervals for the same relay. *)
Theorem at_most_one_open_interval (reports : list (string * bool * Z)) (r : string) :
  open_count r (replay reports) <= 1.
Proof.
  unfold replay.
  assert (H : forall curr, (forall r', open_count r' curr <= 1) ->
                           forall r', open_count r'
                             (fold_left (fun c '(k, on, now) => updateIntervals c k on now)
                                        reports curr) <= 1).
  { induction reports as [|[[k on] now] reports IH]; intros curr Hc r'; simpl;
      [apply Hc|].
    apply IH. intros r''. rewrite update_count.
    pose proof (Hc k). pose proof (Hc r'').
    destruct (k =? r'')%string; [destruct on; lia | lia]. }
  apply H. intros r'. unfold open_count. simpl. lia.
Qed.

(** X12.  On a timeline with at most one open interval for a relay, a
    report for that relay sets its switch: after "on" the relay has exactly
    one open interval, after "off" it has none.  The report leaves every
    other relay's open intervals alone, and the same report again (at any
    later time) changes nothing. *)
Theorem report_sets_the_switch (curr : list RelayInterval) (r : string) (now : Z) :
  open_count r curr <= 1 ->
  open_count r (updateIntervals curr r true now) = 1
  /\ open_count r (updateIntervals curr r false now) = 0
  /\ (forall r' on, r' <> r ->
        open_count r' (updateIntervals curr r on now) = open_count r' curr)
  /\ (forall on now',
        updateIntervals (updateIntervals curr r on now) r on now'
        = updateIntervals curr r on now).
Proof.
  intros Hc. split; [|split; [|split]].
  - rewrite update_count, String.eqb_refl. lia.
  - rewrite update_count, String.eqb_refl. lia.
  - intros r' on Hne. rewrite update_count.
    destruct (String.eqb_spec r r'); [congruence | reflexivity].
  - intros on now'.
    pose proof (update_count curr r r on now) as H.
    rewrite String.eqb_refl in H.
    unfold updateIntervals at 1.
    destruct (find_index (is_open_for r) (updateIntervals curr r on now)) as [i|] eqn:Hf.
    + destruct on; [reflexivity|].
      assert (E : open_count r (updateIntervals curr r false now) = 0) by lia.
      apply open_count_zero in E. congruence.
    + destruct on; [|reflexivity].
      apply open_count_zero in Hf. lia.
Qed.

(** Witness of X12: relay k1 is on since 1000, k2 was on from 500 to 900. *)
Lemma report_sets_the_switch_witness :
  open_count "k1" (updateIntervals
                     [{| relay := "k1"; start := 1000; end_ := None |};
                      {| relay := "k2"; start := 500; end_ := Some 900%Z |}]
                     "k1" false 2000) = 0.
Proof.
  apply (report_sets_the_switch
           [{| relay := "k1"; start := 1000; end_ := None |};
            {| relay := "k2"; start := 500; end_ := Some 900%Z |}] "k1" 2000).
  vm_compute. lia.
Defined.

Lemma close_at_keeps (i : nat) (now : Z) (l : list RelayInterval) :
  map interval_key (close_at i now l) = map interval_key l
  /\ (forall it, In it l -> end_ it <> None -> In it (close_at i now l) \/
                                              nth_error l i = Some it).
Proof.
  revert i. induction l as [|x l IH]; intros i; simpl; [destruct i; auto|].
  destruct i as [|i]; simpl.
  - split; [reflexivity|]. intros it [<- | H] _; auto.
  - destruct (IH i) as [E H]. rewrite E. split; [reflexivity|].
    intros it [<- | Hin] Hne; [auto|]. destruct (H it Hin Hne); auto.
Qed.

Lemma find_index_nth {A : Type} (p : A -> bool) (l : list A) (i : nat) (x : A) :
  find_index p l = Some i -> nth_error l i = Some x -> p x = true.
Proof.
  revert i. induction l as [|y l IH]; intros i Hf Hn; simpl in Hf; [discriminate|].
  destruct (p y) eqn:Hy.
  - injection Hf as <-. simpl in Hn. congruence.
  - destruct (find_index p l) as [j|]; [|discriminate]. injection Hf as <-.
    simpl in Hn. eauto.
Qed.

(** X13.  A report never rewrites history: every closed interval stays in
    the timeline exactly as it was, no interval is removed, no relay name or
    start time changes, and at most one interval is added - at the front,
    starting now, and only by an "on" report for a relay that had no open
    interval. *)
Theorem report_keeps_history (curr : list RelayInterval) (r : string)
        (on : bool) (now : Z) :
  let next := updateIntervals curr r on now in
  (forall it, In it curr -> end_ it <> None -> In it next)
  /\ (map interval_key next = map interval_key curr
      \/ (map interval_key next = (r, now) :: map interval_key curr
          /\ on = true /\ open_count r curr = 0)).
Proof.
  intros next. subst next. unfold updateIntervals.
  destruct (find_index (is_open_for r) curr) as [i|] eqn:Hf.
  - destruct on; [split; auto|].
    destruct (close_at_keeps i now curr) as [E H]. split; [|now left].
    intros it Hin Hne. destruct (H it Hin Hne) as [Hin'|Hn]; [exact Hin'|].
    pose proof (find_index_nth _ _ _ _ Hf Hn) as Hopen.
    unfold is_open_for in Hopen. destruct (end_ it); [|congruence].
    now rewrite andb_false_r in Hopen.
  - destruct on; [|split; auto]. split.
    + intros it Hin _. now right.
    + right. repeat split. now apply open_count_zero.
Qed.

(** *** The chart rows *)

Lemma insert_number_perm (x : Z) (l : list Z) :
  Permutation (insert_number x l) (x :: l).
Proof.
  induction l as [|y l IH]; simpl; [reflexivity|].
  destruct (x <=? y)%Z; [reflexivity|].
  rewrite IH. apply perm_swap.
Qed.

Lemma sort_numbers_perm (l : list Z) : Permutation (sort_numbers l) l.
Proof.
  induction l as [|x l IH]; simpl; [reflexivity|].
  rewrite insert_number_perm. now constructor.
Qed.

Lemma insert_number_sorted (x : Z) (l : list Z) :
  Sorted Z.le l -> Sorted Z.le (insert_number x l).
Proof.
  induction 1 as [|y l Hl IH Hhd]; simpl; [repeat constructor|].
  destruct (x <=? y)%Z eqn:E.
  - constructor; [now constructor|]. constructor. now apply Z.leb_le.
  - apply Z.leb_gt in E. constructor; [exact IH|].
    destruct l as [|z l]; simpl.
    + constructor. lia.
    + inversion Hhd; subst. destruct (x <=? z)%Z; constructor; lia.
Qed.

Lemma sort_numbers_sorted (l : list Z) : Sorted Z.le (sort_numbers l).
Proof.
  induction l as [|x l IH]; simpl; [constructor|].
  now apply insert_number_sorted.
Qed.

(** X14.  The chart has no rows for an empty timeline.  Otherwise its sample
    times are every start and every non-zero end, in ascending order, then
    the present moment; every row has one cell for each of k1, k2, k3, k4 in
    that order, worth 0 or 1; and a relay with no interval of its own is 0 in
    every row. *)
Theorem chart_rows_shape (intervals : list RelayInterval) (now : Z) :
  let rows := buildTimelineData intervals now in
  (intervals = [] -> rows = [])
  /\ (intervals <> [] ->
      exists sorted,
        map time rows = sorted ++ [now]
        /\ Sorted Z.le sorted
        /\ Permutation sorted (sample_times intervals))
  /\ Forall (fun row =>
               map fst (cells row) = chart_relays
               /\ Forall (fun c => snd c = 0%Z \/ snd c = 1%Z) (cells row))
            rows
  /\ (forall r row v,
        In row rows -> In (r, v) (cells row) ->
        (forall iv, In iv intervals -> relay iv <> r) -> v = 0%Z).
Proof.
  intros rows. subst rows. unfold buildTimelineData.
  split; [|split; [|split]].
  - intros ->. reflexivity.
  - intros Hne. exists (sort_numbers (sample_times intervals)).
    split; [|split; [apply sort_numbers_sorted | apply sort_numbers_perm]].
    destruct (sample_times intervals) as [|t ts] eqn:E.
    + destruct intervals; [congruence | cbn in E; discriminate E].
    + rewrite map_map. unfold row_at. simpl time. apply map_id.
  - destruct (sample_times intervals); [constructor|].
    apply Forall_forall. intros row Hrow. apply in_map_iff in Hrow as (t & <- & _).
    unfold row_at. cbn [cells]. split; [now rewrite map_map, map_id|].
    apply Forall_forall. intros c Hc. apply in_map_iff in Hc as (k & <- & _).
    cbn [snd]. destruct (existsb (covers k t) intervals); auto.
  - intros r row v Hrow Hcell Hnone.
    destruct (sample_times intervals); [contradiction|].
    apply in_map_iff in Hrow as (t & <- & _).
    unfold row_at in Hcell. cbn [cells] in Hcell.
    apply in_map_iff in Hcell as (k & E & _). injection E as E1 E2. subst k v.
    replace (existsb (covers r t) intervals) with false; [reflexivity|].
    symmetry. apply not_true_is_false. intros Hex.
    apply existsb_exists in Hex as (iv & Hin & Hcov).
    unfold covers in Hcov. apply andb_true_iff in Hcov as [Hcov _].
    apply andb_true_iff in Hcov as [Hrel _]. apply String.eqb_eq in Hrel.
    exact (Hnone iv Hin Hrel).
Qed.

End TimelineProps.

(** ** The relay panel *)

Module PanelProps.
Import JS Timeline Panel.
Local Open Scope list_scope.

Lemma starts_with_iff (sub s : string) :
  starts_with sub s = true <-> exists post, s = (sub ++ post)%string.
Proof.
  revert s. induction sub as [|c sub IH]; intros s; simpl.
  - split; [intros _; now exists s | reflexivity].
  - destruct s as [|d s]; [split; [discriminate | intros (post & E); discriminate]|].
    rewrite andb_true_iff, Ascii.eqb_eq, IH. split.
    + intros [-> (post & ->)]. now exists post.
    + intros (post & E). injection E as -> ->. split; [reflexivity | now exists post].
Qed.

Lemma append_assoc (a b c : string) :
  ((a ++ b) ++ c = a ++ (b ++ c))%string.
Proof. induction a as [|x a IH]; simpl; [reflexivity | now rewrite IH]. Qed.

(** [includes] finds the text anywhere. *)
Lemma includes_iff (s sub : string) :
  includes s sub = true <-> exists pre post, s = (pre ++ sub ++ post)%string.
Proof.
  induction s as [|c s IH]; simpl.
  - rewrite orb_false_r, starts_with_iff. split.
    + intros (post & E). now exists ""%string, post.
    + intros (pre & post & E). destruct pre; [now exists post | discriminate].
  - rewrite orb_true_iff, starts_with_iff, IH. split.
    + intros [(post & E) | (pre & post & ->)].
      * now exists ""%string, post.
      * now exists (String c pre), post.
    + intros (pre & post & E). destruct pre as [|x pre]; simpl in E.
      * left. now exists post.
      * right. injection E as -> ->. now exists pre, post.
Qed.

(** X18.  A status or feedback payload counts as "on" exactly when one of
    the texts [on], [1], [true] occurs somewhere in it, letter case ignored.
    So [on], [ON], [1] and [true] are on, [off], [0], [false] and the empty
    payload are off - and a longer text that merely contains one of the three,
    such as [none], counts as on too. *)
Theorem on_test_is_containment (p : string) :
  (on_test p = true <->
   exists pre tok post,
     In tok ["on"; "1"; "true"]%string
     /\ toLowerCase p = (pre ++ tok ++ post)%string)
  /\ (on_test "on" = true /\ on_test "ON" = true /\ on_test "1" = true
      /\ on_test "true" = true /\ on_test "none" = true)
  /\ (on_test "off" = false /\ on_test "0" = false /\ on_test "false" = false
      /\ on_test "" = false).
Proof.
  split; [|vm_compute; repeat split].
  unfold on_test. cbv zeta. rewrite !orb_true_iff, !includes_iff. split.
  - intros [[(pre & post & E) | (pre & post & E)] | (pre & post & E)];
      [exists pre, "on"%string, post | exists pre, "1"%string, post
       | exists pre, "true"%string, post]; (split; [simpl; auto | exact E]).
  - intros (pre & tok & post & Hin & E). simpl in Hin.
    destruct Hin as [<- | [<- | [<- | []]]]; eauto.
Qed.

Lemma get_key_replace {V : Type} (k k' : string) (v : V) (m : list (string * V)) :
  has_key k m = true ->
  get_key k' (replace_key k v m) = if (k =? k')%string then Some v else get_key k' m.
Proof.
  induction m as [|[a w] m IH]; simpl; [discriminate|]. intros H.
  destruct (String.eqb_spec a k) as [->|Hak]; simpl.
  - destruct (String.eqb_spec k k'); reflexivity.
  - simpl in H. rewrite (IH H).
    destruct (String.eqb_spec a k') as [->|]; [|reflexivity].
    destruct (String.eqb_spec k k'); [congruence | reflexivity].
Qed.

Lemma get_key_insert {V : Type} (k k' : string) (v : V) (m : list (string * V)) :
  has_key k m = false ->
  get_key k' (insert_key k v m) = if (k =? k')%string then Some v else get_key k' m.
Proof.
  induction m as [|[a w] m IH]; simpl; intros H.
  - destruct (k =? k')%string; reflexivity.
  - apply orb_false_iff in H as [Hak H]. apply String.eqb_neq in Hak.
    destruct (JSON.key_before k a); simpl.
    + destruct (k =? k')%string; reflexivity.
    + rewrite (IH H). destruct (String.eqb_spec a k') as [->|]; [|reflexivity].
      destruct (String.eqb_spec k k'); [congruence | reflexivity].
Qed.

(** Reading a map after [{ ...m, [k]: v }]. *)
Lemma get_key_set_key {V : Type} (k k' : string) (v : V) (m : list (string * V)) :
  get_key k' (set_key k v m) = if (k =? k')%string then Some v else get_key k' m.
Proof.
  unfold set_key. destruct (has_key k m) eqn:H;
    [now apply get_key_replace | now apply get_key_insert].
Qed.

(** The watchdog writes [online] and nothing else. *)
Lemma watchdog_keeps (t : Z) (s : RelayState) :
  status (watchdog_state t s) = status s.
Proof.
  unfold watchdog_state. destruct (lastHeartbeat s) as [hb|]; [|reflexivity].
  destruct (hb =? 0)%Z; [reflexivity|].
  destruct (_ && _); reflexivity.
Qed.

Lemma watchdog_frame (t : Z) (s : RelayState) :
  lastHeartbeat (watchdog_state t s) = lastHeartbeat s
  /\ rx (watchdog_state t s) = rx s
  /\ names (watchdog_state t s) = names s.
Proof.
  unfold watchdog_state. destruct (lastHeartbeat s) as [hb|] eqn:E; [|auto].
  destruct (hb =? 0)%Z; [auto|].
  destruct (_ && _); simpl; auto.
Qed.

Lemma ticks_online (t0 : Z) (n : nat) (s : RelayState) (hb : Z) :
  lastHeartbeat s = Some hb -> hb <> 0%Z -> online s <> Known false ->
  online (ticks t0 n s)
  = (if (0 <? n)%nat && (35000 <? t0 + 5000 * Z.of_nat n - hb)%Z
     then Known false else online s)
  /\ lastHeartbeat (ticks t0 n s) = Some hb.
Proof.
  intros Hhb Hnz Hon. induction n as [|n [IH1 IH2]]; [simpl; auto|].
  cbn [ticks]. destruct (watchdog_frame (t0 + watchdog_period * Z.of_nat (S n))
                           (ticks t0 n s)) as (E & _).
  split; [|congruence].
  unfold watchdog_state. rewrite IH2.
  destruct (Z.eqb_spec hb 0) as [|_]; [contradiction|].
  cbv zeta. unfold watchdog_period. change (35 * 1000)%Z with 35000%Z.
  change (0 <? S n)%nat with true. cbn [andb].
  destruct (35000 <? t0 + 5000 * Z.of_nat (S n) - hb)%Z eqn:Enew; cbn [andb].
  - destruct (online (ticks t0 n s)) as [[|]|] eqn:Eon;
      first [reflexivity | exact Eon].
  - rewrite IH1.
    destruct ((0 <? n)%nat && (35000 <? t0 + 5000 * Z.of_nat n - hb)%Z) eqn:Eold;
      [|reflexivity].
    apply andb_true_iff in Eold as [_ Eold].
    apply Z.ltb_lt in Eold. apply Z.ltb_ge in Enew. lia.
Qed.

(** X16.  With the last heartbeat at [hb] and no further message, the
    watchdog marks the device offline at the first tick that comes more than
    35000 ms after [hb], and not before; it changes nothing else.  When the
    ticks run 5000 ms apart from a start no later than 35000 ms after the
    heartbeat, that tick comes more than 35000 and at most 40000 ms after the
    heartbeat. *)
Theorem watchdog_detection_window (t0 : Z) (s : RelayState) (hb : Z) :
  lastHeartbeat s = Some hb -> hb <> 0%Z -> online s <> Known false ->
  (forall n,
     online (ticks t0 n s)
     = (if (0 <? n)%nat && (35000 <? t0 + 5000 * Z.of_nat n - hb)%Z
        then Known false else online s)
     /\ lastHeartbeat (ticks t0 n s) = Some hb)
  /\ ((t0 <= hb + 35000)%Z ->
      exists n,
        online (ticks t0 n s) = Known false
        /\ (35000 < t0 + 5000 * Z.of_nat n - hb <= 40000)%Z
        /\ forall m, (m < n)%nat -> online (ticks t0 m s) = online s).
Proof.
  intros Hhb Hnz Hon. split; [intros n; now apply ticks_online|].
  intros Hstart.
  set (x := (hb + 35000 - t0)%Z).
  assert (Hx : (0 <= x)%Z) by (unfold x; lia).
  exists (Z.to_nat (x / 5000 + 1)).
  assert (Hq : (0 <= x / 5000)%Z) by (apply Z.div_pos; lia).
  pose proof (Z.div_mod x 5000 ltac:(lia)) as Hdm.
  pose proof (Z.mod_pos_bound x 5000 ltac:(lia)) as Hmod.
  assert (Hn : Z.of_nat (Z.to_nat (x / 5000 + 1)) = (x / 5000 + 1)%Z)
    by (apply Z2Nat.id; lia).
  assert (Hwin : (35000 < t0 + 5000 * Z.of_nat (Z.to_nat (x / 5000 + 1)) - hb
                  <= 40000)%Z).
  { rewrite Hn. unfold x in *. lia. }
  split; [|split; [exact Hwin|]].
  - destruct (ticks_online t0 (Z.to_nat (x / 5000 + 1)) s hb Hhb Hnz Hon) as [E _].
    rewrite E.
    replace (0 <? Z.to_nat (x / 5000 + 1))%nat with true
      by (symmetry; apply Nat.ltb_lt; lia).
    replace (35000 <? t0 + 5000 * Z.of_nat (Z.to_nat (x / 5000 + 1)) - hb)%Z
      with true by (symmetry; apply Z.ltb_lt; lia).
    reflexivity.
  - intros m Hm. destruct (ticks_online t0 m s hb Hhb Hnz Hon) as [E _].
    rewrite E.
    replace (35000 <? t0 + 5000 * Z.of_nat m - hb)%Z with false;
      [now rewrite andb_false_r|].
    symmetry. apply Z.ltb_ge.
    assert (Z.of_nat m <= x / 5000)%Z by lia. unfold x in *. lia.
Qed.

(** Witness of X16: heartbeat at 1000000, watchdog started at 998000. *)
Lemma watchdog_detection_window_witness :
  online (ticks 998000 7
            {| online := Known true; lastHeartbeat := Some 1000000%Z;
               rx := []; status := []; names := [] |}) = Known true
  /\ online (ticks 998000 8
               {| online := Known true; lastHeartbeat := Some 1000000%Z;
                  rx := []; status := []; names := [] |}) = Known false.
Proof.
  destruct (watchdog_detection_window 998000
              {| online := Known true; lastHeartbeat := Some 1000000%Z;
                 rx := []; status := []; names := [] |} 1000000
              eq_refl ltac:(discriminate) ltac:(discriminate)) as [H _].
  split; [exact (proj1 (H 7%nat)) | exact (proj1 (H 8%nat))].
Defined.

Section Props.

Variable Number_ : string -> option Z.
Variable device : string.

Local Abbreviation step := (Panel.step Number_ device).
Local Abbreviation run := (Panel.run Number_ device).

Lemma agrees_step (pn : Panel) (ev : Event) : agrees pn -> agrees (step pn ev).
Proof.
  intros H. destruct ev as [p t|p|k p t1 t2|k p t|t]; simpl; try exact H.
  - unfold on_lwt. destruct (lwt_test p); exact H.
  - intros key. unfold on_status. simpl.
    rewrite TimelineProps.update_count. unfold flag. rewrite get_key_set_key.
    destruct (H key) as [Hk Hf]. destruct (H k) as [Hk' _].
    destruct (String.eqb_spec k key) as [->|].
    + destruct (on_test p); split; try lia.
      * destruct (open_count key (intervals pn)) as [|[|n]]; simpl; reflexivity || lia.
      * destruct (open_count key (intervals pn)) as [|[|n]]; simpl; reflexivity || lia.
    + split; [exact Hk | exact Hf].
  - intros key. unfold watchdog. cbn [intervals state].
    rewrite watchdog_keeps. apply H.
Qed.

(** X15.  After any run of callbacks from the initial panel, the switch
    shown for a relay and its timeline agree: the relay's status flag is set
    exactly when the timeline has an open interval for it, and there is never
    more than one.  Feedback, heartbeats, last wills and the watchdog touch
    neither. *)
Theorem switch_agrees_with_timeline (evs : list Event) (key : string) :
  let pn := run initial evs in
  open_count key (intervals pn) <= 1
  /\ flag key (status (state pn)) = (open_count key (intervals pn) =? 1)%nat.
Proof.
  assert (H : forall pn, agrees pn -> agrees (run pn evs)).
  { unfold Panel.run. induction evs as [|ev evs IH]; intros pn Hpn; simpl;
      [exact Hpn|]. apply IH. now apply agrees_step. }
  apply H. intros k. split; [unfold open_count; simpl; lia | reflexivity].
Qed.

Lemma silent_step (pn : Panel) (ev : Event) :
  is_heartbeat ev = false ->
  lastHeartbeat (state pn) = None ->
  lastHeartbeat (state (step pn ev)) = None
  /\ (online (state (step pn ev)) = online (state pn)
      \/ (online (state (step pn ev)) = Known false
          /\ exists p, ev = LastWill p /\ lwt_test p = true)).
Proof.
  intros Hev Hhb. destruct ev as [p t|p|k p t1 t2|k p t|t]; simpl in *;
    try discriminate; auto.
  - unfold on_lwt. destruct (lwt_test p) eqn:E; simpl; [|auto].
    split; [exact Hhb|]. right. split; [reflexivity|]. now exists p.
  - unfold watchdog_state. rewrite Hhb. auto.
Qed.

(** X17.  Only a heartbeat brings the device online.  In a run from the
    initial panel with no heartbeat, the device is never shown online: it
    stays unknown, or offline once a last will containing [offline] has
    arrived; and the watchdog, having no heartbeat to measure from, never
    changes anything. *)
Theorem never_online_without_heartbeat (evs : list Event) :
  forallb (fun ev => negb (is_heartbeat ev)) evs = true ->
  let pn := run initial evs in
  lastHeartbeat (state pn) = None
  /\ (online (state pn) = Unknown
      \/ (online (state pn) = Known false
          /\ exists p, In (LastWill p) evs /\ lwt_test p = true))
  /\ (forall t, watchdog t pn = pn).
Proof.
  intros Hall pn.
  assert (H : forall start,
             lastHeartbeat (state start) = None ->
             lastHeartbeat (state (run start evs)) = None
             /\ (online (state (run start evs)) = online (state start)
                 \/ (online (state (run start evs)) = Known false
                     /\ exists p, In (LastWill p) evs /\ lwt_test p = true))).
  { unfold Panel.run. clear pn.
    induction evs as [|ev evs IH]; intros start Hs; simpl; [auto|].
    simpl in Hall. apply andb_true_iff in Hall as [Hev Hall].
    apply negb_true_iff in Hev.
    destruct (silent_step start ev Hev Hs) as [Hs' Hon].
    destruct (IH Hall _ Hs') as [G1 G2]. split; [exact G1|].
    destruct G2 as [G2 | (G2 & p & Hin & Hp)].
    - destruct Hon as [Hon | (Hon & p & -> & Hp)].
      + left. congruence.
      + right. split; [congruence|]. exists p. split; [now left | exact Hp].
    - right. split; [exact G2|]. exists p. split; [now right | exact Hp]. }
  destruct (H initial eq_refl) as [H1 H2]. fold pn in H1, H2.
  split; [exact H1|]. split; [exact H2|].
  intros t. unfold watchdog, watchdog_state. rewrite H1. now destruct pn.
Qed.

End Props.

(** Witness of X17: two status reports, a last will, watchdog ticks. *)
Lemma never_online_without_heartbeat_witness :
  online (state (Panel.run (fun _ => None) "d_000" initial
                   [Status "k1" "on" 10 10; WatchdogTick 5000;
                    LastWill "OFFLINE"; WatchdogTick 10000]))
  = Known false.
Proof.
  destruct (never_online_without_heartbeat (fun _ => None) "d_000"
              [Status "k1" "on" 10 10; WatchdogTick 5000;
               LastWill "OFFLINE"; WatchdogTick 10000] eq_refl)
    as (_ & [H | [H _]] & _); [vm_compute in H; discriminate H | exact H].
Defined.

End PanelProps.

(** ** The development MQTT client *)

Module MqttProps.
Import JS Mqtt.
Local Open Scope list_scope.

Lemma endsWith_app (base suffix : string) :
  endsWith (base ++ suffix) suffix = true.
Proof.
  induction base as [|c b IH]; cbn [append endsWith].
  - destruct suffix; cbn [endsWith]; now rewrite String.eqb_refl.
  - rewrite IH. apply orb_true_r.
Qed.

Lemma length_append (a b : string) :
  String.length (a ++ b) = String.length a + String.length b.
Proof. induction a as [|c a IH]; simpl; [reflexivity | now rewrite IH]. Qed.

Lemma longer_differs (c : ascii) (b suffix : string) :
  (String c (b ++ suffix) =? suffix)%string = false.
Proof.
  apply String.eqb_neq. intros E.
  apply (f_equal String.length) in E. simpl in E. rewrite length_append in E. lia.
Qed.

Lemma replace_suffix_app (base suffix replacement : string) :
  replace_suffix (base ++ suffix) suffix replacement
  = (base ++ replacement)%string.
Proof.
  induction base as [|c b IH].
  - cbn [append]. destruct suffix; cbn [replace_suffix];
      now rewrite String.eqb_refl.
  - cbn [append replace_suffix]. now rewrite longer_differs, IH.
Qed.

Lemma endsWith_length (s suffix : string) :
  endsWith s suffix = true -> String.length suffix <= String.length s.
Proof.
  induction s as [|c s IH]; cbn [endsWith]; intros H.
  - rewrite orb_false_r in H. apply String.eqb_eq in H. subst suffix. simpl. lia.
  - apply orb_true_iff in H as [H | H].
    + apply String.eqb_eq in H. subst suffix. simpl. lia.
    + apply IH in H. simpl. lia.
Qed.

(** Of two endings of one text, the shorter is an ending of the longer. *)
Lemma endings_nest (s a b : string) :
  endsWith s a = true -> endsWith s b = true ->
  String.length a <= String.length b -> endsWith b a = true.
Proof.
  induction s as [|c s IH]; intros Ha Hb Hlen.
  - cbn [endsWith] in Ha, Hb. rewrite orb_false_r in Ha, Hb.
    apply String.eqb_eq in Ha, Hb. subst. reflexivity.
  - cbn [endsWith] in Ha, Hb.
    apply orb_true_iff in Hb as [Hb | Hb].
    + apply String.eqb_eq in Hb. subst b.
      cbn [endsWith]. exact Ha.
    + apply orb_true_iff in Ha as [Ha | Ha].
      * apply String.eqb_eq in Ha. subst a.
        apply endsWith_length in Hb. simpl in Hlen. lia.
      * now apply IH.
Qed.

Lemma other_ending_short (base a b : string) :
  String.length a <= String.length b -> endsWith b a = false ->
  endsWith (base ++ a) b = false.
Proof.
  intros H1 H2. apply not_true_is_false. intros Hb.
  pose proof (endsWith_app base a) as Ha.
  rewrite (endings_nest _ _ _ Ha Hb H1) in H2. discriminate.
Qed.

Lemma other_ending_long (base a b : string) :
  String.length b <= String.length a -> endsWith a b = false ->
  endsWith (base ++ a) b = false.
Proof.
  intros H1 H2. apply not_true_is_false. intros Hb.
  pose proof (endsWith_app base a) as Ha.
  rewrite (endings_nest _ _ _ Hb Ha H1) in H2. discriminate.
Qed.

Ltac other_end :=
  first [ apply other_ending_short; [vm_compute; lia || (simpl; lia) | reflexivity]
        | apply other_ending_long; [simpl; lia | reflexivity] ].

(** X19.  What the development client echoes for a publication depends on
    the ending of the topic alone, and the four endings exclude each other:
    a command on [<base>/cmd] comes back on [<base>/feedback] and then on
    [<base>/status] with the same payload; [programs/get] answers on
    [programs/list]; [programs/set] and [programs/del] both answer on
    [programs/ack]; any other topic echoes nothing.  For each relay of the
    device list, a command on its [cmdTopic] comes back on its own
    [feedbackTopic] and [statusTopic]. *)
Theorem echo_by_ending :
  (forall base p,
     echo (base ++ "/cmd") p
     = [((base ++ "/feedback")%string, p); ((base ++ "/status")%string, p)])
  /\ (forall base p,
        echo (base ++ "/programs/get") p
        = [((base ++ "/programs/list")%string, program_list)])
  /\ (forall base p,
        echo (base ++ "/programs/set") p = [((base ++ "/programs/ack")%string, p)])
  /\ (forall base p,
        echo (base ++ "/programs/del") p = [((base ++ "/programs/ack")%string, p)])
  /\ (forall topic p,
        endsWith topic "/cmd" = false -> endsWith topic "/programs/get" = false ->
        endsWith topic "/programs/set" = false ->
        endsWith topic "/programs/del" = false ->
        echo topic p = [])
  /\ (forall r p,
        In r device_relays ->
        echo (cmdTopic r) p = [(feedbackTopic r, p); (statusTopic r, p)]).
Proof.
  assert (Hcmd : forall base p,
     echo (base ++ "/cmd") p
     = [((base ++ "/feedback")%string, p); ((base ++ "/status")%string, p)]).
  { intros base p. unfold echo.
    rewrite endsWith_app, replace_suffix_app.
    replace (endsWith (base ++ "/cmd") "/programs/get") with false
      by (symmetry; other_end).
    replace (endsWith (base ++ "/cmd") "/programs/set") with false
      by (symmetry; other_end).
    replace (endsWith (base ++ "/cmd") "/programs/del") with false
      by (symmetry; other_end).
    cbv zeta. simpl app.
    replace (base ++ "")%string with base; [reflexivity|].
    clear. induction base as [|c b IH]; simpl; [reflexivity | now rewrite <- IH]. }
  split; [exact Hcmd|]. split; [|split; [|split; [|split]]].
  - intros base p. unfold echo.
    rewrite (endsWith_app base "/programs/get").
    replace (endsWith (base ++ "/programs/get") "/cmd") with false
      by (symmetry; other_end).
    replace (endsWith (base ++ "/programs/get") "/programs/set") with false
      by (symmetry; other_end).
    replace (endsWith (base ++ "/programs/get") "/programs/del") with false
      by (symmetry; other_end).
    simpl app.
    replace (base ++ "/programs/get")%string
      with ((base ++ "/programs/") ++ "get")%string
      by (now rewrite PanelProps.append_assoc).
    rewrite replace_suffix_app, PanelProps.append_assoc. reflexivity.
  - intros base p. unfold echo.
    rewrite (endsWith_app base "/programs/set").
    replace (endsWith (base ++ "/programs/set") "/cmd") with false
      by (symmetry; other_end).
    replace (endsWith (base ++ "/programs/set") "/programs/get") with false
      by (symmetry; other_end).
    replace (endsWith (base ++ "/programs/set") "/programs/del") with false
      by (symmetry; other_end).
    simpl app.
    replace (base ++ "/programs/set")%string
      with ((base ++ "/programs/") ++ "set")%string
      by (now rewrite PanelProps.append_assoc).
    rewrite replace_suffix_app, PanelProps.append_assoc. reflexivity.
  - intros base p. unfold echo.
    rewrite (endsWith_app base "/programs/del").
    replace (endsWith (base ++ "/programs/del") "/cmd") with false
      by (symmetry; other_end).
    replace (endsWith (base ++ "/programs/del") "/programs/get") with false
      by (symmetry; other_end).
    replace (endsWith (base ++ "/programs/del") "/programs/set") with false
      by (symmetry; other_end).
    simpl app.
    replace (base ++ "/programs/del")%string
      with ((base ++ "/programs/") ++ "del")%string
      by (now rewrite PanelProps.append_assoc).
    rewrite replace_suffix_app, PanelProps.append_assoc. reflexivity.
  - intros topic p H1 H2 H3 H4. unfold echo. now rewrite H1, H2, H3, H4.
  - intros r p Hin. unfold device_relays in Hin. simpl in Hin.
    destruct Hin as [<- | [<- | [<- | [<- | []]]]];
      match goal with |- echo (cmdTopic (relay_config ?i)) _ = _ =>
        exact (Hcmd ("mod_1x1/d_000/k" ++ num_to_string i)%string p) end.
Qed.

(** *** Subscriptions *)

Section Subscriptions.

Variable H : Type.

Local Abbreviation World := (Mqtt.World H).

Local Abbreviation matching := (Mqtt.matching H).

Lemma matching_absent (topic payload : string) (m : list (string * H)) :
  ~ In topic (map fst m) -> matching topic payload m = [].
Proof.
  induction m as [|[k v] m IH]; simpl; intros Hn; [reflexivity|].
  destruct (String.eqb_spec k topic) as [->|].
  - exfalso. apply Hn. now left.
  - simpl. apply IH. intros Hin. apply Hn. now right.
Qed.

Lemma map_set_keys (k : string) (v : H) (m : list (string * H)) (x : string) :
  In x (map fst (map_set H k v m)) <-> x = k \/ In x (map fst m).
Proof.
  induction m as [|[k' v'] m IH]; simpl; [intuition congruence|].
  destruct (String.eqb_spec k' k) as [->|]; simpl; [intuition congruence|].
  rewrite IH. intuition congruence.
Qed.

Lemma map_set_nodup (k : string) (v : H) (m : list (string * H)) :
  NoDup (map fst m) -> NoDup (map fst (map_set H k v m)).
Proof.
  induction m as [|[k' v'] m IH]; simpl; intros Hnd.
  - repeat constructor. intros [].
  - inversion Hnd as [|? ? Hnotin Hnd']; subst.
    destruct (String.eqb_spec k' k) as [->|Hne]; simpl.
    + now constructor.
    + constructor; [|auto]. rewrite map_set_keys. intros [E | Hin]; congruence.
Qed.

Lemma matching_map_set (topic topic' payload : string) (cb : H)
      (m : list (string * H)) :
  NoDup (map fst m) ->
  matching topic' payload (map_set H topic cb m)
  = if (topic =? topic')%string then [(cb, topic', payload)]
    else matching topic' payload m.
Proof.
  induction m as [|[k v] m IH]; simpl; intros Hnd.
  - destruct (String.eqb_spec topic topic'); reflexivity.
  - inversion Hnd as [|? ? Hnotin Hnd']; subst.
    destruct (String.eqb_spec k topic) as [->|Hne]; simpl.
    + destruct (String.eqb_spec topic topic') as [->|]; [|reflexivity].
      simpl. now rewrite (matching_absent topic' payload m Hnotin).
    + rewrite (IH Hnd').
      destruct (String.eqb_spec k topic') as [->|]; [|reflexivity].
      destruct (String.eqb_spec topic topic'); [congruence | reflexivity].
Qed.

Lemma emit_all_subs (out : list (string * string)) (w : World) :
  subs H (emit_all H out w) = subs H w.
Proof.
  revert w. induction out as [|e out IH]; intros w; simpl; [reflexivity|].
  unfold emit_all in *. simpl. now rewrite IH.
Qed.

Lemma fold_echo_subs (due : list (N * string * string)) (w : World) :
  subs H (fold_left (fun acc x => emit_all H (echo (snd (fst x)) (snd x)) acc)
                    due w) = subs H w.
Proof.
  revert w. induction due as [|x due IH]; intros w; simpl; [reflexivity|].
  rewrite IH. apply emit_all_subs.
Qed.

Lemma step_subs_nodup (w : World) (op : Op H) :
  NoDup (map fst (subs H w)) -> NoDup (map fst (subs H (step H w op))).
Proof.
  intros Hnd. destruct op as [| |t p|t cb|t|dt|id]; simpl; auto.
  - constructor.
  - now apply map_set_nodup.
  - unfold map_delete. clear -Hnd.
    induction (subs H w) as [|[k v] m IH]; simpl; [constructor|].
    inversion Hnd as [|? ? Hnotin Hnd']; subst.
    destruct (negb (k =? t)%string); simpl; [|auto].
    constructor; [|auto]. intros Hin. apply Hnotin.
    apply in_map_iff in Hin as (e & E & He). apply filter_In in He as [He _].
    apply in_map_iff. now exists e.
  - unfold elapse. rewrite fold_echo_subs. exact Hnd.
  - unfold heartbeat_tick. destruct (existsb _ _); auto.
Qed.

(** X21.  After any run of operations, the client holds one callback per
    topic: a publication on a topic runs the callback subscribed last for
    exactly that topic, once, and nothing after an unsubscribe of that topic
    or after a disconnect; subscribing to one topic changes nothing for
    another. *)
Theorem newest_subscription_only (ops : list (Op H)) (topic payload : string)
        (cb : H) :
  let w := run H (start H) ops in
  calls H (emit H topic payload (subscribe H topic cb w))
    = calls H w ++ [(cb, topic, payload)]
  /\ calls H (emit H topic payload (unsubscribe H topic w)) = calls H w
  /\ calls H (emit H topic payload (disconnect H w)) = calls H w
  /\ (forall other, other <> topic ->
        calls H (emit H other payload (subscribe H topic cb w))
        = calls H (emit H other payload w)).
Proof.
  intros w.
  assert (Hnd : NoDup (map fst (subs H w))).
  { subst w. unfold run.
    assert (G : forall w0, NoDup (map fst (subs H w0)) ->
                           NoDup (map fst (subs H (fold_left (step H) ops w0)))).
    { induction ops as [|op ops IH]; intros w0 H0; simpl; [exact H0|].
      apply IH. now apply step_subs_nodup. }
    apply G. constructor. }
  unfold emit, subscribe, unsubscribe, disconnect. simpl.
  fold (matching topic payload (map_set H topic cb (subs H w))).
  split; [|split; [|split]].
  - now rewrite matching_map_set, String.eqb_refl.
  - rewrite <- (app_nil_r (calls H w)) at 2. f_equal.
    apply matching_absent. unfold map_delete. intros Hin.
    apply in_map_iff in Hin as (e & E & He). apply filter_In in He as [_ He].
    rewrite E, String.eqb_refl in He. discriminate.
  - apply app_nil_r.
  - intros other Hne.
    fold (matching other payload (map_set H topic cb (subs H w))).
    fold (matching other payload (subs H w)).
    rewrite matching_map_set by exact Hnd.
    destruct (String.eqb_spec topic other); [congruence | reflexivity].
Qed.

End Subscriptions.

(** *** A command in the development setup *)

(** X20.  In the development setup - the client connected and the panel's
    subscriptions made - a command published on a relay's [cmdTopic] comes
    back after 300 ms, not before, as one feedback and then one status
    callback of that same relay, with the payload as sent; a disconnect in
    between drops it.  Delivered to the panel, the two callbacks set the
    relay's Rx flag and its switch to what the payload says, and the timeline
    follows. *)
Theorem command_round_trip (r : RelayConfig) (p : string) (t : Z)
        (Number_ : string -> option Z) (device : string) :
  In r device_relays ->
  let sent := [Publish Callback (cmdTopic r) p] in
  let back := calls Callback
                (run Callback subscribed_panel (sent ++ [Elapse Callback 300])) in
  calls Callback (run Callback subscribed_panel (sent ++ [Elapse Callback 299])) = []
  /\ back = [(OnFeedback (key r), feedbackTopic r, p);
             (OnStatus (key r), statusTopic r, p)]
  /\ calls Callback
       (run Callback subscribed_panel
            (sent ++ [Disconnect Callback; Elapse Callback 300])) = []
  /\ (let pn := Panel.run Number_ device Panel.initial (map (deliver t) back) in
      Panel.flag (key r) (Panel.rx (Panel.state pn)) = Panel.on_test p
      /\ Panel.flag (key r) (Panel.status (Panel.state pn)) = Panel.on_test p
      /\ Timeline.open_count (key r) (Panel.intervals pn)
         = if Panel.on_test p then 1 else 0).
Proof.
  intros Hin sent back. subst sent back.
  unfold device_relays in Hin. simpl in Hin.
  destruct Hin as [<- | [<- | [<- | [<- | []]]]];
    (split; [vm_compute; reflexivity|]);
    (split; [vm_compute; reflexivity|]);
    (split; [vm_compute; reflexivity|]);
    match goal with |- let pn := Panel.run _ _ _ (map _ ?c) in _ =>
      let c' := eval vm_compute in c in change c with c' end;
    cbv zeta; unfold Panel.run; cbn [map fold_left deliver fst snd Panel.step];
    unfold Panel.on_feedback, Panel.on_status; cbv zeta;
    cbn [Panel.state Panel.rx Panel.status Panel.intervals Panel.initial];
    unfold Panel.flag; rewrite !PanelProps.get_key_set_key, !String.eqb_refl;
    rewrite TimelineProps.update_count, String.eqb_refl;
    destruct (Panel.on_test p); repeat split.
Qed.

(** Witness of X20: relay k2 switched on. *)
Lemma command_round_trip_witness :
  calls Callback
    (run Callback subscribed_panel
         [Publish Callback "mod_1x1/d_000/k2/cmd" "on"; Elapse Callback 300])
  = [(OnFeedback "k2", "mod_1x1/d_000/k2/feedback"%string, "on"%string);
     (OnStatus "k2", "mod_1x1/d_000/k2/status"%string, "on"%string)].
Proof.
  apply (command_round_trip (relay_config 2) "on" 0 (fun _ => None) "d_000").
  unfold device_relays. simpl. auto.
Defined.

End MqttProps.

(** ** The inactivity timer *)

Module IdleProps.
Import Idle.
Local Open Scope list_scope.

Lemma bump_pending (st : State) :
  one_pending st ->
  pending (bump st) = [(next_timer st, (now st + idle_delay)%N)]
  /\ timer (bump st) = Some (next_timer st).
Proof.
  intros [Hp | (id & d & Hp & Ht)]; unfold bump; simpl.
  - rewrite Hp. destruct (timer st); auto.
  - rewrite Ht, Hp. simpl. rewrite Pos.eqb_refl. auto.
Qed.

Lemma one_pending_step (st : State) (ev : Event) :
  one_pending st -> one_pending (step st ev).
Proof.
  intros H. destruct ev as [|dt]; simpl.
  - unfold activity. destruct (listening st); [|exact H].
    destruct (bump_pending st H) as [E1 E2]. right. eauto.
  - unfold elapse, one_pending. simpl.
    destruct H as [Hp | (id & d & Hp & Ht)]; rewrite Hp; simpl; [auto|].
    destruct (d <=? now st + dt)%N; simpl; [auto|]. right. eauto.
Qed.

Lemma one_pending_run (st : State) (evs : list Event) :
  one_pending st -> one_pending (run st evs).
Proof.
  unfold run. revert st. induction evs as [|ev evs IH]; intros st H; simpl;
    [exact H|]. apply IH. now apply one_pending_step.
Qed.

Lemma started_one_pending : one_pending (effect init) /\ listening (effect init) = true.
Proof. split; [right; repeat eexists | reflexivity]. Qed.

Lemma listening_run (st : State) (evs : list Event) :
  listening (run st evs) = listening st.
Proof.
  unfold run. revert st. induction evs as [|ev evs IH]; intros st; simpl;
    [reflexivity|]. rewrite IH. destruct ev; simpl; [|reflexivity].
  unfold activity. destruct (listening st) eqn:E; [|exact E]. exact E.
Qed.

(** X22.  However activity and time interleave after the effect has
    started, at most one inactivity timeout is pending; each activity
    cancels it and arms a new one, so 900000 ms (15 minutes) are counted from
    the last activity: less than that after an activity nothing expires, and
    once that much has passed the callback runs exactly once.  The cleanup
    leaves nothing pending. *)
Theorem idle_counts_from_last_activity (evs : list Event) :
  let st := run (effect init) evs in
  List.length (pending st) <= 1
  /\ idle_delay = 900000%N
  /\ (forall dt, (dt < 900000)%N ->
        expired (run st [Activity; Elapse dt]) = expired st
        /\ List.length (pending (run st [Activity; Elapse dt])) = 1)
  /\ (forall dt, (900000 <= dt)%N ->
        expired (run st [Activity; Elapse dt]) = S (expired st)
        /\ pending (run st [Activity; Elapse dt]) = [])
  /\ pending (cleanup st) = [].
Proof.
  intros st.
  assert (H : one_pending st).
  { apply one_pending_run. apply started_one_pending. }
  assert (Hl : listening st = true).
  { subst st. rewrite listening_run. reflexivity. }
  destruct (bump_pending st H) as [Eb _].
  split; [|split; [reflexivity|split; [|split]]].
  - destruct H as [-> | (id & d & -> & _)]; simpl; lia.
  - intros dt Hdt. unfold run. simpl. unfold activity. rewrite Hl.
    unfold elapse. rewrite Eb. cbn [filter snd expired pending].
    change (now (bump st)) with (now st). change (expired (bump st)) with (expired st).
    change idle_delay with 900000%N.
    replace (now st + 900000 <=? now st + dt)%N with false
      by (symmetry; apply N.leb_gt; lia).
    simpl. split; [lia | reflexivity].
  - intros dt Hdt. unfold run. simpl. unfold activity. rewrite Hl.
    unfold elapse. rewrite Eb. cbn [filter snd expired pending].
    change (now (bump st)) with (now st). change (expired (bump st)) with (expired st).
    change idle_delay with 900000%N.
    replace (now st + 900000 <=? now st + dt)%N with true
      by (symmetry; apply N.leb_le; lia).
    simpl. split; [lia | reflexivity].
  - unfold cleanup. simpl.
    destruct H as [Hp | (id & d & Hp & Ht)]; rewrite Hp.
    + destruct (timer st); reflexivity.
    + rewrite Ht. simpl. now rewrite Pos.eqb_refl.
Qed.

End IdleProps.

(** ** Class names *)

Module ClassNamesProps.
Import JS ClassNames.
Local Open Scope list_scope.

Lemma join_nonempty (parts : list string) :
  parts <> [] -> Forall (fun s => s <> ""%string) parts ->
  join_with " " parts <> ""%string.
Proof.
  intros Hne Hall. destruct parts as [|p rest]; [congruence|].
  inversion Hall as [|? ? Hp _]; subst.
  destruct p as [|c p]; [congruence|].
  destruct rest; simpl; discriminate.
Qed.

Lemma join_app (l1 l2 : list string) :
  l1 <> [] -> l2 <> [] ->
  join_with " " (l1 ++ l2)
  = (join_with " " l1 ++ " " ++ join_with " " l2)%string.
Proof.
  intros H1 H2. induction l1 as [|a l1 IH]; [congruence|].
  destruct l1 as [|b l1].
  - simpl. destruct l2; [congruence | reflexivity].
  - change (join_with " " ((a :: b :: l1) ++ l2))
      with (a ++ " " ++ join_with " " ((b :: l1) ++ l2))%string.
    rewrite IH by discriminate.
    change (join_with " " (a :: b :: l1))
      with (a ++ " " ++ join_with " " (b :: l1))%string.
    now rewrite !PanelProps.append_assoc.
Qed.

Lemma kept_nonempty (xs : list Arg) :
  Forall (fun s => s <> ""%string) (map text_of (filter to_boolean xs)).
Proof.
  induction xs as [|x xs IH]; simpl; [constructor|].
  destruct x as [s| |]; simpl; auto.
  destruct (String.eqb_spec s ""); simpl; auto.
Qed.

Lemma clsx_empty (xs : list Arg) :
  clsx xs = ""%string <-> filter to_boolean xs = [].
Proof.
  unfold clsx. split.
  - intros E. destruct (filter to_boolean xs) as [|x l] eqn:F; [reflexivity|].
    exfalso. revert E. apply join_nonempty; [discriminate|].
    rewrite <- F. apply kept_nonempty.
  - intros ->. reflexivity.
Qed.

(** X23.  [clsx] gives the truthy texts in order with single spaces between
    them: the result is empty exactly when no argument is truthy, [false],
    [undefined] and the empty text leave no trace, and the class list of two
    argument lists put together is the two class lists glued with one space
    (or the other one, when one is empty). *)
Theorem clsx_glues (xs ys : list Arg) :
  clsx (xs ++ ys) = glue (clsx xs) (clsx ys)
  /\ (clsx xs = ""%string <-> Forall (fun x => to_boolean x = false) xs)
  /\ clsx (xs ++ [False_; Undefined_; Text ""] ++ ys) = clsx (xs ++ ys).
Proof.
  split; [|split].
  - unfold glue.
    destruct (String.eqb_spec (clsx xs) "") as [E | E].
    + apply clsx_empty in E. unfold clsx. now rewrite filter_app, E.
    + destruct (String.eqb_spec (clsx ys) "") as [E' | E'].
      * apply clsx_empty in E'. unfold clsx. now rewrite filter_app, E', app_nil_r.
      * unfold clsx in *. rewrite filter_app, map_app. apply join_app.
        -- intros F. apply E. apply map_eq_nil in F. now rewrite F.
        -- intros F. apply E'. apply map_eq_nil in F. now rewrite F.
  - rewrite clsx_empty. induction xs as [|x xs IH]; simpl.
    + split; constructor.
    + destruct (to_boolean x) eqn:Hx; split; intros H; try discriminate.
      * inversion H; congruence.
      * constructor; [exact Hx | now apply IH].
      * inversion H; subst. now apply IH.
  - unfold clsx. now rewrite !filter_app.
Qed.

End ClassNamesProps.

(** ** The presence hook's effect *)

Module TrackerProps.
Import JS Presence PresenceView Tracker.
Local Open Scope list_scope.

Section Props.

Variable JSON_parse : string -> Completion JSValue.
Variable h : Hook.

Local Abbreviation step := (Tracker.step JSON_parse h).
Local Abbreviation run := (Tracker.run JSON_parse h).

Lemma ask_start_requests (c : Presence.State) :
  requests (ask_start h c) = requests c ++ [liveness_request h].
Proof.
  unfold ask_start. cbn [requests].
  destruct (PresenceRunProps.clear_current_frame (setStatus checking c))
    as (_ & _ & _ & _ & _ & E & _).
  now rewrite E.
Qed.

Lemma clear_current_requests (c : Presence.State) :
  requests (clear_current c) = requests c.
Proof. now destruct (PresenceRunProps.clear_current_frame c) as (_ & _ & _ & _ & _ & E & _). Qed.

Lemma opens_after_first (s : nat) (n : nat) (st : State) :
  open_listener st = None -> run st (repeat (SocketOpen s) n) = st.
Proof.
  intros H. unfold Tracker.run. induction n as [|n IH]; simpl; [reflexivity|].
  rewrite H. exact IH.
Qed.

(** X24.  Given a socket that is not open yet, the effect sends nothing;
    the request goes out when that socket reports open, once, however many
    open events follow, and an open event of another socket sends nothing.
    Given an open socket, the request goes out at once.  While the effect
    waits, and when the request goes out, [handleMessage] is attached to the
    socket, and the status is [checking] once the request is out. *)
Theorem deferred_check_fires_once (st : State) (s : nat) (n : nat) :
  let base := requests (core (teardown st)) in
  let waiting := step st (Render (Some {| sock := s; is_open := false |})) in
  let opened := run waiting (repeat (SocketOpen s) (S n)) in
  requests (core waiting) = base
  /\ message_listener waiting = Some s
  /\ requests (core opened) = base ++ [liveness_request h]
  /\ status (core opened) = checking
  /\ message_listener opened = Some s
  /\ (forall s', s' <> s -> step waiting (SocketOpen s') = waiting)
  /\ requests (core (step st (Render (Some {| sock := s; is_open := true |}))))
     = base ++ [liveness_request h]
  /\ base = requests (core st).
Proof.
  cbn zeta. cbn [Tracker.step effect is_open sock core message_listener].
  split; [reflexivity|]. split; [reflexivity|].
  assert (E : run {| core := core (teardown st); message_listener := Some s;
                     open_listener := Some s |} (repeat (SocketOpen s) (S n))
              = {| core := ask_start h (core (teardown st));
                   message_listener := Some s; open_listener := None |}).
  { unfold Tracker.run. cbn [repeat fold_left Tracker.step open_listener].
    rewrite Nat.eqb_refl. apply opens_after_first. reflexivity. }
  rewrite E. cbn [core message_listener].
  split; [apply ask_start_requests|].
  split.
  { unfold ask_start. cbn [status].
    now destruct (PresenceRunProps.clear_current_frame
                    (setStatus checking (core (teardown st)))) as (-> & _). }
  split; [reflexivity|].
  split.
  { intros s' Hs. cbn [open_listener].
    destruct (Nat.eqb_spec s' s); [contradiction | reflexivity]. }
  split; [apply ask_start_requests|].
  unfold teardown. destruct (message_listener st); [|reflexivity].
  apply clear_current_requests.
Qed.




End Props.


End TrackerProps.

(** ** Request bodies *)

Module WireProps.
Import JS Presence Wire.
Local Open Scope list_scope.

(** Reading back one written character. *)
Lemma string_lit_char (c : ascii) (tail : string) :
  JSON.string_lit (JSON.quote_char c ++ tail)%string
  = JSON.cons_lit c (JSON.string_lit tail).
Proof.
  destruct c as [[] [] [] [] [] [] [] []]; reflexivity.
Qed.

(** Reading back a written string body up to its closing quote. *)
Lemma string_lit_quote_body (s rest : string) :
  JSON.string_lit (JSON.quote_body s ++ String JSON.dquote rest)%string
  = Some (s, rest).
Proof.
  induction s as [|c s IH].
  - reflexivity.
  - cbn [JSON.quote_body]. rewrite PanelProps.append_assoc.
    rewrite string_lit_char, IH. reflexivity.
Qed.

(** A member as it is written: the quoted key, a colon, the quoted
    text, then what follows. *)
Local Abbreviation member k body rest :=
  (String JSON.dquote (k ++ String JSON.dquote (String ":"
     (String JSON.dquote (body ++ String JSON.dquote rest)))))%string.

(** The text of a body, character by character. *)
Lemma request_body_text (r : Request) :
  request_body r
  = String "{"
      (member "deviceId" (JSON.quote_body (req_deviceId r)) (String ","
      (member "path" (JSON.quote_body (req_path r)) (String ","
      (member "value" (JSON.quote_body (req_value r)) "}"))))).
Proof.
  unfold request_body, body_object. cbn [JSON.stringify join_with].
  unfold JSON.quote. cbn [JSON.quote_body JSON.quote_char append].
  repeat (rewrite !PanelProps.append_assoc; cbn [append]).
  reflexivity.
Qed.

Lemma skip_ws_at (c : ascii) (r : string) :
  JSON.is_json_space c = false -> JSON.skip_ws (String c r) = String c r.
Proof. intros H. cbn [JSON.skip_ws]. now rewrite H. Qed.

Ltac expose_dquote :=
  let d := eval vm_compute in JSON.dquote in
  change JSON.dquote with d at 1; cbv beta iota; fold JSON.dquote.

(** Reading a written string value. *)
Lemma value_string (n : nat) (s rest : string) :
  JSON.value (S n) (String JSON.dquote (JSON.quote_body s ++ String JSON.dquote rest))
  = Some (JStr s, rest).
Proof.
  cbn [JSON.value]. rewrite skip_ws_at by reflexivity.
  expose_dquote.
  rewrite Ascii.eqb_refl, string_lit_quote_body. reflexivity.
Qed.

(** Reading a written member that another one follows, and the last one. *)
Lemma members_next (n : nat) (acc : list (string * JSValue)) (k s rest : string) :
  JSON.members (S (S n)) acc
    (member (JSON.quote_body k) (JSON.quote_body s) (String "," rest))
  = JSON.members (S n) (JSON.define_property k (JStr s) acc) rest.
Proof.
  cbn [JSON.members]. rewrite skip_ws_at by reflexivity.
  rewrite Ascii.eqb_refl, string_lit_quote_body.
  rewrite skip_ws_at by reflexivity. cbv beta iota.
  rewrite value_string. rewrite skip_ws_at by reflexivity. reflexivity.
Qed.

Lemma members_last (n : nat) (acc : list (string * JSValue)) (k s rest : string) :
  JSON.members (S (S n)) acc
    (member (JSON.quote_body k) (JSON.quote_body s) (String "}" rest))
  = Some (JObj (JSON.define_property k (JStr s) acc), rest).
Proof.
  cbn [JSON.members]. rewrite skip_ws_at by reflexivity.
  rewrite Ascii.eqb_refl, string_lit_quote_body.
  rewrite skip_ws_at by reflexivity. cbv beta iota.
  rewrite value_string. rewrite skip_ws_at by reflexivity. reflexivity.
Qed.

Lemma value_request_body (r : Request) (fuel : nat) :
  JSON.value (5 + fuel) (request_body r) = Some (body_object r, ""%string).
Proof.
  rewrite request_body_text.
  change (5 + fuel) with (S (S (S (S (S fuel))))).
  cbn [JSON.value]. rewrite skip_ws_at by reflexivity. cbv beta iota.
  rewrite skip_ws_at by reflexivity. expose_dquote.
  rewrite (members_next _ [] "deviceId").
  rewrite (members_next _ _ "path").
  rewrite (members_last _ _ "value").
  reflexivity.
Qed.

Lemma body_length (r : Request) : 2 <= String.length (request_body r).
Proof. rewrite request_body_text. cbn [String.length]. lia. Qed.

(** X26.  The body [ask] and [sendCommand] hand to [fetch] is JSON text
    that reads back as the object with exactly the three fields
    [deviceId], [path] and [value], in this order and with the texts
    unchanged, whatever characters they contain (quotes, backslashes,
    control characters); so two requests with the same body carry the same
    device, path and value, and the body of a relay command is never that
    of a liveness check. *)
Theorem request_body_round_trip (r : Request) :
  JSON.parse (request_body r) = Normal (body_object r)
  /\ (forall r', request_body r' = request_body r ->
        req_deviceId r' = req_deviceId r /\ req_path r' = req_path r
        /\ req_value r' = req_value r)
  /\ (forall h d v,
        request_body (sendCommand d v)
        <> request_body (PresenceView.liveness_request h)).
Proof.
  assert (P : forall x, JSON.parse (request_body x) = Normal (body_object x)).
  { intros x. unfold JSON.parse.
    pose proof (body_length x) as L.
    replace (2 * String.length (request_body x) + 2)
      with (5 + (2 * String.length (request_body x) - 3)) by lia.
    now rewrite value_request_body. }
  assert (I : forall x y, request_body x = request_body y ->
                req_deviceId x = req_deviceId y /\ req_path x = req_path y
                /\ req_value x = req_value y).
  { intros x y E. pose proof (P x) as Px. rewrite E, P in Px.
    unfold body_object in Px. injection Px as -> -> ->. auto. }
  split; [apply P|]. split; [intros r'; apply I|].
  intros h d v E. apply I in E as (_ & E & _). discriminate E.
Qed.

End WireProps.
